(** * De-identification and chunking pipeline: shallow embedding

    The Python sources [app/core/chunk.py], [app/core/anonymize.py],
    [app/core/io_utils.py], [app/core/extract_pdf.py],
    [app/core/extract_excel.py] and [app/cli.py] are embedded as Rocq
    functions.  A Python [str] is a [list ascii]; a character is the code
    point of that number, so the texts covered are those over the code
    points 0..255.  Python integers are [Z]. *)

From Stdlib Require Import Ascii String.
From Stdlib Require Import List ZArith NArith Bool Lia Arith DecimalZ.
Import ListNotations.

Local Open Scope Z_scope.

(** ** Python strings *)

Definition str := list ascii.

(** A literal. *)
Definition py (x : string) : str := list_ascii_of_string x.

(** [len(s)] *)
Definition len {A : Type} (l : list A) : Z := Z.of_nat (length l).

Definition code (c : ascii) : N := N_of_ascii c.

(** [c.isspace()] on the code points below 256: TAB..CR, FS..US and SPACE,
    NEL (0x85) and NBSP (0xa0). *)
Definition isspace (c : ascii) : bool :=
  let n := code c in
  (((9 <=? n) && (n <=? 13)) || ((28 <=? n) && (n <=? 32))
   || (n =? 133) || (n =? 160))%N.

Fixpoint lstrip (s : str) : str :=
  match s with
  | [] => []
  | c :: s' => if isspace c then lstrip s' else s
  end.

Definition rstrip (s : str) : str := rev (lstrip (rev s)).

(** [s.strip()] *)
Definition strip (s : str) : str := rstrip (lstrip s).

(** Truth value of a string or a list: non-empty. *)
Definition truthy {A : Type} (l : list A) : bool :=
  match l with [] => false | _ :: _ => true end.

Definition ascii_eqb (a b : ascii) : bool := Ascii.eqb a b.

(** [s.startswith(p)] *)
Fixpoint startswith (p s : str) : bool :=
  match p, s with
  | [], _ => true
  | a :: p', b :: s' => ascii_eqb a b && startswith p' s'
  | _ :: _, [] => false
  end.

(** [a == b] *)
Fixpoint str_eqb (a b : str) : bool :=
  match a, b with
  | [], [] => true
  | x :: a', y :: b' => ascii_eqb x y && str_eqb a' b'
  | _, _ => false
  end.

(** [s.replace(old, new)] for a non-empty [old]: the occurrences of [old]
    are found from left to right and do not overlap.  Every step consumes
    a character, so [length s] steps are enough. *)
Fixpoint replace_from (fuel : nat) (old new s : str) : str :=
  match fuel with
  | O => s
  | S fuel' =>
      match s with
      | [] => []
      | c :: s' =>
          if startswith old s
          then new ++ replace_from fuel' old new (skipn (length old) s)
          else c :: replace_from fuel' old new s'
      end
  end.

Definition replace (old new s : str) : str :=
  replace_from (length s) old new s.

(** [s.split(sep)] for a non-empty [sep]: [cur] holds the characters of
    the part being read, last one first. *)
Fixpoint split_from (fuel : nat) (sep cur s : str) : list str :=
  match fuel with
  | O => [rev cur]
  | S fuel' =>
      match s with
      | [] => [rev cur]
      | c :: s' =>
          if startswith sep s
          then rev cur :: split_from fuel' sep [] (skipn (length sep) s)
          else split_from fuel' sep (c :: cur) s'
      end
  end.

Definition split (sep s : str) : list str :=
  split_from (length s) sep [] s.

(** [sep.join(parts)] *)
Fixpoint join (sep : str) (parts : list str) : str :=
  match parts with
  | [] => []
  | [p] => p
  | p :: rest => p ++ sep ++ join sep rest
  end.

(** An index of a slice on a sequence of [n] items: negative indices count
    from the end, and both ends are clamped. *)
Definition slice_index (n i : Z) : Z :=
  if i <? 0 then Z.max (i + n) 0 else Z.min i n.

(** [l[i:j]] *)
Definition slice {A : Type} (l : list A) (i j : Z) : list A :=
  let a := slice_index (len l) i in
  let b := slice_index (len l) j in
  firstn (Z.to_nat (b - a)) (skipn (Z.to_nat a) l).

(** ** app/core/chunk.py *)

Definition LF : ascii := ascii_of_N 10.
Definition CR : ascii := ascii_of_N 13.

(** The generator's local state: the paragraph buffer [current], its
    running length [current_len], and the chunks yielded so far. *)
Record chunker := mkChunker {
  current : list str;
  current_len : Z;
  yielded : list str
}.

Definition yield (c : str) (st : chunker) : chunker :=
  mkChunker (current st) (current_len st) (yielded st ++ [c]).

(** The inner [flush()]. *)
Definition flush (st : chunker) : chunker :=
  if truthy (current st) then
    let yield_text := strip (join [LF; LF] (current st)) in
    let st' := if truthy yield_text then yield yield_text st else st in
    mkChunker [] 0 (yielded st')
  else st.

(** The [while start < len(para)] loop that hard-splits a long paragraph.
    [None]: the loop is still running after [fuel] iterations. *)
Fixpoint hard_split (fuel : nat) (para : str) (max_chars start : Z)
    (st : chunker) : option chunker :=
  if start <? len para then
    match fuel with
    | O => None
    | S fuel' =>
        let end_ := Z.min (start + max_chars) (len para) in
        let piece := slice para start end_ in
        let st' :=
          if truthy (strip piece) then
            yield piece (if truthy (current st) then flush st else st)
          else st in
        hard_split fuel' para max_chars end_ st'
    end
  else Some st.

(** One iteration of [for para in paragraphs]. *)
Definition chunk_para (fuel : nat) (max_chars : Z) (para : str)
    (st : chunker) : option chunker :=
  if len para >? max_chars then
    hard_split fuel para max_chars 0 st
  else
    let st1 :=
      if current_len st + len para + (if truthy (current st) then 2 else 0)
         >? max_chars
      then flush st else st in
    Some (mkChunker (current st1 ++ [para])
            (current_len st1 + len para
             + (if current_len st1 >? 0 then 2 else 0))
            (yielded st1)).

Fixpoint chunk_paras (fuel : nat) (max_chars : Z) (paragraphs : list str)
    (st : chunker) : option chunker :=
  match paragraphs with
  | [] => Some st
  | para :: rest =>
      match chunk_para fuel max_chars para st with
      | Some st' => chunk_paras fuel max_chars rest st'
      | None => None
      end
  end.

(** [[p.strip() for p in text.split("\n\n") if p.strip()]] after the line
    endings are normalised. *)
Definition paragraphs_of (text : str) : list str :=
  let text := replace [CR] [LF] (replace [CR; LF] [LF] text) in
  map strip (filter (fun p => truthy (strip p)) (split [LF; LF] text)).

(** [list(chunk_text(text, max_chars))], the chunks in the order they are
    yielded; [None] when a hard-split loop does not end within [fuel]
    iterations. *)
Definition chunk_text_fuel (fuel : nat) (text : str) (max_chars : Z)
    : option (list str) :=
  if truthy text then
    match chunk_paras fuel max_chars (paragraphs_of text)
            (mkChunker [] 0 []) with
    | Some st =>
        Some (if truthy (current st)
              then yielded st ++ [strip (join [LF; LF] (current st))]
              else yielded st)
    | None => None
    end
  else Some [].

(** A hard-split loop on a paragraph of [text] takes at most [len(text)]
    iterations when [max_chars >= 1]. *)
Definition chunk_text (text : str) (max_chars : Z) : option (list str) :=
  chunk_text_fuel (S (length text)) text max_chars.


(** ** Regular expressions (the part of [re] the pattern catalogue uses)

    A backtracking matcher: alternatives are tried from left to right, a
    greedy repetition tries one more iteration before it tries to stop, a
    lazy one the other way round, and the first way that lets the rest of
    the pattern match is the match. *)

Inductive char_set :=
| Chr (c : ascii)            (* a literal character *)
| Rng (lo hi : ascii)        (* lo-hi *)
| Digit                      (* \d *)
| Space.                     (* \s *)

Inductive regex :=
| OneOf (items : list char_set)                  (* [...], or one item *)
| Cat (r1 r2 : regex)
| Alt (r1 r2 : regex)                            (* r1|r2 *)
| Repeat (r : regex) (lo : nat) (hi : option nat) (greedy : bool)
| WordBoundary                                   (* \b *)
| EndOfString.                                   (* $ *)

Definition isdigit (c : ascii) : bool :=
  ((48 <=? code c) && (code c <=? 57))%N.

Definition in_range (lo hi n : N) : bool := ((lo <=? n) && (n <=? hi))%N.

(** [\w] on the code points below 256: alphanumeric or underscore. *)
Definition isword (c : ascii) : bool :=
  let n := code c in
  in_range 48 57 n || in_range 65 90 n || (n =? 95)%N || in_range 97 122 n
  || (n =? 170)%N || in_range 178 179 n || (n =? 181)%N || in_range 185 186 n
  || in_range 188 190 n || in_range 192 214 n || in_range 216 246 n
  || in_range 248 255 n.

Definition in_item (c : ascii) (i : char_set) : bool :=
  match i with
  | Chr a => ascii_eqb a c
  | Rng lo hi => in_range (code lo) (code hi) (code c)
  | Digit => isdigit c
  | Space => isspace c
  end.

Definition in_set (items : list char_set) (c : ascii) : bool :=
  existsb (in_item c) items.

Definition opt_word (c : option ascii) : bool :=
  match c with Some a => isword a | None => false end.

(** [run r prev s k]: match [r] at a position whose previous character is
    [prev] and whose remaining input is [s], then go on with [k]; the
    result is the input left after the whole match.  A repetition without
    upper bound is given [length s] iterations: an iteration that consumes
    nothing is not repeated. *)
Fixpoint run (r : regex) (prev : option ascii) (s : str)
    (k : option ascii -> str -> option str) {struct r} : option str :=
  match r with
  | OneOf items =>
      match s with
      | c :: s' => if in_set items c then k (Some c) s' else None
      | [] => None
      end
  | Cat r1 r2 => run r1 prev s (fun p s' => run r2 p s' k)
  | Alt r1 r2 =>
      match run r1 prev s k with
      | Some rest => Some rest
      | None => run r2 prev s k
      end
  | Repeat r' lo hi greedy =>
      (fix loop (budget done : nat) (prev : option ascii) (s : str)
           {struct budget} : option str :=
         match budget with
         | O => if (lo <=? done)%nat then k prev s else None
         | S budget' =>
             if greedy then
               match run r' prev s
                       (fun p s' => loop budget' (S done) p s') with
               | Some rest => Some rest
               | None => if (lo <=? done)%nat then k prev s else None
               end
             else
               match (if (lo <=? done)%nat then k prev s else None) with
               | Some rest => Some rest
               | None => run r' prev s
                           (fun p s' => loop budget' (S done) p s')
               end
         end)
        (match hi with Some h => h | None => length s end) O prev s
  | WordBoundary =>
      if xorb (opt_word prev) (opt_word (hd_error s)) then k prev s else None
  | EndOfString =>
      match s with
      | [] => k prev s
      | [c] => if ascii_eqb c LF then k prev s else None
      | _ => None
      end
  end.

(** [pattern.match(text, pos)]: the input left after the match. *)
Definition match_at (r : regex) (prev : option ascii) (s : str)
    : option str :=
  run r prev s (fun _ rest => Some rest).

(** [[(m.start(), m.end()) for m in pattern.finditer(text)]], scanning
    from offset [pos] where [s] is what is left of the text.  No pattern of
    the catalogue matches the empty string; an empty match would move the
    scan on by one character. *)
Fixpoint finditer_from (fuel : nat) (r : regex) (prev : option ascii)
    (pos : Z) (s : str) : list (Z * Z) :=
  match fuel with
  | O => []
  | S fuel' =>
      match match_at r prev s with
      | Some rest =>
          let n := (length s - length rest)%nat in
          match n, s with
          | O, [] => [(pos, pos)]
          | O, c :: s' =>
              (pos, pos) :: finditer_from fuel' r (Some c) (pos + 1) s'
          | _, _ =>
              (pos, pos + Z.of_nat n)
                :: finditer_from fuel' r (nth_error s (n - 1))
                     (pos + Z.of_nat n) rest
          end
      | None =>
          match s with
          | [] => []
          | c :: s' => finditer_from fuel' r (Some c) (pos + 1) s'
          end
      end
  end.

Definition finditer (r : regex) (text : str) : list (Z * Z) :=
  finditer_from (S (length text)) r None 0 text.

(** *** Pattern syntax *)

Definition chr (x : string) : char_set :=
  match x with
  | String c _ => Chr c
  | EmptyString => Chr zero
  end.

Definition rng (x y : string) : char_set :=
  match x, y with
  | String a _, String b _ => Rng a b
  | _, _ => Chr zero
  end.

Definition lit (x : string) : regex := OneOf [chr x].
Definition digit : regex := OneOf [Digit].
Definition opt (r : regex) : regex := Repeat r 0 (Some 1%nat) true.
Definition plus (r : regex) : regex := Repeat r 1 None true.
Definition rep (r : regex) (lo hi : nat) : regex := Repeat r lo (Some hi) true.
Definition times (r : regex) (n : nat) : regex := Repeat r n (Some n) true.

Fixpoint seq (rs : list regex) : regex :=
  match rs with
  | [] => Repeat WordBoundary 0 (Some O) true
  | [r] => r
  | r :: rs' => Cat r (seq rs')
  end.

(** ** app/core/anonymize.py: the pattern catalogue *)

(** [[a-zA-Z0-9_.+\-]+@[a-zA-Z0-9\-]+\.[a-zA-Z0-9\-.]+] *)
Definition EMAIL_ADDRESS_re : regex :=
  seq [ plus (OneOf [rng "a" "z"; rng "A" "Z"; rng "0" "9";
                     chr "_"; chr "."; chr "+"; chr "-"]);
        lit "@";
        plus (OneOf [rng "a" "z"; rng "A" "Z"; rng "0" "9"; chr "-"]);
        lit ".";
        plus (OneOf [rng "a" "z"; rng "A" "Z"; rng "0" "9";
                     chr "-"; chr "."]) ].

(** [[\s.-]] *)
Definition sep_class : regex := OneOf [Space; chr "."; chr "-"].

(** [(?:(?:\+?\d{1,3}[\s.-]?)?(?:\(\d{2,4}\)[\s.-]?|\d{2,4}[\s.-])?\d{3,4}[\s.-]?\d{3,4})] *)
Definition PHONE_NUMBER_re : regex :=
  seq [ opt (seq [opt (lit "+"); rep digit 1 3; opt sep_class]);
        opt (Alt (seq [lit "("; rep digit 2 4; lit ")"; opt sep_class])
                 (seq [rep digit 2 4; sep_class]));
        rep digit 3 4;
        opt sep_class;
        rep digit 3 4 ].

(** [\b(?:(?:25[0-5]|2[0-4]\d|[01]?\d?\d)(?:\.|$)){4}\b] *)
Definition IP_ADDRESS_re : regex :=
  seq [ WordBoundary;
        times (seq [ Alt (seq [lit "2"; lit "5"; OneOf [rng "0" "5"]])
                      (Alt (seq [lit "2"; OneOf [rng "0" "4"]; digit])
                           (seq [opt (OneOf [chr "0"; chr "1"]);
                                 opt digit; digit]));
                     Alt (lit ".") EndOfString ]) 4;
        WordBoundary ].

(** [\b(?:\d[ -]*?){13,19}\b] *)
Definition CREDIT_CARD_re : regex :=
  seq [ WordBoundary;
        rep (seq [digit; Repeat (OneOf [chr " "; chr "-"]) 0 None false])
            13 19;
        WordBoundary ].

(** [\b\d{3}-\d{2}-\d{4}\b] *)
Definition SSN_re : regex :=
  seq [ WordBoundary; times digit 3; lit "-"; times digit 2; lit "-";
        times digit 4; WordBoundary ].

(** [\b(?:\d{1,2}[\-/]\d{1,2}[\-/]\d{2,4}|\d{4}[\-/]\d{1,2}[\-/]\d{1,2})\b] *)
Definition DATE_re : regex :=
  let dash := OneOf [chr "-"; chr "/"] in
  seq [ WordBoundary;
        Alt (seq [rep digit 1 2; dash; rep digit 1 2; dash; rep digit 2 4])
            (seq [times digit 4; dash; rep digit 1 2; dash; rep digit 1 2]);
        WordBoundary ].

(** The dictionary [PII_PATTERNS], in insertion order. *)
Definition PII_PATTERNS : list (str * regex) :=
  [ (py "EMAIL_ADDRESS", EMAIL_ADDRESS_re);
    (py "PHONE_NUMBER", PHONE_NUMBER_re);
    (py "IP_ADDRESS", IP_ADDRESS_re);
    (py "CREDIT_CARD", CREDIT_CARD_re);
    (py "SSN", SSN_re);
    (py "DATE", DATE_re) ].

(** ** Bytes, UTF-8, SHA-256 and HMAC ([hashlib], [hmac])

    A byte is an [ascii] read as its number; 32-bit words are [Z] with the
    wrap-around written out. *)

Definition bytes := list ascii.

Definition byte_of (z : Z) : ascii := ascii_of_N (Z.to_N (z mod 256)).
Definition Z_of_byte (b : ascii) : Z := Z.of_N (N_of_ascii b).

(** [s.encode("utf-8")] on code points below 256. *)
Definition utf8 (s : str) : bytes :=
  flat_map (fun c =>
    let n := Z_of_byte c in
    if n <? 128 then [c]
    else [byte_of (192 + n / 64); byte_of (128 + n mod 64)]) s.

Definition w32 (x : Z) : Z := x mod 2 ^ 32.
Definition add32 (x y : Z) : Z := w32 (x + y).
Definition rotr (n x : Z) : Z :=
  Z.lor (Z.shiftr x n) (w32 (Z.shiftl x (32 - n))).
Definition not32 (x : Z) : Z := w32 (Z.lnot x).

Definition Ch (x y z : Z) : Z := Z.lxor (Z.land x y) (Z.land (not32 x) z).
Definition Maj (x y z : Z) : Z :=
  Z.lxor (Z.lxor (Z.land x y) (Z.land x z)) (Z.land y z).
Definition Sigma0 (x : Z) : Z :=
  Z.lxor (Z.lxor (rotr 2 x) (rotr 13 x)) (rotr 22 x).
Definition Sigma1 (x : Z) : Z :=
  Z.lxor (Z.lxor (rotr 6 x) (rotr 11 x)) (rotr 25 x).
Definition sigma0 (x : Z) : Z :=
  Z.lxor (Z.lxor (rotr 7 x) (rotr 18 x)) (Z.shiftr x 3).
Definition sigma1 (x : Z) : Z :=
  Z.lxor (Z.lxor (rotr 17 x) (rotr 19 x)) (Z.shiftr x 10).

(** The largest [r] between [lo] and [hi] whose cube is at most [n], by
    bisection. *)
Fixpoint cube_root_between (fuel : nat) (n lo hi : Z) : Z :=
  match fuel with
  | O => lo
  | S fuel' =>
      if hi - lo <=? 1 then lo
      else
        let mid := (lo + hi) / 2 in
        if mid * mid * mid <=? n
        then cube_root_between fuel' n mid hi
        else cube_root_between fuel' n lo mid
  end.

Definition is_prime (p : Z) : bool :=
  forallb (fun d => negb (p mod Z.of_nat d =? 0))
          (List.seq 2 (Z.to_nat p - 2)).

(** The first 64 primes. *)
Definition first_primes : list Z :=
  Eval vm_compute in
    filter is_prime (map Z.of_nat (List.seq 2 310)).

(** The round constants: the first 32 bits of the fractional parts of the
    cube roots of the first 64 primes. *)
Definition K256 : list Z :=
  Eval vm_compute in
    map (fun p => w32 (cube_root_between 64 (p * 2 ^ 96) 0 (2 ^ 36)))
        first_primes.

(** The eight working variables [a..h]. *)
Record hash_state := mkHash {
  ha : Z; hb : Z; hc : Z; hd_ : Z; he : Z; hf : Z; hg : Z; hh : Z
}.

(** The initial hash value: the first 32 bits of the fractional parts of
    the square roots of the first 8 primes. *)
Definition H256 : hash_state :=
  Eval vm_compute in
    let h := fun p => w32 (Z.sqrt (p * 2 ^ 64)) in
    mkHash (h 2) (h 3) (h 5) (h 7) (h 11) (h 13) (h 17) (h 19).

Definition sha_round (st : hash_state) (k w : Z) : hash_state :=
  let t1 := add32 (add32 (add32 (hh st) (Sigma1 (he st)))
                     (add32 (Ch (he st) (hf st) (hg st)) k)) w in
  let t2 := add32 (Sigma0 (ha st)) (Maj (ha st) (hb st) (hc st)) in
  mkHash (add32 t1 t2) (ha st) (hb st) (hc st)
         (add32 (hd_ st) t1) (he st) (hf st) (hg st).

(** The 64 rounds; [w] is the window [W[t] .. W[t+15]] of the message
    schedule. *)
Fixpoint sha_rounds (ks : list Z) (w : list Z) (st : hash_state)
    : hash_state :=
  match ks with
  | [] => st
  | k :: ks' =>
      let wt := nth 0 w 0 in
      let next := add32 (add32 (sigma1 (nth 14 w 0)) (nth 9 w 0))
                    (add32 (sigma0 (nth 1 w 0)) wt) in
      sha_rounds ks' (tl w ++ [next]) (sha_round st k wt)
  end.

Definition add_state (x y : hash_state) : hash_state :=
  mkHash (add32 (ha x) (ha y)) (add32 (hb x) (hb y))
         (add32 (hc x) (hc y)) (add32 (hd_ x) (hd_ y))
         (add32 (he x) (he y)) (add32 (hf x) (hf y))
         (add32 (hg x) (hg y)) (add32 (hh x) (hh y)).

(** Big-endian words of a block. *)
Fixpoint words_of (n : nat) (bs : bytes) : list Z :=
  match n with
  | O => []
  | S n' =>
      match bs with
      | b0 :: b1 :: b2 :: b3 :: rest =>
          (Z_of_byte b0 * 2 ^ 24 + Z_of_byte b1 * 2 ^ 16
           + Z_of_byte b2 * 2 ^ 8 + Z_of_byte b3) :: words_of n' rest
      | _ => []
      end
  end.

Fixpoint sha_blocks (n : nat) (bs : bytes) (st : hash_state) : hash_state :=
  match n with
  | O => st
  | S n' =>
      let st' := add_state st (sha_rounds K256 (words_of 16 bs) st) in
      sha_blocks n' (skipn 64 bs) st'
  end.

Definition be_bytes (width : nat) (x : Z) : bytes :=
  map (fun i => byte_of (Z.shiftr x (8 * Z.of_nat i))) (rev (List.seq 0 width)).

Definition sha_pad (msg : bytes) : bytes :=
  let n := len msg in
  let zeros := Z.to_nat ((55 - n) mod 64) in
  msg ++ [byte_of 128] ++ repeat (byte_of 0) zeros ++ be_bytes 8 (8 * n).

(** [hashlib.sha256(msg).digest()] *)
Definition sha256 (msg : bytes) : bytes :=
  let padded := sha_pad msg in
  let st := sha_blocks (length padded / 64) padded H256 in
  flat_map (be_bytes 4)
    [ha st; hb st; hc st; hd_ st; he st; hf st; hg st; hh st].

Definition xor_bytes (pad : Z) (bs : bytes) : bytes :=
  map (fun b => byte_of (Z.lxor (Z_of_byte b) pad)) bs.

(** [hmac.new(key, msg, hashlib.sha256).digest()] *)
Definition hmac_sha256 (key msg : bytes) : bytes :=
  let key := if (64 <? length key)%nat then sha256 key else key in
  let key := key ++ repeat (byte_of 0) (64 - length key) in
  sha256 (xor_bytes 0x5c key ++ sha256 (xor_bytes 0x36 key ++ msg)).

Definition hex_digit (n : Z) : ascii :=
  nth (Z.to_nat n) (py "0123456789abcdef") zero.

(** [.hexdigest()] of a digest. *)
Definition hexdigest (digest : bytes) : str :=
  flat_map (fun b => [hex_digit (Z_of_byte b / 16);
                      hex_digit (Z_of_byte b mod 16)]) digest.

(** ** app/core/anonymize.py *)

Record Anonymizer := mkAnonymizer { secret_key : str }.

(** An entry of [entities_out]: the dictionary with the keys ["type"],
    ["start"] and ["end"]. *)
Record entity := mkEntity { e_type : str; e_start : Z; e_end : Z }.

Definition _stable_token (self : Anonymizer) (entity_type value : str)
    : str :=
  let mac := hmac_sha256 (utf8 (secret_key self))
               (utf8 (entity_type ++ py "::" ++ value)) in
  let token := slice (hexdigest mac) 0 16 in
  py "<" ++ entity_type ++ py ":" ++ token ++ py ">".

(** [l.sort(key=key)], and with [reverse=True] when [reverse] is set: the
    sort is stable both ways.  [x] comes from before [l] in the list being
    sorted, so it goes in front of the items of equal key. *)
Fixpoint sort_insert {A : Type} (key : A -> Z) (reverse : bool) (x : A)
    (l : list A) : list A :=
  match l with
  | [] => [x]
  | y :: l' =>
      if (if reverse then key x <? key y else key y <? key x)
      then y :: sort_insert key reverse x l'
      else x :: l
  end.

Definition sort_by {A : Type} (key : A -> Z) (reverse : bool) (l : list A)
    : list A :=
  fold_right (sort_insert key reverse) [] l.

(** The matches of every pattern, in the order the two nested loops find
    them: [(entity_type, start, end)]. *)
Definition find_entities (text : str) : list entity :=
  flat_map (fun '(entity_type, pattern) =>
              map (fun '(start, end_) => mkEntity entity_type start end_)
                  (finditer pattern text))
           PII_PATTERNS.

(** [anonymized_text[:start] + token + anonymized_text[end:]] *)
Definition replace_segment (anonymized_text : str) (seg : Z * Z * str)
    : str :=
  let '(start, end_, token) := seg in
  slice anonymized_text 0 start ++ token
    ++ slice anonymized_text end_ (len anonymized_text).

(** [Anonymizer.anonymize]; the text is [None] for Python's [None]. *)
Definition anonymize (self : Anonymizer) (text : option str)
    : option str * list entity :=
  match text with
  | None => (None, [])
  | Some [] => (Some [], [])
  | Some text =>
      let entities_out := find_entities text in
      let replaced_segments :=
        map (fun e => (e_start e, e_end e,
                       _stable_token self (e_type e)
                         (slice text (e_start e) (e_end e))))
            entities_out in
      let replaced_segments :=
        sort_by (fun seg => fst (fst seg)) true replaced_segments in
      let anonymized_text :=
        fold_left replace_segment replaced_segments text in
      (Some anonymized_text, sort_by e_start false entities_out)
  end.

(** *** The state a call of [anonymize] runs in

    Besides its argument, a call of [anonymize] reads two things that
    outlive it: the module-level dictionary [PII_PATTERNS], looked up when
    the loop over its items starts, and the attribute [secret_key] of
    [self], looked up by every call of [_stable_token] (the dataclass is
    not frozen, so the attribute can be assigned).  The lists
    [entities_out] and [replaced_segments] are made anew by every call. *)
Record Heap := mkHeap {
  heap_PII_PATTERNS : list (str * regex);
  heap_secret_key : str
}.

(** A computation that runs in this state and may change it. *)
Definition Run (A : Type) : Type := Heap -> A * Heap.

Definition run_ret {A : Type} (a : A) : Run A := fun h => (a, h).

Definition run_bind {A B : Type} (m : Run A) (k : A -> Run B) : Run B :=
  fun h => let '(a, h') := m h in k a h'.

Notation "x <- m ;; k" := (run_bind m (fun x => k))
  (at level 61, m at next level, right associativity).

Definition read_PII_PATTERNS : Run (list (str * regex)) :=
  fun h => (heap_PII_PATTERNS h, h).

Definition read_secret_key : Run str := fun h => (heap_secret_key h, h).

(** [self._stable_token(entity_type, value)] *)
Definition _stable_token_run (entity_type value : str) : Run str :=
  key <- read_secret_key ;;
  run_ret (_stable_token (mkAnonymizer key) entity_type value).

(** [for match in pattern.finditer(text)]: the two lists grow by one item
    for every match. *)
Fixpoint for_matches (text entity_type : str) (matches : list (Z * Z))
    (entities_out : list entity) (replaced_segments : list (Z * Z * str))
    : Run (list entity * list (Z * Z * str)) :=
  match matches with
  | [] => run_ret (entities_out, replaced_segments)
  | (start, end_) :: rest =>
      let value := slice text start end_ in
      token <- _stable_token_run entity_type value ;;
      for_matches text entity_type rest
        (entities_out ++ [mkEntity entity_type start end_])
        (replaced_segments ++ [(start, end_, token)])
  end.

(** [for entity_type, pattern in PII_PATTERNS.items()] *)
Fixpoint for_patterns (text : str) (items : list (str * regex))
    (entities_out : list entity) (replaced_segments : list (Z * Z * str))
    : Run (list entity * list (Z * Z * str)) :=
  match items with
  | [] => run_ret (entities_out, replaced_segments)
  | (entity_type, pattern) :: rest =>
      lists <- for_matches text entity_type (finditer pattern text)
                 entities_out replaced_segments ;;
      for_patterns text rest (fst lists) (snd lists)
  end.

(** [Anonymizer.anonymize] as a computation in this state. *)
Definition anonymize_run (text : option str)
    : Run (option str * list entity) :=
  match text with
  | None => run_ret (None, [])
  | Some [] => run_ret (Some [], [])
  | Some text =>
      items <- read_PII_PATTERNS ;;
      lists <- for_patterns text items [] [] ;;
      let replaced_segments :=
        sort_by (fun seg => fst (fst seg)) true (snd lists) in
      let anonymized_text :=
        fold_left replace_segment replaced_segments text in
      run_ret (Some anonymized_text, sort_by e_start false (fst lists))
  end.

(** ** JSON documents ([json])

    The values the pipeline serialises: [None], integers, strings, lists
    and dictionaries with string keys (kept in insertion order). *)

#[local] Unset Elimination Schemes.

Inductive json :=
| JNull
| JInt (z : Z)
| JStr (s : str)
| JList (items : list json)
| JDict (members : list (str * json)).

#[local] Set Elimination Schemes.

Definition QUOTE : ascii := ascii_of_N 34.
Definition BACKSLASH : ascii := ascii_of_N 92.

(** Digits of a decimal numeral, most significant first. *)
Fixpoint digits (d : Decimal.uint) : str :=
  match d with
  | Decimal.Nil => []
  | Decimal.D0 d' => ascii_of_N 48 :: digits d'
  | Decimal.D1 d' => ascii_of_N 49 :: digits d'
  | Decimal.D2 d' => ascii_of_N 50 :: digits d'
  | Decimal.D3 d' => ascii_of_N 51 :: digits d'
  | Decimal.D4 d' => ascii_of_N 52 :: digits d'
  | Decimal.D5 d' => ascii_of_N 53 :: digits d'
  | Decimal.D6 d' => ascii_of_N 54 :: digits d'
  | Decimal.D7 d' => ascii_of_N 55 :: digits d'
  | Decimal.D8 d' => ascii_of_N 56 :: digits d'
  | Decimal.D9 d' => ascii_of_N 57 :: digits d'
  end.

(** [str(z)] of an integer. *)
Definition str_of_int (z : Z) : str :=
  match Z.to_int z with
  | Decimal.Pos d => digits d
  | Decimal.Neg d => ascii_of_N 45 :: digits d
  end.

(** The escape of one character in a JSON string when [ensure_ascii] is
    off: the quote, the backslash and the control characters only. *)
Definition escape_char (c : ascii) : str :=
  let n := code c in
  if (n =? 34)%N then [BACKSLASH; QUOTE]
  else if (n =? 92)%N then [BACKSLASH; BACKSLASH]
  else if (n =? 10)%N then BACKSLASH :: py "n"
  else if (n =? 13)%N then BACKSLASH :: py "r"
  else if (n =? 9)%N then BACKSLASH :: py "t"
  else if (n =? 8)%N then BACKSLASH :: py "b"
  else if (n =? 12)%N then BACKSLASH :: py "f"
  else if (n <? 32)%N then
    BACKSLASH :: py "u00"
      ++ [hex_digit (Z.of_N n / 16); hex_digit (Z.of_N n mod 16)]
  else [c].

Definition encode_str (s : str) : str :=
  QUOTE :: flat_map escape_char s ++ [QUOTE].

(** [json.dumps(v, ensure_ascii=False)], with the default separators. *)
Fixpoint dumps (v : json) : str :=
  match v with
  | JNull => py "null"
  | JInt z => str_of_int z
  | JStr s => encode_str s
  | JList items => py "[" ++ join (py ", ") (map dumps items) ++ py "]"
  | JDict members =>
      py "{"
      ++ join (py ", ")
           (map (fun kv => encode_str (fst kv) ++ py ": " ++ dumps (snd kv))
                members)
      ++ py "}"
  end.

(** *** Reading a document back

    The reader a consumer of the stream applies to a line: the JSON
    grammar for the values above (no floats, no booleans). *)

Definition is_json_ws (c : ascii) : bool :=
  let n := code c in ((n =? 32) || (n =? 9) || (n =? 10) || (n =? 13))%N.

Fixpoint skip_ws (s : str) : str :=
  match s with
  | c :: s' => if is_json_ws c then skip_ws s' else s
  | [] => []
  end.

Definition hex_value (c : ascii) : option N :=
  let n := code c in
  if in_range 48 57 n then Some (n - 48)%N
  else if in_range 97 102 n then Some (n - 87)%N
  else if in_range 65 70 n then Some (n - 55)%N
  else None.

Definition unescape (c : ascii) : option ascii :=
  let n := code c in
  if (n =? 34)%N then Some QUOTE
  else if (n =? 92)%N then Some BACKSLASH
  else if (n =? 47)%N then Some (ascii_of_N 47)
  else if (n =? 110)%N then Some LF
  else if (n =? 114)%N then Some CR
  else if (n =? 116)%N then Some (ascii_of_N 9)
  else if (n =? 98)%N then Some (ascii_of_N 8)
  else if (n =? 102)%N then Some (ascii_of_N 12)
  else None.

Definition cons_result (c : ascii) (r : option (str * str))
    : option (str * str) :=
  match r with
  | Some (x, rest) => Some (c :: x, rest)
  | None => None
  end.

(** The characters of a string up to its closing quote; the opening quote
    has been read. *)
Fixpoint read_string (s : str) : option (str * str) :=
  match s with
  | [] => None
  | c :: s' =>
      if ascii_eqb c QUOTE then Some ([], s')
      else if ascii_eqb c BACKSLASH then
        match s' with
        | [] => None
        | e :: s'' =>
            match unescape e with
            | Some x => cons_result x (read_string s'')
            | None =>
                if ascii_eqb e (ascii_of_N 117) then
                  match s'' with
                  | h1 :: h2 :: h3 :: h4 :: s3 =>
                      match hex_value h1, hex_value h2,
                            hex_value h3, hex_value h4 with
                      | Some 0%N, Some 0%N, Some a, Some b =>
                          cons_result (ascii_of_N (16 * a + b))
                            (read_string s3)
                      | _, _, _, _ => None
                      end
                  | _ => None
                  end
                else None
            end
        end
      else if (code c <? 32)%N then None
      else cons_result c (read_string s')
  end.

Definition digit_value (c : ascii) : option (Decimal.uint -> Decimal.uint) :=
  match code c with
  | 48%N => Some Decimal.D0 | 49%N => Some Decimal.D1
  | 50%N => Some Decimal.D2 | 51%N => Some Decimal.D3
  | 52%N => Some Decimal.D4 | 53%N => Some Decimal.D5
  | 54%N => Some Decimal.D6 | 55%N => Some Decimal.D7
  | 56%N => Some Decimal.D8 | 57%N => Some Decimal.D9
  | _ => None
  end.

(** The longest run of digits at the front of [s]. *)
Fixpoint read_digits (s : str) : Decimal.uint * str :=
  match s with
  | [] => (Decimal.Nil, [])
  | c :: s' =>
      match digit_value c with
      | Some d => let '(u, rest) := read_digits s' in (d u, rest)
      | None => (Decimal.Nil, s)
      end
  end.

Definition read_int (s : str) : option (Z * str) :=
  match s with
  | [] => None
  | c :: s' =>
      if ascii_eqb c (ascii_of_N 45) then
        match read_digits s' with
        | (Decimal.Nil, _) => None
        | (u, rest) => Some (Z.of_int (Decimal.Neg u), rest)
        end
      else
        match read_digits s with
        | (Decimal.Nil, _) => None
        | (u, rest) => Some (Z.of_int (Decimal.Pos u), rest)
        end
  end.

(** The items of a list after its opening bracket, up to the closing one;
    [read] reads one value and [n] bounds the number of items. *)
Fixpoint read_items (read : str -> option (json * str)) (n : nat) (s : str)
    : option (list json * str) :=
  match n with
  | O => None
  | S n' =>
      match read s with
      | Some (v, rest) =>
          match skip_ws rest with
          | c :: s' =>
              if ascii_eqb c (ascii_of_N 44) then
                match read_items read n' s' with
                | Some (vs, rest') => Some (v :: vs, rest')
                | None => None
                end
              else if ascii_eqb c (ascii_of_N 93) then Some ([v], s')
              else None
          | [] => None
          end
      | None => None
      end
  end.

(** The members of a dictionary after its opening brace. *)
Fixpoint read_members (read : str -> option (json * str)) (n : nat) (s : str)
    : option (list (str * json) * str) :=
  match n with
  | O => None
  | S n' =>
      match skip_ws s with
      | q :: s0 =>
          if ascii_eqb q QUOTE then
            match read_string s0 with
            | Some (key, rest0) =>
                match skip_ws rest0 with
                | c0 :: s1 =>
                    if ascii_eqb c0 (ascii_of_N 58) then
                      match read s1 with
                      | Some (v, rest) =>
                          match skip_ws rest with
                          | c :: s' =>
                              if ascii_eqb c (ascii_of_N 44) then
                                match read_members read n' s' with
                                | Some (kvs, rest') =>
                                    Some ((key, v) :: kvs, rest')
                                | None => None
                                end
                              else if ascii_eqb c (ascii_of_N 125)
                              then Some ([(key, v)], s')
                              else None
                          | [] => None
                          end
                      | None => None
                      end
                    else None
                | [] => None
                end
            | None => None
            end
          else None
      | [] => None
      end
  end.

(** One value at the front of [s], and what follows it.  [fuel] bounds the
    nesting depth and the number of items of a list or dictionary. *)
Fixpoint read_value (fuel : nat) (s : str) : option (json * str) :=
  match fuel with
  | O => None
  | S fuel' =>
      match skip_ws s with
      | [] => None
      | c :: s' =>
          if ascii_eqb c QUOTE then
            match read_string s' with
            | Some (x, rest) => Some (JStr x, rest)
            | None => None
            end
          else if ascii_eqb c (ascii_of_N 110) then
            if startswith (py "ull") s' then Some (JNull, skipn 3 s')
            else None
          else if ascii_eqb c (ascii_of_N 91) then
            match skip_ws s' with
            | [] => None
            | c1 :: s1 =>
                if ascii_eqb c1 (ascii_of_N 93) then Some (JList [], s1)
                else
                  match read_items (read_value fuel') fuel' s' with
                  | Some (vs, rest) => Some (JList vs, rest)
                  | None => None
                  end
            end
          else if ascii_eqb c (ascii_of_N 123) then
            match skip_ws s' with
            | [] => None
            | c1 :: s1 =>
                if ascii_eqb c1 (ascii_of_N 125) then Some (JDict [], s1)
                else
                  match read_members (read_value fuel') fuel' s' with
                  | Some (kvs, rest) => Some (JDict kvs, rest)
                  | None => None
                  end
            end
          else
            match read_int (c :: s') with
            | Some (z, rest) => Some (JInt z, rest)
            | None => None
            end
      end
  end.

(** [json.loads(line)]: one value, and nothing but blanks after it. *)
Definition loads (line : str) : option json :=
  match read_value (S (length line)) line with
  | Some (v, rest) =>
      match skip_ws rest with
      | [] => Some v
      | _ :: _ => None
      end
  | None => None
  end.

(** [d.get(key)] on a dictionary: the last member of that key. *)
Fixpoint dict_get (key : str) (members : list (str * json)) : option json :=
  match members with
  | [] => None
  | (k, v) :: rest =>
      match dict_get key rest with
      | Some v' => Some v'
      | None => if str_eqb k key then Some v else None
      end
  end.

(** ** Generators and exceptions

    What a generator does when it is run to its end: it yields a value and
    goes on, it stops, or it raises an exception. *)

Inductive gen (A : Type) :=
| Stop
| Yield (a : A) (rest : gen A)
| Raise.

Arguments Stop {A}.
Arguments Yield {A} a rest.
Arguments Raise {A}.

(** The result of a call that may raise. *)
Inductive result (A : Type) :=
| Ok (a : A)
| Err.

Arguments Ok {A} a.
Arguments Err {A}.

(** ** app/core/extract_pdf.py *)

(** A page of a [PdfReader]: what [page.extract_text()] does, and what
    OCR of the page gives ([Ok None]: [convert_from_path] returned no
    image; [Ok (Some t)]: the text read from the first image). *)
Record PdfPage := mkPage {
  extract_text : result (option str);
  ocr_text_of : result (option str)
}.

(** The loop over [enumerate(reader.pages)]. *)
Fixpoint pdf_pages_from (ocr OCR_AVAILABLE : bool) (page_index : Z)
    (pages : gen PdfPage) : gen (Z * str) :=
  match pages with
  | Stop => Stop
  | Raise => Raise
  | Yield page rest =>
      let next := pdf_pages_from ocr OCR_AVAILABLE (page_index + 1) rest in
      let text :=
        match extract_text page with
        | Ok (Some t) => t
        | Ok None => []
        | Err => []
        end in
      if truthy (strip text) then Yield (page_index, text) next
      else if ocr && OCR_AVAILABLE then
        match ocr_text_of page with
        | Ok (Some ocr_text) =>
            if truthy (strip ocr_text) then Yield (page_index, ocr_text) next
            else next
        | Ok None => next
        | Err => next
        end
      else Yield (page_index, []) next
  end.

(** [reader] is what [PdfReader(str(path))] gives: it raises, or it has
    pages whose enumeration may raise on the way. *)
Definition extract_text_pages_from_pdf (reader : result (gen PdfPage))
    (ocr OCR_AVAILABLE : bool) : gen (Z * str) :=
  match reader with
  | Ok pages => pdf_pages_from ocr OCR_AVAILABLE 0 pages
  | Err => Raise
  end.

(** ** app/core/extract_excel.py *)

(** A row of a sheet: for each cell [None], or [str(value)] of its
    value. *)
Definition Row := list (option str).

(** A workbook: the sheets in the order of [wb.sheetnames], each with the
    rows [ws.iter_rows(values_only=True)] gives. *)
Definition Workbook := list (str * gen Row).

(** The [pieces] of a row; [idx] counts the cells from 1. *)
Fixpoint row_pieces (idx : Z) (row : Row) : list str :=
  match row with
  | [] => []
  | None :: rest => row_pieces (idx + 1) rest
  | Some value :: rest =>
      let value_str := strip value in
      if truthy value_str then
        (py "C" ++ str_of_int idx ++ py ":" ++ value_str)
          :: row_pieces (idx + 1) rest
      else row_pieces (idx + 1) rest
  end.

(** The rows of one sheet, then [later], the lines of the sheets after
    it. *)
Fixpoint sheet_lines (sheet_name : str) (rows : gen Row) (later : gen str)
    : gen str :=
  match rows with
  | Stop => later
  | Raise => Raise
  | Yield row rest =>
      let pieces := row_pieces 1 row in
      if truthy pieces then
        Yield (sheet_name ++ py " | " ++ join (py " | ") pieces)
              (sheet_lines sheet_name rest later)
      else sheet_lines sheet_name rest later
  end.

Fixpoint workbook_lines (sheets : Workbook) : gen str :=
  match sheets with
  | [] => Stop
  | (sheet_name, rows) :: rest =>
      sheet_lines sheet_name rows (workbook_lines rest)
  end.

(** [wb] is what [load_workbook(filename=path, ...)] gives. *)
Definition extract_text_from_excel (wb : result Workbook) : gen str :=
  match wb with
  | Ok sheets => workbook_lines sheets
  | Err => Raise
  end.

(** ** app/core/io_utils.py *)

(** A [pathlib.Path]: [str(path)] and [path.suffix]. *)
Record Path := mkPath { path_str : str; suffix : str }.

(** An input file as the run finds it: its path, the identifier
    [uuid.uuid4()] draws for it, and what reading it gives to [open],
    to [PdfReader] and to [load_workbook]. *)
Record InputFile := mkInputFile {
  file_path : Path;
  uuid4 : str;
  file_bytes : result bytes;
  pdf_reader : result (gen PdfPage);
  workbook : result Workbook
}.

(** [c.lower()] on the code points below 256. *)
Definition lower_char (c : ascii) : ascii :=
  let n := code c in
  if in_range 65 90 n || in_range 192 214 n || in_range 216 222 n
  then ascii_of_N (n + 32) else c.

Definition lower (s : str) : str := map lower_char s.

Definition compute_file_sha256 (f : InputFile) : result str :=
  match file_bytes f with
  | Ok content => Ok (hexdigest (sha256 content))
  | Err => Err
  end.

(** The writer: its path and [_fh], the text written to the compressed
    stream so far. *)
Record CompressedJsonlWriter := mkWriter { path : Path; _fh : str }.

(** [__enter__]: the suffix [.gz] is added when it is not there, and the
    stream is opened empty.  This is the writer once [with_suffix] and
    [gzip.open] have returned; [enter_writer] below has the paths and the
    disks on which they raise. *)
Definition __enter__ (p : Path) : CompressedJsonlWriter :=
  if str_eqb (lower (suffix p)) (py ".gz") then mkWriter p []
  else mkWriter (mkPath (path_str p ++ py ".gz") (py ".gz")) [].

(** [CompressedJsonlWriter.write] *)
Definition write (obj : json) (self : CompressedJsonlWriter)
    : CompressedJsonlWriter :=
  let data := dumps obj in
  mkWriter (path self) (_fh self ++ data ++ [LF]).

(** ** app/cli.py *)

Record IngestConfig := mkConfig {
  inputs : list InputFile;
  output : Path;
  secret : str;
  ocr : bool;
  max_chars_per_chunk : Z
}.

Definition json_of_text (text : option str) : json :=
  match text with
  | Some t => JStr t
  | None => JNull
  end.

Definition json_of_entity (e : entity) : json :=
  JDict [ (py "type", JStr (e_type e));
          (py "start", JInt (e_start e));
          (py "end", JInt (e_end e)) ].

(** The dictionary both branches of [process_file] build. *)
Definition make_record (file_id source_path file_hash file_type : str)
    (page_number : json) (chunk_index : Z)
    (anonymized : option str * list entity) : json :=
  JDict [ (py "doc_id", JStr file_id);
          (py "source_path", JStr source_path);
          (py "file_sha256", JStr file_hash);
          (py "file_type", JStr file_type);
          (py "page_number", page_number);
          (py "chunk_index", JInt chunk_index);
          (py "text", json_of_text (fst anonymized));
          (py "entities", JList (map json_of_entity (snd anonymized))) ].

(** How a call ends. *)
Inductive outcome := Returned | Raised.

Section process_file.

Variable f : InputFile.
Variable cfg : IngestConfig.
Variable anonymizer : Anonymizer.
Variable file_hash : str.

Let file_id : str := uuid4 f.
Let source_path : str := path_str (file_path f).

(** [for chunk_index, chunk in enumerate(chunks)] of the PDF branch. *)
Fixpoint write_page_chunks (page_index chunk_index : Z) (chunks : list str)
    (writer : CompressedJsonlWriter) : CompressedJsonlWriter :=
  match chunks with
  | [] => writer
  | chunk :: rest =>
      let record :=
        make_record file_id source_path file_hash (py "pdf")
          (JInt (page_index + 1)) chunk_index
          (anonymize anonymizer (Some chunk)) in
      write_page_chunks page_index (chunk_index + 1) rest
        (write record writer)
  end.

(** [for page_index, page_text in extract_text_pages_from_pdf(...)];
    [None] when a call of [chunk_text] does not come to an end. *)
Fixpoint process_pages (pages : gen (Z * str))
    (writer : CompressedJsonlWriter)
    : option (CompressedJsonlWriter * outcome) :=
  match pages with
  | Stop => Some (writer, Returned)
  | Raise => Some (writer, Raised)
  | Yield (page_index, page_text) rest =>
      if truthy page_text then
        match chunk_text page_text (max_chars_per_chunk cfg) with
        | Some chunks =>
            process_pages rest
              (write_page_chunks page_index 0 chunks writer)
        | None => None
        end
      else process_pages rest writer
  end.

(** The record the Excel branch writes for [buffer]. *)
Definition write_buffer (buffer : list str) (chunk_counter : Z)
    (writer : CompressedJsonlWriter) : CompressedJsonlWriter :=
  let chunk := join [LF] buffer in
  write (make_record file_id source_path file_hash (py "excel")
           JNull chunk_counter (anonymize anonymizer (Some chunk)))
        writer.

(** [for line in text_stream] and the flush after it. *)
Fixpoint process_lines (text_stream : gen str) (buffer : list str)
    (current_len chunk_counter : Z) (writer : CompressedJsonlWriter)
    : CompressedJsonlWriter * outcome :=
  match text_stream with
  | Stop =>
      if truthy buffer
      then (write_buffer buffer chunk_counter writer, Returned)
      else (writer, Returned)
  | Raise => (writer, Raised)
  | Yield line rest =>
      let buffer := if truthy line then buffer ++ [line] else buffer in
      let current_len :=
        if truthy line then current_len + (len line + 1)
        else current_len in
      if current_len >=? max_chars_per_chunk cfg then
        process_lines rest [] 0 (chunk_counter + 1)
          (write_buffer buffer chunk_counter writer)
      else process_lines rest buffer current_len chunk_counter writer
  end.

End process_file.

Definition process_file (OCR_AVAILABLE : bool) (f : InputFile)
    (cfg : IngestConfig) (anonymizer : Anonymizer)
    (writer : CompressedJsonlWriter)
    : option (CompressedJsonlWriter * outcome) :=
  let ext := lower (suffix (file_path f)) in
  match compute_file_sha256 f with
  | Err => Some (writer, Raised)
  | Ok file_hash =>
      if str_eqb ext (py ".pdf") then
        process_pages f cfg anonymizer file_hash
          (extract_text_pages_from_pdf (pdf_reader f) (ocr cfg) OCR_AVAILABLE)
          writer
      else if str_eqb ext (py ".xlsx") || str_eqb ext (py ".xls")
              || str_eqb ext (py ".xlsm") then
        Some (process_lines f cfg anonymizer file_hash
                (extract_text_from_excel (workbook f)) [] 0 0 writer)
      else Some (writer, Returned)
  end.

(** [for file_path in cfg.inputs: try: process_file(...) except Exception:
    continue] *)
Fixpoint process_files (OCR_AVAILABLE : bool) (files : list InputFile)
    (cfg : IngestConfig) (anonymizer : Anonymizer)
    (writer : CompressedJsonlWriter) : option CompressedJsonlWriter :=
  match files with
  | [] => Some writer
  | f :: rest =>
      match process_file OCR_AVAILABLE f cfg anonymizer writer with
      | Some (writer', _) =>
          process_files OCR_AVAILABLE rest cfg anonymizer writer'
      | None => None
      end
  end.

(** How the command ends: [typer.Exit(code)], or the stream is written
    and closed. *)
Inductive run_result :=
| Exit (code : Z)
| Wrote (writer : CompressedJsonlWriter).

(** [a or b] on optional strings. *)
Definition or_else (a b : option str) : option str :=
  match a with
  | Some (_ :: _) => a
  | _ => b
  end.

(** The command [ingest]: [secret_opt] is the option [--secret],
    [ANONYMIZATION_SECRET] the environment variable, [inputs_list] the
    files [discover_input_files] finds under the [--input] paths, and the
    other arguments are the options of the same names.  [None] when the
    run does not come to an end.  This is the command on an output path
    whose directory can be made and whose stream can be opened and
    closed; [ingest_command] below has the command with these three
    steps, each of which can raise. *)
Definition ingest (OCR_AVAILABLE : bool) (inputs_list : list InputFile)
    (output_opt : Path) (secret_opt ANONYMIZATION_SECRET : option str)
    (ocr_opt : bool) (max_chars_opt : Z) : option run_result :=
  match or_else secret_opt ANONYMIZATION_SECRET with
  | None | Some [] => Some (Exit 2)
  | Some secret_value =>
      if truthy inputs_list then
        let cfg := mkConfig inputs_list output_opt secret_value ocr_opt
                     max_chars_opt in
        let anonymizer := mkAnonymizer (secret cfg) in
        match process_files OCR_AVAILABLE (inputs cfg) cfg anonymizer
                (__enter__ (output cfg)) with
        | Some writer => Some (Wrote writer)
        | None => None
        end
      else Some (Exit 2)
  end.

(** ** Predicates of the statements *)

(** The loop invariant of [chunk_text]: what was yielded is within the
    bound, the buffered paragraphs are not empty, and [current_len] is the
    length of the buffer once joined, within the bound too. *)
Definition chunker_ok (max_chars : Z) (st : chunker) : Prop :=
  Forall (fun c => len c <= max_chars) (yielded st)
  /\ Forall (fun p => truthy p = true) (current st)
  /\ current_len st = len (join [LF; LF] (current st))
  /\ current_len st <= max_chars.

(** Something was yielded or is waiting in the buffer. *)
Definition progress (st : chunker) : bool :=
  truthy (yielded st) || truthy (current st).

(** A character that is not a blank. *)
Definition nonblank (c : ascii) : bool := negb (isspace c).

(** A lowercase hexadecimal digit. *)
Definition is_lower_hex (c : ascii) : bool :=
  in_range 48 57 (code c) || in_range 97 102 (code c).

(** What follows a number is not a digit. *)
Definition no_digit_head (rest : str) : Prop :=
  match rest with
  | [] => True
  | c :: _ => digit_value c = None
  end.

(** The first character of a serialised value is none of the blanks and
    neither of the closing brackets. *)
Definition value_head (c : ascii) : bool :=
  negb (is_json_ws c) && negb (ascii_eqb c (ascii_of_N 93))
  && negb (ascii_eqb c (ascii_of_N 125)).

(** The lines of a text stream, without their line feeds. *)
Fixpoint lines_from (cur : str) (s : str) : list str :=
  match s with
  | [] => if truthy cur then [rev cur] else []
  | c :: s' =>
      if ascii_eqb c LF then rev cur :: lines_from [] s'
      else lines_from (c :: cur) s'
  end.

Definition lines_of (stream : str) : list str := lines_from [] stream.

Definition not_LF (c : ascii) : bool := negb (ascii_eqb c LF).

(** [read_value fuel] reads the value [v] back from its serialisation,
    whatever follows it. *)
Definition read_back (fuel : nat) (v : json) : Prop :=
  forall rest, no_digit_head rest ->
               read_value fuel (dumps v ++ rest) = Some (v, rest).

(** *** Records *)

(** Writing several records one after the other. *)
Definition write_all (records : list json) (writer : CompressedJsonlWriter)
    : CompressedJsonlWriter :=
  fold_left (fun w r => write r w) records writer.

(** The records of the chunks of one unit, numbered from [index]: each is
    the chunk run through [anonymize]. *)
Fixpoint records_of (f : InputFile) (anonymizer : Anonymizer)
    (file_hash file_type : str) (page_number : json) (index : Z)
    (chunks : list str) : list json :=
  match chunks with
  | [] => []
  | chunk :: rest =>
      make_record (uuid4 f) (path_str (file_path f)) file_hash file_type
        page_number index (anonymize anonymizer (Some chunk))
        :: records_of f anonymizer file_hash file_type page_number
             (index + 1) rest
  end.

(** The field [key] of a record read back from a line. *)
Definition field (key : string) (v : json) : option json :=
  match v with
  | JDict members => dict_get (py key) members
  | _ => None
  end.

(** The record has the field [key], and its value passes [check]. *)
Definition has (key : string) (check : json -> bool) (v : json) : bool :=
  match field key v with
  | Some x => check x
  | None => false
  end.

Definition is_str (v : json) : bool :=
  match v with JStr _ => true | _ => false end.

Definition is_int (v : json) : bool :=
  match v with JInt _ => true | _ => false end.

Definition is_int_or_null (v : json) : bool :=
  match v with JInt _ | JNull => true | _ => false end.

Definition is_index (v : json) : bool :=
  match v with JInt i => 0 <=? i | _ => false end.

(** 64 lowercase hexadecimal characters. *)
Definition is_sha256_hex (v : json) : bool :=
  match v with
  | JStr h => (length h =? 64)%nat && forallb is_lower_hex h
  | _ => false
  end.

Definition is_file_type (v : json) : bool :=
  match v with
  | JStr t => str_eqb t (py "pdf") || str_eqb t (py "excel")
  | _ => false
  end.

Definition is_entity (v : json) : bool :=
  has "type" is_str v && has "start" is_int v && has "end" is_int v.

Definition is_entity_list (v : json) : bool :=
  match v with JList es => forallb is_entity es | _ => false end.

(** The record schema, with [id_field] for the name of the field that
    holds the document identifier. *)
Definition record_schema (id_field : string) (v : json) : bool :=
  has id_field is_str v
  && has "source_path" is_str v
  && has "file_sha256" is_sha256_hex v
  && has "file_type" is_file_type v
  && has "page_number" is_int_or_null v
  && has "chunk_index" is_index v
  && has "text" is_str v
  && has "entities" is_entity_list v.

(** The text of the unit run through [anonymize] as a whole, then split:
    the order of the two steps as the specification words it. *)
Definition chunk_after_anonymize (anonymizer : Anonymizer) (max_chars : Z)
    (unit_text : str) : option (list str) :=
  match fst (anonymize anonymizer (Some unit_text)) with
  | Some redacted => chunk_text redacted max_chars
  | None => Some []
  end.

(** The text [write] appends for a list of records: a line each. *)
Definition records_text (records : list json) : str :=
  concat (map (fun r => dumps r ++ [LF]) records).

(** What a generator yields before it stops or raises. *)
Fixpoint yielded_before {A : Type} (g : gen A) : list A :=
  match g with
  | Yield a rest => a :: yielded_before rest
  | Stop | Raise => []
  end.

(** How the loop over a generator ends. *)
Fixpoint gen_outcome {A : Type} (g : gen A) : outcome :=
  match g with
  | Yield _ rest => gen_outcome rest
  | Stop => Returned
  | Raise => Raised
  end.

(** The records of one page: its text split by [chunk_text], then every
    chunk run through [anonymize]. *)
Definition page_records (f : InputFile) (cfg : IngestConfig)
    (anonymizer : Anonymizer) (file_hash : str) (page : Z * str)
    : list json :=
  let '(page_index, page_text) := page in
  if truthy page_text then
    match chunk_text page_text (max_chars_per_chunk cfg) with
    | Some chunks =>
        records_of f anonymizer file_hash (py "pdf") (JInt (page_index + 1))
          0 chunks
    | None => []
    end
  else [].

(** The running length the Excel branch keeps for its buffer: the length
    of every line plus one. *)
Definition running_length (buffer : list str) : Z :=
  fold_right (fun line acc => len line + 1 + acc) 0 buffer.

(** The field [key] of every record in a stream, as a reader of the
    stream finds it. *)
Definition stream_fields (key : string) (stream : str)
    : list (option json) :=
  map (fun line => match loads line with
                   | Some v => field key v
                   | None => None
                   end)
      (lines_of stream).

(** The stream a run has written. *)
Definition written (r : option run_result) : str :=
  match r with
  | Some (Wrote writer) => _fh writer
  | _ => []
  end.

(** *** Example inputs *)

(** A PDF of one page. *)
Definition one_page_pdf : InputFile :=
  mkInputFile (mkPath (py "report.pdf") (py ".pdf")) (py "id-1")
    (Ok (py "%PDF-1.7"))
    (Ok (Yield (mkPage (Ok (Some (py "My SSN is 123-45-6789"))) (Ok None))
           Stop))
    Err.

(** A workbook whose only sheet gives one row and then fails to read. *)
Definition broken_workbook : InputFile :=
  mkInputFile (mkPath (py "book.xlsx") (py ".xlsx")) (py "id-2")
    (Ok (py "PK"))
    Err
    (Ok [(py "S", Yield [Some (py "hello world")] Raise)]).

Definition example_output : Path := mkPath (py "out.jsonl") (py ".jsonl").

Definition example_config (max_chars : Z) : IngestConfig :=
  mkConfig [broken_workbook; one_page_pdf] example_output (py "k1") false
    max_chars.
From Stdlib Require Import Permutation Sorted.
From Stdlib Require QArith.


(** ** Further predicates *)

(** The characters of a list of strings that are not blanks, in order. *)
Definition nonblanks (parts : list str) : str :=
  concat (map (filter nonblank) parts).

(** What the chunker holds: the characters other than blanks of what it
    has yielded and of what it has buffered. *)
Definition held (st : chunker) : str :=
  nonblanks (yielded st) ++ nonblanks (current st).

(** A string that begins with a character other than a blank. *)
Definition nonblank_head (p : str) : Prop :=
  exists c t, p = c :: t /\ isspace c = false.

Definition not_CR (c : ascii) : bool := negb (ascii_eqb c CR).

(** What was yielded never is blank, and the buffered paragraphs begin
    with a character other than a blank. *)
Definition chunker_nonblank (st : chunker) : Prop :=
  Forall (fun c => existsb nonblank c = true) (yielded st)
  /\ Forall nonblank_head (current st).

(** Every character yielded or buffered passes [p]. *)
Definition chunker_all (p : ascii -> bool) (st : chunker) : Prop :=
  Forall (fun c => forallb p c = true) (yielded st)
  /\ Forall (fun c => forallb p c = true) (current st).

(** A string that ends with a character other than a blank. *)
Definition nonblank_last (p : str) : Prop :=
  exists t c, p = t ++ [c] /\ isspace c = false.

(** The least number of characters a match of [r] takes. *)
Fixpoint min_width (r : regex) : nat :=
  match r with
  | OneOf _ => 1
  | Cat r1 r2 => min_width r1 + min_width r2
  | Alt r1 r2 => Nat.min (min_width r1) (min_width r2)
  | Repeat r' lo _ _ => lo * min_width r'
  | WordBoundary => 0
  | EndOfString => 0
  end.

(** Spans that lie between [pos] and [limit], are not empty, come in
    ascending order and do not overlap. *)
Fixpoint spans_from (pos limit : Z) (spans : list (Z * Z)) : Prop :=
  match spans with
  | [] => True
  | (a, b) :: rest => pos <= a /\ a < b /\ b <= limit /\ spans_from b limit rest
  end.

(** The sorted list [replaced_segments] of [anonymize]. *)
Definition replaced_segments (self : Anonymizer) (text : str)
    : list (Z * Z * str) :=
  sort_by (fun seg => fst (fst seg)) true
    (map (fun e => (e_start e, e_end e,
                    _stable_token self (e_type e)
                      (slice text (e_start e) (e_end e))))
         (find_entities text)).

(** The text from [pos] on with every segment replaced by its token; the
    segments are in ascending order. *)
Fixpoint splice (text : str) (pos : Z) (segments : list (Z * Z * str)) : str :=
  match segments with
  | [] => slice text pos (len text)
  | (start, end_, token) :: rest =>
      slice text pos start ++ token ++ splice text end_ rest
  end.

(** The segments, in ascending order, lie between [pos] and [limit] and
    do not overlap. *)
Fixpoint disjoint_from (pos limit : Z) (segments : list (Z * Z * str)) : bool :=
  match segments with
  | [] => true
  | (start, end_, _) :: rest =>
      (pos <=? start) && (start <=? end_) && (end_ <=? limit)
      && disjoint_from end_ limit rest
  end.

(** [range(start, start + n)] *)
Fixpoint indices_from (start : Z) (n : nat) : list Z :=
  match n with
  | O => []
  | S n' => start :: indices_from (start + 1) n'
  end.

(** [page.extract_text() or ""], and the empty string when the call
    raises. *)
Definition page_text_of (page : PdfPage) : str :=
  match extract_text page with
  | Ok (Some t) => t
  | Ok None => []
  | Err => []
  end.

(** A cell of the row holds a value that is not blank. *)
Definition has_value (row : Row) : bool :=
  existsb (fun cell => match cell with
                       | Some value => existsb nonblank value
                       | None => false
                       end) row.

(** The rows read from a workbook, each with the name of its sheet, up
    to the end of the last sheet or to the first row that fails to
    read. *)
Fixpoint rows_read (sheets : Workbook) : list (str * Row) :=
  match sheets with
  | [] => []
  | (sheet_name, rows) :: rest =>
      map (pair sheet_name) (yielded_before rows)
      ++ match gen_outcome rows with
         | Returned => rows_read rest
         | Raised => []
         end
  end.

(** The line of a row. *)
Definition row_line (named_row : str * Row) : str :=
  fst named_row ++ py " | " ++ join (py " | ") (row_pieces 1 (snd named_row)).

(** The fields of a record that say where it comes from. *)
Definition provenance (r : json) : list (option json) :=
  [field "doc_id" r; field "source_path" r; field "file_sha256" r;
   field "file_type" r].

(** The extension is one of the Excel branch of [process_file]. *)
Definition is_excel_ext (ext : str) : bool :=
  str_eqb ext (py ".xlsx") || str_eqb ext (py ".xls")
  || str_eqb ext (py ".xlsm").


(** ** app/core/io_utils.py: the discovery of the input files *)

Definition SUPPORTED_EXTS : list str :=
  [py ".pdf"; py ".xlsx"; py ".xls"; py ".xlsm"].

(** [x in s] on a set of strings. *)
Definition str_in (x : str) (s : list str) : bool := existsb (str_eqb x) s.

(** What [path.rglob("*")] finds below a path: files, and entries that
    are not files. *)
Inductive DirEntry :=
| FileEntry (f : InputFile)
| OtherEntry (p : Path).

(** A path given to [--input]: a file, or anything else with the entries
    [rglob] finds below it (none when the path does not exist). *)
Inductive InputPath :=
| IsFile (f : InputFile)
| NotFile (rglob : list DirEntry).

Section discover_input_files.

(** The order of [pathlib] on paths, [p < q]. *)
Variable path_ltb : Path -> Path -> bool.

(** [sorted(results)]: the sort is stable. *)
Fixpoint sorted_insert (x : InputFile) (l : list InputFile)
    : list InputFile :=
  match l with
  | [] => [x]
  | y :: l' =>
      if path_ltb (file_path y) (file_path x)
      then y :: sorted_insert x l'
      else x :: l
  end.

Definition sorted (l : list InputFile) : list InputFile :=
  fold_right sorted_insert [] l.

Definition supported (f : InputFile) : bool :=
  str_in (lower (suffix (file_path f))) SUPPORTED_EXTS.

Definition discover_input_files (path : InputPath) : list InputFile :=
  match path with
  | IsFile f => if supported f then [f] else []
  | NotFile rglob =>
      sorted
        (flat_map (fun p => match p with
                            | FileEntry f => if supported f then [f] else []
                            | OtherEntry _ => []
                            end) rglob)
  end.

(** [for p in input: inputs_list.extend(discover_input_files(Path(p)))]
    of [ingest]. *)
Definition discovered (input : list InputPath) : list InputFile :=
  flat_map discover_input_files input.

End discover_input_files.

(** The files below the paths given to [--input]. *)
Definition files_below (input : list InputPath) : list InputFile :=
  flat_map (fun path => match path with
                        | IsFile f => [f]
                        | NotFile rglob =>
                            flat_map (fun p => match p with
                                               | FileEntry f => [f]
                                               | OtherEntry _ => []
                                               end) rglob
                        end) input.

(** ** app/cli.py: the command and its output path *)

Definition SLASH : ascii := ascii_of_N 47.

(** What the command meets on disk for its output path: each of
    [out_path.parent.mkdir(parents=True, exist_ok=True)],
    [gzip.open(self.path, ...)] and the flush and close of [__exit__]
    returns or raises. *)
Record OutputDisk := mkOutputDisk {
  mkdir_parent : result unit;
  gzip_open : result unit;
  close_stream : result unit
}.

(** [path.name == ""]: the path is [.] or a root, [/] or [//]. *)
Definition empty_name (p : Path) : bool :=
  str_eqb (path_str p) (py ".")
  || forallb (fun c => ascii_eqb c SLASH) (path_str p).

(** [CompressedJsonlWriter(path).__enter__()] with what can go wrong in
    it: [with_suffix] raises [ValueError] on a path with an empty name,
    and [gzip.open] may raise. *)
Definition enter_writer (disk : OutputDisk) (p : Path)
    : result CompressedJsonlWriter :=
  if str_eqb (lower (suffix p)) (py ".gz") then
    match gzip_open disk with
    | Ok _ => Ok (mkWriter p [])
    | Err => Err
    end
  else if empty_name p then Err
  else
    match gzip_open disk with
    | Ok _ => Ok (mkWriter (mkPath (path_str p ++ py ".gz") (py ".gz")) [])
    | Err => Err
    end.

(** How the command ends: with an exception that nothing catches, or as
    [ingest] ends. *)
Inductive command_result :=
| Uncaught
| Ended (r : run_result).

(** The command [ingest] from its first line: the directory of the
    output path is made before the secret is looked at, the writer is
    entered after the input files are known, and the stream is flushed
    and closed when the loop over the files is over.  [None] when the
    run does not come to an end. *)
Definition ingest_command (disk : OutputDisk) (OCR_AVAILABLE : bool)
    (inputs_list : list InputFile) (output_opt : Path)
    (secret_opt ANONYMIZATION_SECRET : option str) (ocr_opt : bool)
    (max_chars_opt : Z) : option command_result :=
  match mkdir_parent disk with
  | Err => Some Uncaught
  | Ok _ =>
      match or_else secret_opt ANONYMIZATION_SECRET with
      | None | Some [] => Some (Ended (Exit 2))
      | Some secret_value =>
          if truthy inputs_list then
            let cfg := mkConfig inputs_list output_opt secret_value ocr_opt
                         max_chars_opt in
            let anonymizer := mkAnonymizer (secret cfg) in
            match enter_writer disk (output cfg) with
            | Err => Some Uncaught
            | Ok writer =>
                match process_files OCR_AVAILABLE (inputs cfg) cfg
                        anonymizer writer with
                | Some writer' =>
                    match close_stream disk with
                    | Ok _ => Some (Ended (Wrote writer'))
                    | Err => Some Uncaught
                    end
                | None => None
                end
            end
          else Some (Ended (Exit 2))
      end
  end.

(** ** ocr_compact/processing.py *)

(** A box, [(x, y, w, h)] or [(x1, y1, x2, y2)]. *)
Definition Box : Type := Z * Z * Z * Z.

(** [(x1, y1, x2, y2)] of a box [(x, y, w, h)], grown by [expand_px]. *)
Definition expand_box (expand_px : Z) (box : Box) : Box :=
  let '(x, y, w, h) := box in
  (Z.max 0 (x - expand_px), Z.max 0 (y - expand_px),
   x + w + expand_px, y + h + expand_px).

(** [key(a) < key(b)] for the key [(b[1], b[0])]. *)
Definition box_key_ltb (a b : Box) : bool :=
  let '(ax1, ay1, _, _) := a in
  let '(bx1, by1, _, _) := b in
  (ay1 <? by1) || ((ay1 =? by1) && (ax1 <? bx1)).

(** [expanded.sort(key=lambda b: (b[1], b[0]))]: the sort is stable. *)
Fixpoint insert_box (x : Box) (l : list Box) : list Box :=
  match l with
  | [] => [x]
  | y :: l' =>
      if box_key_ltb y x then y :: insert_box x l' else x :: l
  end.

Definition sort_boxes (l : list Box) : list Box := fold_right insert_box [] l.

(** One turn of the loop over [expanded]: [box] is merged into the last
    item of [merged] when they overlap or touch, and appended
    otherwise. *)
Fixpoint merge_box (merged : list Box) (box : Box) : list Box :=
  match merged with
  | [] => [box]
  | [last_box] =>
      let '(mx1, my1, mx2, my2) := last_box in
      let '(x1, y1, x2, y2) := box in
      if negb ((x1 >? mx2) || (x2 <? mx1) || (y1 >? my2) || (y2 <? my1))
      then [(Z.min mx1 x1, Z.min my1 y1, Z.max mx2 x2, Z.max my2 y2)]
      else [last_box; box]
  | first :: rest => first :: merge_box rest box
  end.

(** [(x, y, w, h)] of a box [(x1, y1, x2, y2)]. *)
Definition box_of_corners (box : Box) : Box :=
  let '(x1, y1, x2, y2) := box in
  (x1, y1, Z.max 1 (x2 - x1), Z.max 1 (y2 - y1)).

Definition merge_overlapping_boxes (boxes : list Box) (expand_px : Z)
    : list Box :=
  if truthy boxes then
    let expanded := sort_boxes (map (expand_box expand_px) boxes) in
    let merged := fold_left merge_box expanded [] in
    map box_of_corners merged
  else [].

(** The box [(x, y, w, h)] lies within the box [outer]. *)
Definition box_within (outer box : Box) : Prop :=
  let '(ox, oy, ow, oh) := outer in
  let '(x, y, w, h) := box in
  ox <= x /\ oy <= y /\ x + w <= ox + ow /\ y + h <= oy + oh.

(** The corners [(x1, y1, x2, y2)] of [outer] enclose those of [box]. *)
Definition corners_within (outer box : Box) : Prop :=
  let '(ox1, oy1, ox2, oy2) := outer in
  let '(x1, y1, x2, y2) := box in
  ox1 <= x1 /\ oy1 <= y1 /\ x2 <= ox2 /\ y2 <= oy2.

(** The top of a box. *)
Definition box_top (box : Box) : Z := snd (fst (fst box)).

(** An item of [merged] encloses the corners of [box]. *)
Definition covered (merged : list Box) (box : Box) : Prop :=
  exists m, In m merged /\ corners_within m box.

(** What [pytesseract.image_to_data] gives with [Output.DICT]: a
    dictionary of lists.  A field is [None] when the dictionary has no
    such key. *)
Record TesseractData := mkData {
  data_text : option (list (option str));
  data_conf : option (list QArith_base.Q);
  data_left : option (list Z);
  data_top : option (list Z);
  data_width : option (list Z);
  data_height : option (list Z)
}.

Record WordBox := mkWordBox {
  wb_text : str;
  confidence : QArith_base.Q;
  bbox : Box
}.

(** [float(data.get("conf", ["-1"][i]))].  The default [["-1"][i]] is
    computed before the call of [get]: it is ["-1"] for [i = 0] and raises
    [IndexError] for every other [i].  For [i = 0] the call gives the
    list under the key [conf] when there is one, and [float] of a list
    raises [TypeError]; it gives ["-1"] when there is none. *)
Definition float_conf (data : TesseractData) (i : nat) : result QArith_base.Q :=
  match i with
  | O =>
      match data_conf data with
      | Some _ => Err
      | None => Ok (QArith_base.inject_Z (-1))
      end
  | S _ => Err
  end.

(** [data.get(key, [0])[i]] *)
Definition get_item (field : option (list Z)) (i : nat) : result Z :=
  match nth_error (match field with Some l => l | None => [0] end) i with
  | Some v => Ok v
  | None => Err
  end.

(** The turns [i, i + 1, ...] of the loop of [extract_words]; [texts] is
    what is left of [data["text"]]. *)
Fixpoint words_from (data : TesseractData) (i : nat)
    (texts : list (option str)) : result (list WordBox) :=
  match texts with
  | [] => Ok []
  | t :: rest =>
      let text := strip (match t with Some s => s | None => [] end) in
      let conf_raw :=
        match float_conf data i with
        | Ok c => c
        | Err => QArith_base.inject_Z (-1)
        end in
      if negb (truthy text) && negb (QArith_base.Qle_bool (QArith_base.inject_Z 0) conf_raw) then
        words_from data (S i) rest
      else
        match get_item (data_left data) i, get_item (data_top data) i,
              get_item (data_width data) i, get_item (data_height data) i
        with
        | Ok x, Ok y, Ok w, Ok h =>
            match words_from data (S i) rest with
            | Ok words => Ok (mkWordBox text conf_raw (x, y, w, h) :: words)
            | Err => Err
            end
        | _, _, _, _ => Err
        end
  end.

Definition extract_words (data : TesseractData) : result (list WordBox) :=
  words_from data 0 (match data_text data with Some l => l | None => [] end).

(** [[wb.bbox for wb in words if wb.confidence >= 0 and wb.confidence <
    conf_threshold]] of [ocr_pdf_to_compact]. *)
Definition low_conf_boxes (words : list WordBox) (conf_threshold : Z)
    : list Box :=
  map bbox
    (filter (fun wb => QArith_base.Qle_bool (QArith_base.inject_Z 0) (confidence wb)
                       && negb (QArith_base.Qle_bool (QArith_base.inject_Z conf_threshold)
                                  (confidence wb)))
       words).

(** * Properties *)

(** ** Strings *)

Lemma len_nonneg {A : Type} (l : list A) : 0 <= len l.
Proof. unfold len. lia. Qed.

Lemma len_app {A : Type} (l1 l2 : list A) : len (l1 ++ l2) = len l1 + len l2.
Proof. unfold len. rewrite length_app. lia. Qed.

Lemma len_cons {A : Type} (a : A) (l : list A) : len (a :: l) = 1 + len l.
Proof. unfold len. simpl length. lia. Qed.

Lemma truthy_true {A : Type} (l : list A) : truthy l = true <-> l <> [].
Proof. destruct l; simpl; split; congruence. Qed.

Lemma truthy_false {A : Type} (l : list A) : truthy l = false <-> l = [].
Proof. destruct l; simpl; split; congruence. Qed.

Lemma truthy_len {A : Type} (l : list A) : truthy l = true -> 1 <= len l.
Proof. destruct l; simpl; [congruence|]. rewrite len_cons. pose proof (len_nonneg l). lia. Qed.

(** [lstrip] removes a prefix of blanks. *)
Lemma lstrip_suffix (s : str) :
  exists ws, s = ws ++ lstrip s /\ forallb isspace ws = true.
Proof.
  induction s as [|c s IH]; simpl.
  - exists []. auto.
  - destruct (isspace c) eqn:Hc.
    + destruct IH as [ws [E F]]. exists (c :: ws). simpl. rewrite Hc, F.
      split; [congruence | reflexivity].
    + exists []. auto.
Qed.

Lemma rstrip_prefix (s : str) :
  exists ws, s = rstrip s ++ ws /\ forallb isspace ws = true.
Proof.
  unfold rstrip. destruct (lstrip_suffix (rev s)) as [ws [E F]].
  exists (rev ws). split.
  - rewrite <- rev_app_distr, <- E, rev_involutive. reflexivity.
  - rewrite forallb_forall in *. intros x Hx. apply F. now apply in_rev.
Qed.

Lemma strip_decompose (s : str) :
  exists l r, s = l ++ strip s ++ r
              /\ forallb isspace l = true /\ forallb isspace r = true.
Proof.
  unfold strip. destruct (lstrip_suffix s) as [l [El Fl]].
  destruct (rstrip_prefix (lstrip s)) as [r [Er Fr]].
  exists l, r. repeat split; auto. rewrite <- Er. exact El.
Qed.

Lemma strip_length (s : str) : (length (strip s) <= length s)%nat.
Proof.
  destruct (strip_decompose s) as [l [r [E _]]].
  rewrite E at 2. rewrite !length_app. lia.
Qed.

Lemma strip_len (s : str) : len (strip s) <= len s.
Proof. unfold len. pose proof (strip_length s). lia. Qed.

Lemma lstrip_head (s : str) c s' : lstrip s = c :: s' -> isspace c = false.
Proof.
  induction s as [|a s IH]; simpl; [discriminate|].
  destruct (isspace a) eqn:Ha; auto. intros E. inversion E. subst. exact Ha.
Qed.

Lemma lstrip_app_nonspace (x : str) c :
  isspace c = false -> lstrip (x ++ [c]) <> [].
Proof.
  intros Hc. induction x as [|a x IH]; simpl.
  - rewrite Hc. discriminate.
  - destruct (isspace a); [exact IH | discriminate].
Qed.

(** A string that begins with a character other than a blank is not
    blank. *)
Lemma strip_truthy_head c (s : str) :
  isspace c = false -> truthy (strip (c :: s)) = true.
Proof.
  intros Hc. apply truthy_true. unfold strip. simpl lstrip. rewrite Hc.
  unfold rstrip. intros E.
  assert (R : rev (rev (lstrip (rev (c :: s)))) = rev []) by (f_equal; exact E).
  rewrite rev_involutive in R. simpl rev in R.
  revert R. destruct (rev s) as [|b t] eqn:Hr.
  - simpl. rewrite Hc. discriminate.
  - change ((b :: t) ++ [c]) with (b :: (t ++ [c])).
    simpl lstrip. destruct (isspace b); [|discriminate].
    apply lstrip_app_nonspace. exact Hc.
Qed.

(** The result of [strip], when it is not empty, begins with a character
    that is not a blank. *)
Lemma strip_head (s : str) c t : strip s = c :: t -> isspace c = false.
Proof.
  unfold strip. intros E.
  destruct (rstrip_prefix (lstrip s)) as [ws [Ew _]].
  rewrite E in Ew. simpl in Ew. eapply lstrip_head. exact Ew.
Qed.

(** ** Slices *)

Lemma slice_length_le {A : Type} (l : list A) (i j : Z) :
  0 <= i -> 0 <= j -> len (slice l i j) <= Z.max 0 (j - i).
Proof.
  intros Hi Hj. unfold slice, slice_index.
  destruct (i <? 0) eqn:Ei; [apply Z.ltb_lt in Ei; lia|].
  destruct (j <? 0) eqn:Ej; [apply Z.ltb_lt in Ej; lia|].
  unfold len at 1. rewrite length_firstn.
  pose proof (len_nonneg l). lia.
Qed.

(** Within the bounds a slice is [firstn] of [skipn]. *)
Lemma slice_inside {A : Type} (l : list A) (i j : Z) :
  0 <= i <= j -> j <= len l ->
  slice l i j = firstn (Z.to_nat (j - i)) (skipn (Z.to_nat i) l).
Proof.
  intros Hi Hj. unfold slice, slice_index.
  destruct (i <? 0) eqn:Ei; [apply Z.ltb_lt in Ei; lia|].
  destruct (j <? 0) eqn:Ej; [apply Z.ltb_lt in Ej; lia|].
  rewrite !Z.min_l by lia. reflexivity.
Qed.

Lemma slice_inside_len {A : Type} (l : list A) (i j : Z) :
  0 <= i <= j -> j <= len l -> len (slice l i j) = j - i.
Proof.
  intros Hi Hj. rewrite slice_inside by assumption. unfold len in *.
  rewrite length_firstn, length_skipn. lia.
Qed.

(** * Examples

    The model run on small inputs. *)

Example split_on_blank_lines :
  split [LF; LF] (py "a" ++ [LF; LF; LF] ++ py "b" ++ [LF; LF])
  = [py "a"; LF :: py "b"; []].
Proof. reflexivity. Qed.

Example strip_blanks : strip (py "  two words " ++ [LF]) = py "two words".
Proof. reflexivity. Qed.

Example slice_negative_end : slice (py "abcdef") 1 (-2) = py "bcd".
Proof. reflexivity. Qed.

(** Paragraphs are buffered while they fit, a long one is cut, and a
    blank piece of a cut paragraph is left out. *)
Example chunk_text_small :
  chunk_text (py "ab" ++ [LF; LF] ++ py "cd" ++ [LF; LF] ++ py "0123  6789ABC")
    6
  = Some [py "ab" ++ [LF; LF] ++ py "cd"; py "0123  "; py "6789AB"; py "C"].
Proof. reflexivity. Qed.

Example chunk_text_blank_piece :
  chunk_text (py "ab" ++ [LF; LF] ++ py "cd" ++ [LF; LF] ++ py "0123    4567X")
    4
  = Some [py "ab"; py "cd"; py "0123"; py "4567"; py "X"].
Proof. reflexivity. Qed.

(** Two paragraphs of 3000 and 2500 characters with [max_chars = 4000]:
    one chunk each. *)
Example chunk_text_two_paragraphs :
  chunk_text (repeat "a"%char 3000 ++ [LF; LF] ++ repeat "b"%char 2500) 4000
  = Some [repeat "a"%char 3000; repeat "b"%char 2500].
Proof. vm_compute. reflexivity. Qed.

(** With [max_chars = 0] the hard-split loop makes no progress. *)
Example chunk_text_zero_max : chunk_text_fuel 50 (py "abc") 0 = None.
Proof. reflexivity. Qed.

Example finditer_ssn :
  finditer SSN_re (py "My SSN is 123-45-6789") = [(10, 21)].
Proof. vm_compute. reflexivity. Qed.

Example finditer_phone :
  finditer PHONE_NUMBER_re (py "Contact me at a@b.com or 555-123-4567.")
  = [(25, 37)].
Proof. vm_compute. reflexivity. Qed.

Example sha256_abc :
  hexdigest (sha256 (py "abc"))
  = py "ba7816bf8f01cfea414140de5dae2223b00361a396177a9cb410ff61f20015ad".
Proof. vm_compute. reflexivity. Qed.

(** The scenario of the specification: two tokens, two entities in the
    order of their offsets. *)
Example anonymize_email_and_phone :
  anonymize (mkAnonymizer (py "k1"))
    (Some (py "Contact me at a@b.com or 555-123-4567."))
  = (Some (py "Contact me at <EMAIL_ADDRESS:62130e3b6e9153dc> or <PHONE_NUMBER:e6f1795163480f7d>."),
     [mkEntity (py "EMAIL_ADDRESS") 14 21; mkEntity (py "PHONE_NUMBER") 25 37]).
Proof. vm_compute. reflexivity. Qed.

Example dumps_list :
  dumps (JList [JNull; JInt (-3); JList []; JDict []]) = py "[null, -3, [], {}]".
Proof. reflexivity. Qed.

Example dumps_member :
  dumps (JDict [(py "text", JStr (py "a" ++ [LF] ++ py "b"))])
  = py "{" ++ [QUOTE] ++ py "text" ++ [QUOTE] ++ py ": "
    ++ [QUOTE] ++ py "a\nb" ++ [QUOTE] ++ py "}".
Proof. reflexivity. Qed.

(** ** The chunker *)

Lemma join_snoc (sep : str) (l : list str) (p : str) :
  join sep (l ++ [p])
  = match l with [] => p | _ :: _ => join sep l ++ sep ++ p end.
Proof.
  induction l as [|a l IH]; [reflexivity|].
  destruct l as [|b l'].
  - reflexivity.
  - change (join sep ((a :: b :: l') ++ [p]))
      with (a ++ sep ++ join sep ((b :: l') ++ [p])).
    rewrite IH.
    change (join sep (a :: b :: l')) with (a ++ sep ++ join sep (b :: l')).
    rewrite <- !app_assoc. reflexivity.
Qed.

Lemma join_len_head (sep : str) (a : str) (l : list str) :
  len a <= len (join sep (a :: l)).
Proof.
  destruct l as [|b l]; [simpl join; lia|].
  change (join sep (a :: b :: l)) with (a ++ sep ++ join sep (b :: l)).
  rewrite !len_app. pose proof (len_nonneg sep).
  pose proof (len_nonneg (join sep (b :: l))). lia.
Qed.

Lemma chunker_ok_len_pos max_chars st :
  chunker_ok max_chars st ->
  (current_len st >? 0) = truthy (current st).
Proof.
  intros (_ & Hne & Hlen & _). rewrite Hlen.
  destruct (current st) as [|a l]; [reflexivity|].
  inversion Hne; subst. apply truthy_len in H1.
  pose proof (join_len_head [LF; LF] a l). simpl truthy. lia.
Qed.

Lemma flush_ok max_chars st :
  0 <= max_chars -> chunker_ok max_chars st -> chunker_ok max_chars (flush st).
Proof.
  intros Hm (Hy & Hne & Hlen & Hle). unfold flush.
  destruct (truthy (current st)); [|repeat split; assumption].
  set (t := strip (join [LF; LF] (current st))).
  assert (Ht : len t <= max_chars)
    by (pose proof (strip_len (join [LF; LF] (current st))); subst t; lia).
  destruct (truthy t); repeat split; simpl; auto.
  apply Forall_app. split; auto.
Qed.

Lemma flush_current st : current (flush st) = [].
Proof.
  unfold flush. destruct (truthy (current st)) eqn:E.
  - reflexivity.
  - now apply truthy_false.
Qed.


Lemma hard_split_O para max_chars start st :
  hard_split O para max_chars start st
  = if start <? len para then None else Some st.
Proof. reflexivity. Qed.

Lemma hard_split_S fuel para max_chars start st :
  hard_split (S fuel) para max_chars start st
  = if start <? len para then
      let end_ := Z.min (start + max_chars) (len para) in
      let piece := slice para start end_ in
      hard_split fuel para max_chars end_
        (if truthy (strip piece) then
           yield piece (if truthy (current st) then flush st else st)
         else st)
    else Some st.
Proof. reflexivity. Qed.

(** One step of the hard-split loop keeps the invariant. *)
Lemma hard_split_step_ok max_chars para start st :
  1 <= max_chars -> 0 <= start -> chunker_ok max_chars st ->
  let end_ := Z.min (start + max_chars) (len para) in
  let piece := slice para start end_ in
  chunker_ok max_chars
    (if truthy (strip piece) then
       yield piece (if truthy (current st) then flush st else st)
     else st).
Proof.
  intros Hm Hs Hok end_ piece.
  destruct (truthy (strip piece)); [|exact Hok].
  assert (Hp : len piece <= max_chars).
  { pose proof (slice_length_le para start end_ Hs) as L.
    pose proof (len_nonneg para). subst end_ piece.
    assert (0 <= Z.min (start + max_chars) (len para)) by lia.
    specialize (L H0). lia. }
  assert (Hok' : chunker_ok max_chars
                   (if truthy (current st) then flush st else st)).
  { destruct (truthy (current st)); [apply flush_ok; [lia|]|]; exact Hok. }
  destruct Hok' as (Hy & Hne & Hlen & Hle).
  repeat split; simpl; auto. apply Forall_app. split; auto.
Qed.

(** With [max_chars >= 1] the hard-split loop ends: every iteration moves
    [start] forward, so [len(para) - start + 1] iterations are enough, and
    the invariant holds at the end. *)
Lemma hard_split_ok max_chars para :
  1 <= max_chars ->
  forall fuel start st,
    0 <= start -> (Z.to_nat (len para - start) < fuel)%nat ->
    chunker_ok max_chars st ->
    exists st', hard_split fuel para max_chars start st = Some st'
                /\ chunker_ok max_chars st'.
Proof.
  intros Hm. induction fuel as [|fuel IH]; intros start st Hs Hf Hok.
  - lia.
  - rewrite hard_split_S. destruct (start <? len para) eqn:E.
    + apply Z.ltb_lt in E. cbv zeta. apply IH.
      * lia.
      * lia.
      * apply hard_split_step_ok; assumption.
    + exists st. auto.
Qed.

Lemma chunk_para_ok max_chars fuel para st :
  1 <= max_chars -> (length para < fuel)%nat -> truthy para = true ->
  chunker_ok max_chars st ->
  exists st', chunk_para fuel max_chars para st = Some st'
              /\ chunker_ok max_chars st'.
Proof.
  intros Hm Hf Hp Hok. unfold chunk_para.
  destruct (len para >? max_chars) eqn:E.
  - apply hard_split_ok; auto; unfold len; lia.
  - eexists. split; [reflexivity|].
    assert (Hlp : len para <= max_chars) by lia.
    set (full := current_len st + len para
                 + (if truthy (current st) then 2 else 0) >? max_chars).
    set (st1 := if full then flush st else st).
    assert (Hok1 : chunker_ok max_chars st1).
    { subst st1. destruct full; [apply flush_ok; [lia|]|]; exact Hok. }
    assert (Hfit : truthy (current st1) = true ->
                   current_len st1 + len para + 2 <= max_chars).
    { subst st1. destruct full eqn:G.
      - rewrite flush_current. discriminate.
      - intros T. subst full. rewrite T in G. lia. }
    pose proof (chunker_ok_len_pos _ _ Hok1) as Hpos.
    destruct Hok1 as (Hy & Hne & Hlen & Hle).
    assert (Hnew : current_len st1 + len para
                   + (if current_len st1 >? 0 then 2 else 0)
                   = len (join [LF; LF] (current st1 ++ [para]))).
    { rewrite join_snoc, Hpos. destruct (current st1) as [|a l] eqn:Ec.
      - cbn [truthy]. simpl join in Hlen. unfold len in Hlen at 1.
        simpl in Hlen. lia.
      - cbn [truthy]. rewrite !len_app, Hlen.
        change (len [LF; LF]) with 2. lia. }
    repeat split; simpl.
    + exact Hy.
    + apply Forall_app. split; auto.
    + exact Hnew.
    + rewrite Hpos. destruct (truthy (current st1)) eqn:T.
      * specialize (Hfit eq_refl). lia.
      * apply truthy_false in T. rewrite T in Hlen. simpl in Hlen.
        unfold len in Hlen at 1. simpl in Hlen. lia.
Qed.

Lemma chunk_paras_ok max_chars fuel paragraphs :
  1 <= max_chars ->
  Forall (fun p => (length p < fuel)%nat /\ truthy p = true) paragraphs ->
  forall st, chunker_ok max_chars st ->
  exists st', chunk_paras fuel max_chars paragraphs st = Some st'
              /\ chunker_ok max_chars st'.
Proof.
  intros Hm Hall. induction Hall as [|p ps [Hf Hp] _ IH]; intros st Hok.
  - exists st. auto.
  - simpl. destruct (chunk_para_ok max_chars fuel p st Hm Hf Hp Hok)
      as (st1 & E1 & Hok1).
    rewrite E1. apply IH. exact Hok1.
Qed.

Lemma ascii_eqb_eq a b : ascii_eqb a b = true <-> a = b.
Proof. unfold ascii_eqb. apply Ascii.eqb_eq. Qed.

Lemma startswith_split (p s : str) :
  startswith p s = true -> s = p ++ skipn (length p) s.
Proof.
  revert s. induction p as [|a p IH]; intros s H; [reflexivity|].
  destruct s as [|b s]; [discriminate|]. simpl in H.
  apply andb_true_iff in H. destruct H as [Hab Hp].
  apply ascii_eqb_eq in Hab. subst b. simpl. f_equal. apply IH. exact Hp.
Qed.

Lemma replace_from_length (old new : str) :
  (length new <= length old)%nat ->
  forall fuel s, (length (replace_from fuel old new s) <= length s)%nat.
Proof.
  intros Hn. induction fuel as [|fuel IH]; intros s; simpl; [lia|].
  destruct s as [|c s]; [simpl; lia|].
  destruct (startswith old (c :: s)) eqn:E.
  - rewrite length_app. specialize (IH (skipn (length old) (c :: s))).
    rewrite length_skipn in IH.
    apply startswith_split in E.
    assert (length old <= length (c :: s))%nat.
    { rewrite E, length_app. lia. }
    lia.
  - simpl. specialize (IH s). lia.
Qed.

Lemma replace_length (old new s : str) :
  (length new <= length old)%nat -> (length (replace old new s) <= length s)%nat.
Proof. intros H. apply replace_from_length. exact H. Qed.

Lemma split_from_length (sep : str) :
  forall fuel cur s,
    Forall (fun p => (length p <= length cur + length s)%nat)
           (split_from fuel sep cur s).
Proof.
  induction fuel as [|fuel IH]; intros cur s; simpl.
  - constructor; [rewrite length_rev; lia | constructor].
  - destruct s as [|c s].
    + constructor; [rewrite length_rev; lia | constructor].
    + destruct (startswith sep (c :: s)).
      * constructor; [rewrite length_rev; lia|].
        eapply Forall_impl; [|apply IH]. cbv beta. intros p Hp.
        rewrite length_skipn in Hp. simpl length in *. lia.
      * eapply Forall_impl; [|apply IH]. cbv beta. intros p Hp.
        simpl length in *. lia.
Qed.

(** The paragraphs are not empty and no longer than the text. *)
Lemma paragraphs_of_spec (text : str) :
  Forall (fun p => (length p <= length text)%nat /\ truthy p = true)
         (paragraphs_of text).
Proof.
  unfold paragraphs_of. apply Forall_forall. intros p Hp.
  apply in_map_iff in Hp. destruct Hp as (q & Eq & Hq).
  apply filter_In in Hq. destruct Hq as [Hq Ht]. subst p. split; [|exact Ht].
  pose proof (split_from_length [LF; LF]
                (length (replace [CR] [LF] (replace [CR; LF] [LF] text))) []
                (replace [CR] [LF] (replace [CR; LF] [LF] text))) as L.
  rewrite Forall_forall in L. specialize (L q Hq). simpl in L.
  pose proof (strip_length q).
  pose proof (replace_length [CR] [LF] (replace [CR; LF] [LF] text)).
  pose proof (replace_length [CR; LF] [LF] text).
  simpl in *. lia.
Qed.

(** With enough fuel for the longest paragraph, [chunk_text] returns, and
    all its chunks are within the bound. *)
Lemma chunk_text_fuel_ok (fuel : nat) (text : str) (max_chars : Z) :
  1 <= max_chars -> (length text < fuel)%nat ->
  exists chunks, chunk_text_fuel fuel text max_chars = Some chunks
                 /\ Forall (fun chunk => len chunk <= max_chars) chunks.
Proof.
  intros Hm Hf. unfold chunk_text_fuel.
  destruct (truthy text); [|exists []; auto].
  destruct (chunk_paras_ok max_chars fuel (paragraphs_of text) Hm)
    with (st := mkChunker [] 0 []) as (st & E & Hok).
  - eapply Forall_impl; [|apply paragraphs_of_spec]. cbv beta.
    intros p [Hl Ht]. split; [lia | exact Ht].
  - repeat split; simpl; auto. lia.
  - rewrite E. eexists. split; [reflexivity|].
    destruct Hok as (Hy & Hne & Hlen & Hle).
    destruct (truthy (current st)); [|exact Hy].
    apply Forall_app. split; [exact Hy|]. constructor; [|constructor].
    pose proof (strip_len (join [LF; LF] (current st))). lia.
Qed.

(** More fuel does not change what a loop that ended has done. *)
Lemma hard_split_more_fuel para max_chars :
  forall fuel start st st',
    hard_split fuel para max_chars start st = Some st' ->
    forall fuel', (fuel <= fuel')%nat ->
                  hard_split fuel' para max_chars start st = Some st'.
Proof.
  induction fuel as [|fuel IH]; intros start st st' H fuel' Hf.
  - rewrite hard_split_O in H. destruct (start <? len para) eqn:E;
      [discriminate|].
    destruct fuel'; [rewrite hard_split_O | rewrite hard_split_S];
      rewrite E; exact H.
  - destruct fuel' as [|fuel']; [lia|]. rewrite hard_split_S in *.
    destruct (start <? len para); [|exact H].
    cbv zeta in *. eapply IH; [exact H | lia].
Qed.

Lemma chunk_paras_more_fuel max_chars fuel fuel' :
  (fuel <= fuel')%nat ->
  forall paragraphs st st',
    chunk_paras fuel max_chars paragraphs st = Some st' ->
    chunk_paras fuel' max_chars paragraphs st = Some st'.
Proof.
  intros Hf. induction paragraphs as [|p ps IH]; intros st st' H;
    [exact H|].
  cbn [chunk_paras] in *.
  destruct (chunk_para fuel max_chars p st) as [st1|] eqn:E; [|discriminate].
  assert (E' : chunk_para fuel' max_chars p st = Some st1).
  { unfold chunk_para in *. destruct (len p >? max_chars); [|exact E].
    eapply hard_split_more_fuel; [exact E | exact Hf]. }
  rewrite E'. apply IH. exact H.
Qed.

(** The chunks do not depend on the fuel, once there is enough of it. *)
Lemma chunk_text_fuel_more (fuel fuel' : nat) (text : str) (max_chars : Z)
    (chunks : list str) :
  (fuel <= fuel')%nat ->
  chunk_text_fuel fuel text max_chars = Some chunks ->
  chunk_text_fuel fuel' text max_chars = Some chunks.
Proof.
  intros Hf. unfold chunk_text_fuel. destruct (truthy text); [|auto].
  destruct (chunk_paras fuel _ _ _) as [st|] eqn:E; [|discriminate].
  rewrite (chunk_paras_more_fuel _ _ _ Hf _ _ _ E). auto.
Qed.

(** With [max_chars <= 0] the hard-split loop never moves forward: no
    fuel is enough. *)
Lemma hard_split_never_ends para max_chars :
  max_chars <= 0 ->
  forall fuel start st,
    start < len para -> hard_split fuel para max_chars start st = None.
Proof.
  intros Hm. induction fuel as [|fuel IH]; intros start st Hs.
  - rewrite hard_split_O. destruct (start <? len para) eqn:E; [reflexivity|lia].
  - rewrite hard_split_S. destruct (start <? len para) eqn:E; [|lia].
    cbv zeta. apply IH. lia.
Qed.

Lemma chunk_text_total (text : str) (max_chars : Z) :
  1 <= max_chars -> exists chunks, chunk_text text max_chars = Some chunks.
Proof.
  intros Hm. unfold chunk_text.
  destruct (chunk_text_fuel_ok (S (length text)) text max_chars Hm
              (Nat.lt_succ_diag_r _)) as (chunks & E & _).
  eauto.
Qed.

(** C3: for every text and every [max_chars >= 1], [chunk_text] returns
    and every chunk it yields has at most [max_chars] characters, the
    pieces of a hard-split paragraph included. *)
Theorem chunk_text_within_max_chars (text : str) (max_chars : Z) :
  1 <= max_chars ->
  exists chunks, chunk_text text max_chars = Some chunks
                 /\ Forall (fun chunk => len chunk <= max_chars) chunks.
Proof.
  intros Hm. unfold chunk_text. apply chunk_text_fuel_ok; [exact Hm | lia].
Qed.

Lemma chunk_text_within_max_chars_witness :
  exists chunks,
    chunk_text (py "alpha beta" ++ [LF; LF] ++ py "gamma delta epsilon") 8
    = Some chunks
    /\ Forall (fun chunk => len chunk <= 8) chunks.
Proof. apply chunk_text_within_max_chars. lia. Defined.

(** *** At least one chunk *)

Lemma filter_nonblank_blanks (ws : str) :
  forallb isspace ws = true -> filter nonblank ws = [].
Proof.
  induction ws as [|c ws IH]; simpl; [reflexivity|].
  intros H. apply andb_true_iff in H. destruct H as [Hc Hws].
  unfold nonblank at 1. rewrite Hc. simpl. auto.
Qed.

Lemma filter_nonblank_strip (s : str) :
  filter nonblank (strip s) = filter nonblank s.
Proof.
  destruct (strip_decompose s) as (l & r & E & Hl & Hr).
  rewrite E at 2. rewrite !filter_app.
  rewrite (filter_nonblank_blanks l Hl), (filter_nonblank_blanks r Hr).
  rewrite app_nil_r. reflexivity.
Qed.

(** Replacing blanks by blanks keeps the other characters. *)
Lemma filter_nonblank_replace (old new : str) :
  forallb isspace old = true -> forallb isspace new = true ->
  forall fuel s,
    filter nonblank (replace_from fuel old new s) = filter nonblank s.
Proof.
  intros Ho Hn. induction fuel as [|fuel IH]; intros s; simpl; [reflexivity|].
  destruct s as [|c s]; [reflexivity|].
  destruct (startswith old (c :: s)) eqn:E.
  - rewrite filter_app, IH, (filter_nonblank_blanks new Hn).
    apply startswith_split in E. rewrite E at 2.
    rewrite filter_app, (filter_nonblank_blanks old Ho). reflexivity.
  - simpl. rewrite IH. reflexivity.
Qed.

(** Splitting on blanks keeps the other characters, in the parts. *)
Lemma filter_nonblank_split (sep : str) :
  sep <> [] -> forallb isspace sep = true ->
  forall fuel cur s,
    (length s <= fuel)%nat ->
    concat (map (filter nonblank) (split_from fuel sep cur s))
    = filter nonblank (rev cur ++ s).
Proof.
  intros Hne Hs. induction fuel as [|fuel IH]; intros cur s Hf.
  - destruct s; [|simpl in Hf; lia]. simpl. rewrite !app_nil_r. reflexivity.
  - simpl. destruct s as [|c s].
    + simpl. rewrite !app_nil_r. reflexivity.
    + destruct (startswith sep (c :: s)) eqn:E.
      * simpl. rewrite IH.
        2:{ rewrite length_skipn. simpl in Hf. destruct sep; [congruence|].
            simpl length. lia. }
        simpl rev. rewrite app_nil_l. apply startswith_split in E.
        rewrite E at 2. rewrite !filter_app.
        rewrite (filter_nonblank_blanks sep Hs). reflexivity.
      * rewrite IH by (simpl in Hf; lia). simpl rev.
        rewrite <- app_assoc. reflexivity.
Qed.

Lemma concat_nonempty {A : Type} (ls : list (list A)) :
  concat ls <> [] -> exists l, In l ls /\ l <> [].
Proof.
  induction ls as [|a ls IH]; simpl; [congruence|].
  destruct a as [|x a].
  - intros H. destruct (IH H) as (l & Hin & Hl). exists l. auto.
  - intros _. exists (x :: a). split; [auto | discriminate].
Qed.

(** A text with a character that is not a blank has a paragraph. *)
Lemma paragraphs_of_nonempty (text : str) :
  existsb nonblank text = true -> paragraphs_of text <> [].
Proof.
  intros H. unfold paragraphs_of.
  set (t := replace [CR] [LF] (replace [CR; LF] [LF] text)).
  assert (Ht : filter nonblank t = filter nonblank text).
  { subst t. unfold replace.
    rewrite !filter_nonblank_replace by reflexivity. reflexivity. }
  assert (Hn : filter nonblank text <> []).
  { apply existsb_exists in H. destruct H as (c & Hin & Hc).
    intros E. assert (In c (filter nonblank text))
      by (apply filter_In; split; assumption).
    rewrite E in H. contradiction. }
  pose proof (filter_nonblank_split [LF; LF] ltac:(discriminate) eq_refl
                (length t) [] t (le_n _)) as S.
  simpl rev in S. rewrite app_nil_l, Ht in S. rewrite <- S in Hn.
  apply concat_nonempty in Hn. destruct Hn as (l & Hin & Hl).
  apply in_map_iff in Hin. destruct Hin as (p & Ep & Hp). subst l.
  assert (In (strip p)
            (map strip (filter (fun p => truthy (strip p)) (split [LF; LF] t)))).
  { apply in_map. apply filter_In. split; [exact Hp|].
    apply truthy_true. intros E. apply Hl.
    rewrite <- filter_nonblank_strip, E. reflexivity. }
  intros E. rewrite E in H0. contradiction.
Qed.

(** Every paragraph begins with a character that is not a blank. *)
Lemma paragraphs_of_head (text : str) :
  Forall (fun p => exists c t, p = c :: t /\ isspace c = false)
         (paragraphs_of text).
Proof.
  apply Forall_forall. intros p Hp. unfold paragraphs_of in Hp.
  apply in_map_iff in Hp. destruct Hp as (q & Eq & Hq).
  apply filter_In in Hq. destruct Hq as [_ Ht]. subst p.
  destruct (strip q) as [|c t] eqn:E; [discriminate|].
  exists c, t. split; [reflexivity|]. eapply strip_head. exact E.
Qed.

Lemma hard_split_keeps_yielded para max_chars :
  forall fuel start st st',
    hard_split fuel para max_chars start st = Some st' ->
    truthy (yielded st) = true -> truthy (yielded st') = true.
Proof.
  induction fuel as [|fuel IH]; intros start st st' H Hy.
  - rewrite hard_split_O in H. destruct (start <? len para); [discriminate|].
    inversion H. subst. exact Hy.
  - rewrite hard_split_S in H. destruct (start <? len para).
    + cbv zeta in H. eapply IH; [exact H|].
      destruct (truthy (strip _)); [|exact Hy].
      simpl. apply truthy_true. intros E. apply app_eq_nil in E.
      destruct E; discriminate.
    + inversion H. subst. exact Hy.
Qed.

(** A paragraph that begins with a character other than a blank leaves
    something yielded or buffered. *)
Lemma chunk_para_progress fuel max_chars c t st st' :
  1 <= max_chars -> isspace c = false ->
  chunk_para fuel max_chars (c :: t) st = Some st' ->
  progress st' = true.
Proof.
  intros Hm Hc H. unfold chunk_para in H.
  destruct (len (c :: t) >? max_chars) eqn:E.
  - destruct fuel as [|fuel].
    + rewrite hard_split_O in H. rewrite len_cons in H.
      pose proof (len_nonneg t).
      destruct (0 <? 1 + len t) eqn:G; [discriminate | lia].
    + rewrite hard_split_S in H. rewrite len_cons in *.
      pose proof (len_nonneg t).
      destruct (0 <? 1 + len t) eqn:G; [|lia].
      cbv zeta in H. rewrite <- len_cons with (a := c) in H.
      assert (P : exists t', slice (c :: t) 0
                               (Z.min (0 + max_chars) (len (c :: t)))
                             = c :: t').
      { rewrite slice_inside by (rewrite len_cons; lia).
        rewrite Z.min_l by (rewrite len_cons; lia).
        replace (Z.to_nat (0 + max_chars - 0))
          with (S (Z.to_nat (max_chars - 1))) by lia.
        simpl. eexists. reflexivity. }
      destruct P as (t' & P). rewrite P in H.
      rewrite strip_truthy_head in H by exact Hc.
      apply hard_split_keeps_yielded in H.
      * unfold progress. rewrite H. reflexivity.
      * simpl. apply truthy_true. intros F. apply app_eq_nil in F.
        destruct F; discriminate.
  - inversion H. subst. unfold progress. simpl.
    replace (truthy (_ ++ [c :: t])) with true; [apply orb_true_r|].
    symmetry. apply truthy_true. intros F. apply app_eq_nil in F.
    destruct F; discriminate.
Qed.

Lemma chunk_paras_progress fuel max_chars paragraphs :
  1 <= max_chars -> paragraphs <> [] ->
  Forall (fun p => exists c t, p = c :: t /\ isspace c = false) paragraphs ->
  forall st st', chunk_paras fuel max_chars paragraphs st = Some st' ->
  progress st' = true.
Proof.
  intros Hm Hne Hall. induction Hall as [|p ps Hp Hps IH]; [congruence|].
  intros st st' H. simpl in H.
  destruct (chunk_para fuel max_chars p st) as [st1|] eqn:E1; [|discriminate].
  destruct ps as [|q ps].
  - simpl in H. inversion H. subst st'.
    destruct Hp as (c & t & Ep & Hc). subst p.
    eapply chunk_para_progress; eauto.
  - eapply IH; [discriminate | exact H].
Qed.

(** C4, as the code has it: for every text with a character that is not
    whitespace and every [max_chars >= 1], [chunk_text] yields at least
    one chunk. *)
Theorem chunk_text_yields_a_chunk (text : str) (max_chars : Z) :
  1 <= max_chars -> existsb nonblank text = true ->
  exists chunk chunks, chunk_text text max_chars = Some (chunk :: chunks).
Proof.
  intros Hm Hnb.
  destruct (chunk_text_fuel_ok (S (length text)) text max_chars Hm
              (Nat.lt_succ_diag_r _)) as (chunks & E & _).
  unfold chunk_text. rewrite E.
  destruct chunks as [|chunk chunks]; [|eauto].
  exfalso. unfold chunk_text_fuel in E.
  destruct (truthy text) eqn:T.
  - destruct (chunk_paras _ _ _ _) as [st|] eqn:P; [|discriminate].
    apply chunk_paras_progress in P.
    + unfold progress in P. destruct (truthy (current st)).
      * inversion E. apply app_eq_nil in H0. destruct H0; discriminate.
      * inversion E. rewrite H0 in P. discriminate.
    + exact Hm.
    + apply paragraphs_of_nonempty. exact Hnb.
    + apply paragraphs_of_head.
  - apply truthy_false in T. subst text. discriminate.
Qed.

Lemma chunk_text_yields_a_chunk_witness :
  exists chunk chunks,
    chunk_text (py "  one paragraph ") 4 = Some (chunk :: chunks).
Proof. apply chunk_text_yields_a_chunk; [lia | reflexivity]. Defined.

(** C4 as stated fails: a text of blanks only is not empty and has no
    chunk. *)
Lemma chunk_text_blank_text_no_chunk :
  truthy (py "   ") = true /\ 1 <= 4000
  /\ chunk_text (py "   ") 4000 = Some [].
Proof. repeat split. lia. Qed.

(** *** A single long paragraph *)

Lemma startswith_blank_head (o : ascii) (old : str) c (s : str) :
  isspace o = true -> nonblank c = true -> startswith (o :: old) (c :: s) = false.
Proof.
  intros Ho Hc. simpl. destruct (ascii_eqb o c) eqn:E; [|reflexivity].
  apply ascii_eqb_eq in E. subst c. unfold nonblank in Hc. rewrite Ho in Hc.
  discriminate.
Qed.

(** [replace] leaves a text alone that has no blank, when what it looks
    for begins with one. *)
Lemma replace_from_no_blank (o : ascii) (old new : str) :
  isspace o = true ->
  forall fuel s, forallb nonblank s = true ->
                 replace_from fuel (o :: old) new s = s.
Proof.
  intros Ho. induction fuel as [|fuel IH]; intros s Hs; [reflexivity|].
  destruct s as [|c s]; [reflexivity|].
  simpl in Hs. apply andb_true_iff in Hs. destruct Hs as [Hc Hs].
  cbn [replace_from]. rewrite startswith_blank_head by assumption.
  rewrite IH by exact Hs. reflexivity.
Qed.

Lemma split_from_no_blank (o : ascii) (sep : str) :
  isspace o = true ->
  forall fuel cur s, forallb nonblank s = true -> (length s <= fuel)%nat ->
                     split_from fuel (o :: sep) cur s = [rev cur ++ s].
Proof.
  intros Ho. induction fuel as [|fuel IH]; intros cur s Hs Hf.
  - destruct s; [|simpl in Hf; lia]. simpl. rewrite app_nil_r. reflexivity.
  - destruct s as [|c s]; [simpl; rewrite app_nil_r; reflexivity|].
    simpl in Hs. apply andb_true_iff in Hs. destruct Hs as [Hc Hs].
    cbn [split_from]. rewrite startswith_blank_head by assumption.
    rewrite IH; [|exact Hs | simpl in Hf; lia].
    simpl rev. rewrite <- app_assoc. reflexivity.
Qed.

Lemma lstrip_no_blank (s : str) : forallb nonblank s = true -> lstrip s = s.
Proof.
  destruct s as [|c s]; [reflexivity|]. simpl. intros H.
  apply andb_true_iff in H. destruct H as [Hc _]. unfold nonblank in Hc.
  destruct (isspace c); [discriminate | reflexivity].
Qed.

Lemma forallb_rev {A : Type} (p : A -> bool) (l : list A) :
  forallb p l = true -> forallb p (rev l) = true.
Proof.
  rewrite !forallb_forall. intros H x Hx. apply H. now apply in_rev.
Qed.

Lemma strip_no_blank (s : str) : forallb nonblank s = true -> strip s = s.
Proof.
  intros H. unfold strip, rstrip. rewrite (lstrip_no_blank s H).
  rewrite lstrip_no_blank by (apply forallb_rev; exact H).
  apply rev_involutive.
Qed.

Lemma forallb_slice {A : Type} (p : A -> bool) (l : list A) (i j : Z) :
  forallb p l = true -> forallb p (slice l i j) = true.
Proof.
  rewrite !forallb_forall. intros H x Hx. apply H. unfold slice in Hx.
  set (m := Z.to_nat (slice_index (len l) j - slice_index (len l) i)) in Hx.
  set (t := skipn (Z.to_nat (slice_index (len l) i)) l) in Hx.
  rewrite <- (firstn_skipn (Z.to_nat (slice_index (len l) i)) l).
  apply in_or_app. right. fold t.
  rewrite <- (firstn_skipn m t). apply in_or_app. left. exact Hx.
Qed.

Lemma paragraphs_of_no_blank (text : str) :
  text <> [] -> forallb nonblank text = true -> paragraphs_of text = [text].
Proof.
  intros Hne H. unfold paragraphs_of, replace, split.
  rewrite (replace_from_no_blank CR [LF] [LF] eq_refl _ text H).
  rewrite (replace_from_no_blank CR [] [LF] eq_refl _ text H).
  rewrite (split_from_no_blank LF [LF] eq_refl _ [] text H (le_n _)).
  simpl rev. rewrite app_nil_l. cbn [filter].
  rewrite (strip_no_blank text H).
  replace (truthy text) with true by (symmetry; apply truthy_true; exact Hne).
  cbn [map]. rewrite (strip_no_blank text H). reflexivity.
Qed.

(** A step of the hard-split loop on a paragraph without blanks, with an
    empty buffer: the piece is yielded as it is. *)
Lemma hard_split_step_no_blank fuel para max_chars start ys :
  forallb nonblank para = true ->
  0 <= start < len para -> 1 <= max_chars ->
  hard_split (S fuel) para max_chars start (mkChunker [] 0 ys)
  = hard_split fuel para max_chars (Z.min (start + max_chars) (len para))
      (mkChunker [] 0
         (ys ++ [slice para start (Z.min (start + max_chars) (len para))])).
Proof.
  intros Hp Hs Hm. rewrite hard_split_S.
  destruct (start <? len para) eqn:E; [|lia]. cbv zeta.
  set (piece := slice para start (Z.min (start + max_chars) (len para))).
  rewrite (strip_no_blank piece) by (apply forallb_slice; exact Hp).
  assert (L : len piece = Z.min (start + max_chars) (len para) - start)
    by (apply slice_inside_len; lia).
  destruct piece as [|c t] eqn:P.
  - unfold len in L at 1. simpl in L. lia.
  - reflexivity.
Qed.

(** C5: a text of 9000 characters none of which is whitespace, with
    [max_chars = 4000], gives exactly three chunks, of 4000, 4000 and 1000
    characters in this order, which are the text cut at 4000 and 8000. *)
Theorem chunk_text_single_paragraph_9000 (text : str) :
  len text = 9000 -> forallb nonblank text = true ->
  exists c1 c2 c3,
    chunk_text text 4000 = Some [c1; c2; c3]
    /\ len c1 = 4000 /\ len c2 = 4000 /\ len c3 = 1000
    /\ text = c1 ++ c2 ++ c3.
Proof.
  intros Hlen Hnb.
  assert (Hne : text <> []).
  { intros E. subst text. discriminate. }
  exists (slice text 0 4000), (slice text 4000 8000), (slice text 8000 9000).
  split.
  - unfold chunk_text, chunk_text_fuel.
    assert (T : truthy text = true) by (apply truthy_true; exact Hne).
    rewrite T, (paragraphs_of_no_blank text Hne Hnb).
    cbn [chunk_paras]. unfold chunk_para. rewrite Hlen.
    change (9000 >? 4000) with true. cbv iota.
    destruct (length text) as [|[|[|n]]] eqn:L;
      try (unfold len in Hlen; rewrite L in Hlen; simpl in Hlen; lia).
    rewrite !hard_split_step_no_blank by (try assumption; lia).
    rewrite Hlen.
    change (Z.min (0 + 4000) 9000) with 4000.
    change (Z.min (4000 + 4000) 9000) with 8000.
    change (Z.min (8000 + 4000) 9000) with 9000.
    rewrite hard_split_S, Hlen. reflexivity.
  - rewrite !slice_inside_len by lia. repeat split; try lia.
    rewrite !slice_inside by lia.
    change (Z.to_nat 0) with O. rewrite skipn_O.
    change (4000 - 0) with 4000. change (8000 - 4000) with 4000.
    change (9000 - 8000) with 1000.
    set (a := Z.to_nat 4000).
    assert (E8 : Z.to_nat 8000 = (a + a)%nat) by (subst a; lia).
    rewrite E8, <- skipn_skipn.
    rewrite (firstn_all2 (n := Z.to_nat 1000)).
    2:{ rewrite !length_skipn. unfold len in Hlen. subst a. lia. }
    rewrite !firstn_skipn. reflexivity.
Qed.

Lemma chunk_text_single_paragraph_9000_witness :
  exists c1 c2 c3,
    chunk_text (repeat "x"%char (Z.to_nat 9000)) 4000 = Some [c1; c2; c3]
    /\ len c1 = 4000 /\ len c2 = 4000 /\ len c3 = 1000
    /\ repeat "x"%char (Z.to_nat 9000) = c1 ++ c2 ++ c3.
Proof.
  apply chunk_text_single_paragraph_9000.
  - unfold len. rewrite repeat_length. lia.
  - apply forallb_forall. intros c Hc. apply repeat_spec in Hc. subst c.
    reflexivity.
Defined.

(** ** Digests and tokens *)

Lemma be_bytes_length (width : nat) (x : Z) : length (be_bytes width x) = width.
Proof. unfold be_bytes. rewrite length_map, length_rev, length_seq. reflexivity. Qed.

(** A SHA-256 digest has 32 bytes. *)
Lemma sha256_length (msg : bytes) : length (sha256 msg) = 32%nat.
Proof.
  unfold sha256. cbv zeta.
  set (st := sha_blocks _ _ _).
  cbn [flat_map]. rewrite !length_app, !be_bytes_length. reflexivity.
Qed.

Lemma hmac_sha256_length (key msg : bytes) :
  length (hmac_sha256 key msg) = 32%nat.
Proof. unfold hmac_sha256. apply sha256_length. Qed.

Lemma hexdigest_length (digest : bytes) :
  length (hexdigest digest) = (2 * length digest)%nat.
Proof.
  unfold hexdigest. induction digest as [|b d IH]; [reflexivity|].
  cbn [flat_map]. rewrite length_app, IH. simpl. lia.
Qed.

Lemma hex_digits_of_byte (b : ascii) :
  is_lower_hex (hex_digit (Z_of_byte b / 16)) = true
  /\ is_lower_hex (hex_digit (Z_of_byte b mod 16)) = true.
Proof.
  destruct b as [[] [] [] [] [] [] [] []]; split; vm_compute; reflexivity.
Qed.

Lemma hexdigest_lower_hex (digest : bytes) :
  forallb is_lower_hex (hexdigest digest) = true.
Proof.
  unfold hexdigest. induction digest as [|b d IH]; [reflexivity|].
  cbn [flat_map app forallb].
  destruct (hex_digits_of_byte b) as [H1 H2]. rewrite H1, H2, IH. reflexivity.
Qed.


(** The sixteen digits [mac.hexdigest()[:16]]. *)
Lemma token_digest_spec (key msg : bytes) :
  let token := slice (hexdigest (hmac_sha256 key msg)) 0 16 in
  len token = 16 /\ forallb is_lower_hex token = true.
Proof.
  cbv zeta.
  assert (L : len (hexdigest (hmac_sha256 key msg)) = 64).
  { unfold len. rewrite hexdigest_length, hmac_sha256_length. reflexivity. }
  split.
  - rewrite slice_inside_len; lia.
  - apply forallb_slice. apply hexdigest_lower_hex.
Qed.

(** ** The anonymisation engine *)

Lemma for_matches_run (text entity_type : str) (h : Heap) :
  forall matches entities_out replaced_segments,
    for_matches text entity_type matches entities_out replaced_segments h
    = ((entities_out
        ++ map (fun '(start, end_) => mkEntity entity_type start end_)
             matches,
        replaced_segments
        ++ map (fun '(start, end_) =>
                  (start, end_,
                   _stable_token (mkAnonymizer (heap_secret_key h))
                     entity_type (slice text start end_)))
             matches),
       h).
Proof.
  induction matches as [|[start end_] rest IH];
    intros entities_out replaced_segments.
  - cbn [for_matches map]. unfold run_ret. rewrite !app_nil_r. reflexivity.
  - cbn [for_matches map].
    cbv beta iota zeta delta [run_bind _stable_token_run read_secret_key
                              run_ret].
    rewrite IH, <- !app_assoc. reflexivity.
Qed.

Lemma for_patterns_run (text : str) (h : Heap) :
  forall items entities_out replaced_segments,
    for_patterns text items entities_out replaced_segments h
    = ((entities_out
        ++ flat_map (fun '(entity_type, pattern) =>
                       map (fun '(start, end_) =>
                              mkEntity entity_type start end_)
                           (finditer pattern text))
             items,
        replaced_segments
        ++ flat_map (fun '(entity_type, pattern) =>
                       map (fun '(start, end_) =>
                              (start, end_,
                               _stable_token
                                 (mkAnonymizer (heap_secret_key h))
                                 entity_type (slice text start end_)))
                           (finditer pattern text))
             items),
       h).
Proof.
  induction items as [|[entity_type pattern] rest IH];
    intros entities_out replaced_segments.
  - cbn [for_patterns flat_map]. unfold run_ret. rewrite !app_nil_r.
    reflexivity.
  - cbn [for_patterns flat_map]. unfold run_bind.
    rewrite for_matches_run. cbv beta iota. rewrite IH. cbn [fst snd].
    rewrite <- !app_assoc. reflexivity.
Qed.

(** A call leaves the state as it found it. *)
Lemma anonymize_run_heap (text : option str) (h : Heap) :
  snd (anonymize_run text h) = h.
Proof.
  destruct text as [[|c text]|]; try reflexivity.
  unfold anonymize_run, run_bind, read_PII_PATTERNS.
  cbv beta iota. rewrite for_patterns_run. reflexivity.
Qed.

(** In a state that holds the catalogue of the module, a call returns what
    the function [anonymize] gives for the secret key of the state. *)
Lemma anonymize_run_anonymize (text : option str) (h : Heap) :
  heap_PII_PATTERNS h = PII_PATTERNS ->
  fst (anonymize_run text h)
  = anonymize (mkAnonymizer (heap_secret_key h)) text.
Proof.
  intros P. destruct text as [[|c text]|]; try reflexivity.
  unfold anonymize_run, run_bind, read_PII_PATTERNS.
  cbv beta iota. rewrite for_patterns_run, P.
  cbn [fst snd app run_ret anonymize].
  assert (S : forall items,
             flat_map (fun '(entity_type, pattern) =>
                         map (fun '(start, end_) =>
                                (start, end_,
                                 _stable_token
                                   (mkAnonymizer (heap_secret_key h))
                                   entity_type
                                   (slice (c :: text) start end_)))
                             (finditer pattern (c :: text)))
               items
             = map (fun e =>
                      (e_start e, e_end e,
                       _stable_token (mkAnonymizer (heap_secret_key h))
                         (e_type e)
                         (slice (c :: text) (e_start e) (e_end e))))
                 (flat_map (fun '(entity_type, pattern) =>
                              map (fun '(start, end_) =>
                                     mkEntity entity_type start end_)
                                  (finditer pattern (c :: text)))
                    items)).
  { induction items as [|[entity_type pattern] rest IH]; [reflexivity|].
    cbn [flat_map]. rewrite map_app, <- IH. f_equal.
    rewrite map_map. apply map_ext. intros [start end_]. reflexivity. }
  rewrite S. reflexivity.
Qed.

(** C6: two calls of [anonymize] one after the other, with the same text
    on the same anonymizer, return the same redacted text and the same
    entity list: a call changes neither the dictionary [PII_PATTERNS] nor
    the secret key it reads, and it keeps nothing from one call to the
    next, so the second call starts from the state of the first. *)
Theorem anonymize_deterministic (text : option str) (h : Heap) :
  let first := anonymize_run text h in
  let second := anonymize_run text (snd first) in
  fst (fst second) = fst (fst first)
  /\ snd (fst second) = snd (fst first)
  /\ snd first = h /\ snd second = h.
Proof.
  cbv zeta. rewrite !anonymize_run_heap. repeat split; reflexivity.
Qed.

(** C7: the token is a function of the secret key, the category and the
    raw value alone; it is [<category:digest>] with a digest of sixteen
    lowercase hexadecimal digits, so its length is that of the category
    plus 19 whatever the raw value is, and the category is read off the
    token by dropping the first character and the last eighteen. *)
Theorem stable_token_shape (self : Anonymizer) (entity_type value : str) :
  (forall other, secret_key other = secret_key self ->
                 _stable_token other entity_type value
                 = _stable_token self entity_type value)
  /\ (exists digest,
        _stable_token self entity_type value
        = py "<" ++ entity_type ++ py ":" ++ digest ++ py ">"
        /\ len digest = 16 /\ forallb is_lower_hex digest = true)
  /\ len (_stable_token self entity_type value) = len entity_type + 19
  /\ slice (_stable_token self entity_type value) 1
       (len (_stable_token self entity_type value) - 18)
     = entity_type.
Proof.
  pose proof (token_digest_spec (utf8 (secret_key self))
                (utf8 (entity_type ++ py "::" ++ value))) as [L H].
  unfold _stable_token. cbv zeta.
  set (digest := slice (hexdigest (hmac_sha256 _ _)) 0 16) in *.
  assert (T : len (py "<" ++ entity_type ++ py ":" ++ digest ++ py ">")
              = len entity_type + 19).
  { rewrite !len_app, L. change (len (py "<")) with 1.
    change (len (py ":")) with 1. change (len (py ">")) with 1. lia. }
  split; [|split; [|split]].
  - intros other Hk. destruct other as [k], self as [k']. simpl in Hk.
    subst k. reflexivity.
  - exists digest. auto.
  - exact T.
  - rewrite T. pose proof (len_nonneg entity_type).
    rewrite slice_inside by lia.
    change (Z.to_nat 1) with 1%nat. change (py "<") with ["<"%char].
    cbn [app skipn].
    replace (Z.to_nat (len entity_type + 19 - 18 - 1))
      with (length entity_type) by (unfold len; lia).
    rewrite firstn_app, firstn_all, Nat.sub_diag. cbn [firstn].
    apply app_nil_r.
Qed.

Lemma stable_token_shape_witness :
  _stable_token (mkAnonymizer (py "k1")) (py "SSN") (py "123-45-6789")
  = _stable_token (mkAnonymizer (py "k1")) (py "SSN") (py "123-45-6789")
  /\ len (_stable_token (mkAnonymizer (py "k1")) (py "SSN")
            (py "123-45-6789"))
     = len (py "SSN") + 19.
Proof.
  split.
  - apply (proj1 (stable_token_shape (mkAnonymizer (py "k1")) (py "SSN")
                    (py "123-45-6789"))).
    reflexivity.
  - apply (stable_token_shape (mkAnonymizer (py "k1")) (py "SSN")
             (py "123-45-6789")).
Defined.

(** C8: for an empty text and for [None], [anonymize] returns its input
    as it is, with an empty entity list. *)
Theorem anonymize_empty_input (self : Anonymizer) (text : option str) :
  text = None \/ text = Some [] -> anonymize self text = (text, []).
Proof. intros [E|E]; subst text; reflexivity. Qed.

Lemma anonymize_empty_input_witness :
  anonymize (mkAnonymizer (py "k1")) (Some []) = (Some [], []).
Proof. apply anonymize_empty_input. right. reflexivity. Defined.

(** ** JSON: what is written is read back *)

Lemma json_induction (P : json -> Prop) :
  P JNull -> (forall z, P (JInt z)) -> (forall s, P (JStr s)) ->
  (forall items, Forall P items -> P (JList items)) ->
  (forall members, Forall (fun kv => P (snd kv)) members ->
                   P (JDict members)) ->
  forall v, P v.
Proof.
  intros Hn Hi Hs Hl Hd. fix IH 1. intros [ | z | s | items | members].
  - exact Hn.
  - apply Hi.
  - apply Hs.
  - apply Hl. induction items as [|v items IHl]; constructor;
      [apply IH | exact IHl].
  - apply Hd. induction members as [|[k v] members IHm]; constructor;
      [apply IH | exact IHm].
Qed.

Lemma digits_head (d : Decimal.uint) :
  d <> Decimal.Nil ->
  exists c t, digits d = c :: t /\ digit_value c <> None
              /\ value_head c = true /\ ascii_eqb c QUOTE = false
              /\ ascii_eqb c (ascii_of_N 110) = false
              /\ ascii_eqb c (ascii_of_N 91) = false
              /\ ascii_eqb c (ascii_of_N 123) = false
              /\ ascii_eqb c (ascii_of_N 45) = false.
Proof.
  destruct d; [congruence| ..]; intros _; eexists; eexists;
    (split; [reflexivity|]); repeat split; try reflexivity; discriminate.
Qed.

Lemma read_digits_digits (d : Decimal.uint) (rest : str) :
  no_digit_head rest -> read_digits (digits d ++ rest) = (d, rest).
Proof.
  intros Hr. induction d; simpl;
    try (simpl in IHd; rewrite IHd; reflexivity).
  destruct rest as [|c rest]; [reflexivity|]. simpl in Hr. simpl.
  rewrite Hr. reflexivity.
Qed.

Lemma to_int_digits (z : Z) :
  match Z.to_int z with
  | Decimal.Pos d | Decimal.Neg d => d <> Decimal.Nil
  end.
Proof.
  destruct z; simpl.
  - discriminate.
  - apply DecimalPos.Unsigned.to_uint_nonnil.
  - apply DecimalPos.Unsigned.to_uint_nonnil.
Qed.

Lemma read_int_str_of_int (z : Z) (rest : str) :
  no_digit_head rest -> read_int (str_of_int z ++ rest) = Some (z, rest).
Proof.
  intros Hr. unfold str_of_int. pose proof (to_int_digits z) as Hd.
  pose proof (DecimalZ.of_to z) as Hz.
  destruct (Z.to_int z) as [d|d].
  - destruct (digits_head d Hd) as (c & t & E & _ & _ & _ & _ & _ & _ & Hm).
    unfold read_int. rewrite E. cbn [app]. rewrite Hm.
    change (c :: t ++ rest) with ((c :: t) ++ rest). rewrite <- E.
    rewrite read_digits_digits by exact Hr.
    destruct d; [congruence | ..]; rewrite Hz; reflexivity.
  - unfold read_int. cbn [app].
    change (ascii_eqb (ascii_of_N 45) (ascii_of_N 45)) with true. cbv iota.
    rewrite read_digits_digits by exact Hr.
    destruct d; [congruence | ..]; rewrite Hz; reflexivity.
Qed.

Lemma read_string_escape_char (c : ascii) (rest : str) :
  read_string (escape_char c ++ rest) = cons_result c (read_string rest).
Proof.
  destruct c as [[] [] [] [] [] [] [] []]; reflexivity.
Qed.

Lemma read_string_encode (s rest : str) :
  read_string (flat_map escape_char s ++ QUOTE :: rest) = Some (s, rest).
Proof.
  induction s as [|c s IH].
  - reflexivity.
  - cbn [flat_map]. rewrite <- app_assoc, read_string_escape_char, IH.
    reflexivity.
Qed.

Lemma skip_ws_head (c : ascii) (s : str) :
  is_json_ws c = false -> skip_ws (c :: s) = c :: s.
Proof. intros H. simpl. rewrite H. reflexivity. Qed.

Lemma value_head_spec (c : ascii) :
  value_head c = true ->
  is_json_ws c = false /\ ascii_eqb c (ascii_of_N 93) = false
  /\ ascii_eqb c (ascii_of_N 125) = false.
Proof.
  unfold value_head. intros H.
  apply andb_true_iff in H. destruct H as [H H3].
  apply andb_true_iff in H. destruct H as [H1 H2].
  repeat split; apply negb_true_iff; assumption.
Qed.

(** Every serialised value begins with a character that opens a value. *)
Lemma dumps_head (v : json) :
  exists c t, dumps v = c :: t /\ value_head c = true.
Proof.
  destruct v as [ | z | s | items | members].
  - eexists; eexists; split; reflexivity.
  - unfold dumps, str_of_int. pose proof (to_int_digits z) as Hd.
    destruct (Z.to_int z) as [d|d].
    + destruct (digits_head d Hd) as (c & t & E & _ & Hv & _).
      eauto.
    + eexists; eexists; split; reflexivity.
  - eexists; eexists; split; reflexivity.
  - eexists; eexists; split; reflexivity.
  - eexists; eexists; split; reflexivity.
Qed.

Lemma dumps_length_pos (v : json) : (1 <= length (dumps v))%nat.
Proof.
  destruct (dumps_head v) as (c & t & E & _). rewrite E. simpl. lia.
Qed.

Lemma read_value_space (fuel : nat) (s : str) :
  read_value fuel (" "%char :: s) = read_value fuel s.
Proof. destruct fuel; reflexivity. Qed.

Lemma join_cons2 (sep a b : str) (l : list str) :
  join sep (a :: b :: l) = a ++ sep ++ join sep (b :: l).
Proof. reflexivity. Qed.

Lemma join_length_in (sep p : str) (parts : list str) :
  In p parts -> (length p <= length (join sep parts))%nat.
Proof.
  induction parts as [|a parts IH]; [contradiction|].
  intros [E|Hin].
  - subst a. destruct parts; [simpl; lia|].
    rewrite join_cons2, length_app. lia.
  - specialize (IH Hin). destruct parts; [contradiction|].
    rewrite join_cons2, !length_app. lia.
Qed.

Lemma join_length_count (sep : str) (parts : list str) :
  Forall (fun p => (1 <= length p)%nat) parts ->
  (length parts <= length (join sep parts))%nat.
Proof.
  induction 1 as [|a parts Ha _ IH]; [simpl; lia|].
  destruct parts; [simpl; lia|].
  rewrite join_cons2, !length_app. simpl length in *. lia.
Qed.

Section read_back.

Variable fuel : nat.

Lemma read_items_dumps (v : json) (items : list json) :
  Forall (read_back fuel) (v :: items) ->
  forall n rest, (length (v :: items) <= n)%nat ->
    read_items (read_value fuel) n
      (join (py ", ") (map dumps (v :: items)) ++ "]"%char :: rest)
    = Some (v :: items, rest).
Proof.
  revert v. induction items as [|w items IH]; intros v Hall n rest Hn.
  - inversion Hall as [|? ? Hv _]; subst.
    destruct n as [|n]; [simpl in Hn; lia|].
    unfold read_back in Hv.
    cbn [map join read_items]. rewrite Hv by reflexivity. reflexivity.
  - inversion Hall as [|? ? Hv Hrest]; subst.
    destruct n as [|n]; [simpl in Hn; lia|].
    cbn [map]. rewrite join_cons2, <- !app_assoc.
    unfold read_back in Hv.
    cbn [read_items]. rewrite Hv by reflexivity.
    cbn [py list_ascii_of_string app].
    rewrite skip_ws_head by reflexivity.
    change (ascii_eqb "," (ascii_of_N 44)) with true. cbv iota.
    assert (R : forall m s, read_items (read_value fuel) m (" "%char :: s)
                            = read_items (read_value fuel) m s).
    { intros [|m] s; [reflexivity|]. cbn [read_items].
      rewrite read_value_space. reflexivity. }
    rewrite R.
    specialize (IH w Hrest n rest ltac:(simpl in *; lia)).
    cbn [map py list_ascii_of_string] in IH. rewrite IH. reflexivity.
Qed.


Lemma read_members_dumps (kv : str * json) (members : list (str * json)) :
  Forall (fun kv => read_back fuel (snd kv)) (kv :: members) ->
  forall n rest, (length (kv :: members) <= n)%nat ->
    read_members (read_value fuel) n
      (join (py ", ")
         (map (fun kv => encode_str (fst kv) ++ py ": " ++ dumps (snd kv))
              (kv :: members))
       ++ "}"%char :: rest)
    = Some (kv :: members, rest).
Proof.
  assert (R : forall m s, read_members (read_value fuel) m (" "%char :: s)
                          = read_members (read_value fuel) m s).
  { intros [|m] s; reflexivity. }
  assert (K : forall k v tail m,
             read_back fuel v -> no_digit_head tail ->
             read_members (read_value fuel) (S m)
               ((encode_str k ++ py ": " ++ dumps v) ++ tail)
             = match skip_ws tail with
               | c :: s' =>
                   if ascii_eqb c (ascii_of_N 44) then
                     match read_members (read_value fuel) m s' with
                     | Some (kvs, rest') => Some ((k, v) :: kvs, rest')
                     | None => None
                     end
                   else if ascii_eqb c (ascii_of_N 125)
                   then Some ([(k, v)], s')
                   else None
               | [] => None
               end).
  { intros k v tail m Hv Ht. unfold encode_str, read_back in *.
    cbn [py list_ascii_of_string app]. rewrite <- !app_assoc.
    cbn [app read_members]. rewrite skip_ws_head by reflexivity.
    change (ascii_eqb QUOTE QUOTE) with true. cbv iota.
    rewrite read_string_encode.
    rewrite skip_ws_head by reflexivity.
    change (ascii_eqb ":" (ascii_of_N 58)) with true. cbv iota.
    rewrite read_value_space, Hv by exact Ht. reflexivity. }
  revert kv. induction members as [|kw members IH];
    intros [k v] Hall n rest Hn.
  - inversion Hall as [|? ? Hv _]; subst. simpl in Hv.
    destruct n as [|n]; [simpl in Hn; lia|].
    cbn [map join fst snd]. rewrite K by (exact Hv || reflexivity).
    reflexivity.
  - inversion Hall as [|? ? Hv Hrest]; subst. simpl in Hv.
    destruct n as [|n]; [simpl in Hn; lia|].
    cbn [map]. rewrite join_cons2. cbn [fst snd].
    rewrite <- (app_assoc (encode_str k ++ py ": " ++ dumps v)).
    rewrite K by (exact Hv || reflexivity).
    cbn [py list_ascii_of_string app].
    rewrite skip_ws_head by reflexivity.
    change (ascii_eqb "," (ascii_of_N 44)) with true. cbv iota.
    rewrite R.
    specialize (IH kw Hrest n rest ltac:(simpl in *; lia)).
    match goal with
    | |- match ?X with _ => _ end = _ =>
        replace X with (Some (kw :: members, rest)) by (symmetry; exact IH)
    end.
    reflexivity.
Qed.

End read_back.

Lemma str_of_int_head (z : Z) :
  exists c t, str_of_int z = c :: t
              /\ is_json_ws c = false /\ ascii_eqb c QUOTE = false
              /\ ascii_eqb c (ascii_of_N 110) = false
              /\ ascii_eqb c (ascii_of_N 91) = false
              /\ ascii_eqb c (ascii_of_N 123) = false.
Proof.
  unfold str_of_int. pose proof (to_int_digits z) as Hd.
  destruct (Z.to_int z) as [d|d].
  - destruct (digits_head d Hd) as (c & t & E & _ & Hv & Hq & Hn & Hl & Hb & _).
    apply value_head_spec in Hv. destruct Hv as (Hw & _ & _).
    exists c, t. auto 10.
  - eexists; eexists; split; [reflexivity|]. repeat split.
Qed.

(** Every value is read back from its serialisation, given fuel for the
    length of the text. *)
Lemma read_value_dumps (v : json) :
  forall fuel, (length (dumps v) <= fuel)%nat -> read_back fuel v.
Proof.
  induction v as [ | z | s | items IH | members IH] using json_induction;
    intros fuel Hf rest Hr.
  - destruct fuel as [|fuel]; [simpl in Hf; lia|]. reflexivity.
  - destruct fuel as [|fuel];
      [pose proof (dumps_length_pos (JInt z)); lia|].
    cbn [dumps].
    destruct (str_of_int_head z) as (c & t & E & Hw & Hq & Hn & Hl & Hb).
    rewrite E. cbn [app read_value]. rewrite skip_ws_head by exact Hw.
    rewrite Hq, Hn, Hl, Hb.
    change (c :: t ++ rest) with ((c :: t) ++ rest). rewrite <- E.
    rewrite read_int_str_of_int by exact Hr. reflexivity.
  - destruct fuel as [|fuel]; [simpl in Hf; lia|].
    cbn [dumps]. unfold encode_str. cbn [app read_value].
    rewrite skip_ws_head by reflexivity.
    change (ascii_eqb QUOTE QUOTE) with true. cbv iota.
    rewrite <- app_assoc. cbn [app]. rewrite read_string_encode. reflexivity.
  - destruct fuel as [|fuel]; [simpl in Hf; lia|].
    assert (Hlen : (length (join [","%char; " "%char] (map dumps items))
                    <= fuel)%nat).
    { cbn [dumps] in Hf. rewrite !length_app in Hf.
      change (length (py "[")) with 1%nat in Hf.
      change (py ", ") with [","%char; " "%char] in Hf. lia. }
    clear Hf.
    cbn [dumps]. cbn [py list_ascii_of_string app].
    cbn [read_value]. rewrite skip_ws_head by reflexivity.
    change (ascii_eqb "[" QUOTE) with false.
    change (ascii_eqb "[" (ascii_of_N 110)) with false.
    change (ascii_eqb "[" (ascii_of_N 91)) with true. cbv iota.
    destruct items as [|v items].
    + reflexivity.
    + rewrite <- app_assoc. cbn [app].
      assert (Hall : Forall (read_back fuel) (v :: items)).
      { rewrite Forall_forall in *. intros x Hx. apply IH; [exact Hx|].
        pose proof (join_length_in [","%char; " "%char] (dumps x)
                      (map dumps (v :: items)) (in_map dumps _ _ Hx)).
        lia. }
      assert (Hcount : (length (v :: items) <= fuel)%nat).
      { pose proof (join_length_count [","%char; " "%char]
                      (map dumps (v :: items))) as C.
        rewrite length_map in C.
        assert (Forall (fun p => (1 <= length p)%nat) (map dumps (v :: items))).
        { apply Forall_forall. intros p Hp. apply in_map_iff in Hp.
          destruct Hp as (x & Ex & _). subst p. apply dumps_length_pos. }
        specialize (C H). lia. }
      pose proof (read_items_dumps fuel v items Hall fuel rest Hcount) as RI.
      cbn [py list_ascii_of_string] in RI.
      destruct (dumps_head v) as (c & t & E & Hv).
      apply value_head_spec in Hv. destruct Hv as (Hw & Hc & _).
      assert (J : exists t', join [","%char; " "%char] (map dumps (v :: items))
                             ++ "]"%char :: rest = c :: t').
      { cbn [map]. destruct (map dumps items).
        - cbn [join]. rewrite E. eexists. reflexivity.
        - rewrite join_cons2, E. eexists. reflexivity. }
      destruct J as (t' & J). rewrite J in *.
      rewrite skip_ws_head by exact Hw. rewrite Hc, RI. reflexivity.
  - destruct fuel as [|fuel]; [simpl in Hf; lia|].
    set (text_of := fun kv : str * json =>
                      encode_str (fst kv)
                      ++ [":"%char; " "%char] ++ dumps (snd kv)).
    assert (Hlen : (length (join [","%char; " "%char] (map text_of members))
                    <= fuel)%nat).
    { cbn [dumps] in Hf. rewrite !length_app in Hf.
      change (length (py "{")) with 1%nat in Hf.
      change (py ", ") with [","%char; " "%char] in Hf.
      change (py ": ") with [":"%char; " "%char] in Hf.
      fold text_of in Hf. lia. }
    clear Hf.
    cbn [dumps]. cbn [py list_ascii_of_string]. fold text_of. cbn [app].
    cbn [read_value]. rewrite skip_ws_head by reflexivity.
    change (ascii_eqb "{" QUOTE) with false.
    change (ascii_eqb "{" (ascii_of_N 110)) with false.
    change (ascii_eqb "{" (ascii_of_N 91)) with false.
    change (ascii_eqb "{" (ascii_of_N 123)) with true. cbv iota.
    destruct members as [|kv members].
    + reflexivity.
    + rewrite <- app_assoc. cbn [app].
      assert (Hall : Forall (fun kv => read_back fuel (snd kv)) (kv :: members)).
      { rewrite Forall_forall in *. intros x Hx. apply IH; [exact Hx|].
        pose proof (join_length_in [","%char; " "%char] (text_of x)
                      (map text_of (kv :: members)) (in_map text_of _ _ Hx)).
        subst text_of. cbv beta in H. rewrite !length_app in H. lia. }
      assert (Hcount : (length (kv :: members) <= fuel)%nat).
      { pose proof (join_length_count [","%char; " "%char]
                      (map text_of (kv :: members))) as C.
        rewrite length_map in C.
        assert (Forall (fun p => (1 <= length p)%nat)
                       (map text_of (kv :: members))).
        { apply Forall_forall. intros p Hp. apply in_map_iff in Hp.
          destruct Hp as (x & Ex & _). subst p text_of. cbv beta.
          unfold encode_str. simpl length. lia. }
        specialize (C H). lia. }
      pose proof (read_members_dumps fuel kv members Hall fuel rest Hcount)
        as RM.
      cbn [py list_ascii_of_string] in RM. fold text_of in RM.
      assert (J : exists t', join [","%char; " "%char]
                               (map text_of (kv :: members))
                             ++ "}"%char :: rest = QUOTE :: t').
      { cbn [map]. destruct (map text_of members).
        - cbn [join]. subst text_of. cbv beta. unfold encode_str.
          eexists. reflexivity.
        - rewrite join_cons2. subst text_of. cbv beta. unfold encode_str.
          eexists. reflexivity. }
      destruct J as (t' & J). rewrite J in *.
      rewrite skip_ws_head by reflexivity.
      change (ascii_eqb QUOTE (ascii_of_N 125)) with false. cbv iota.
      rewrite RM. reflexivity.
Qed.

(** [json.loads(json.dumps(v))] is [v]. *)
Lemma loads_dumps (v : json) : loads (dumps v) = Some v.
Proof.
  unfold loads.
  pose proof (read_value_dumps v (S (length (dumps v))) (Nat.le_succ_diag_r _)
                [] I) as R.
  rewrite app_nil_r in R. rewrite R. reflexivity.
Qed.

(** ** The record writer *)

Lemma write_all_app (a b : list json) (w : CompressedJsonlWriter) :
  write_all (a ++ b) w = write_all b (write_all a w).
Proof. unfold write_all. apply fold_left_app. Qed.

Lemma write_all_cons (r : json) (rs : list json) (w : CompressedJsonlWriter) :
  write_all (r :: rs) w = write_all rs (write r w).
Proof. reflexivity. Qed.

(** Writing only appends lines to the stream. *)
Lemma write_all_fh (records : list json) (w : CompressedJsonlWriter) :
  _fh (write_all records w) = _fh w ++ records_text records
  /\ path (write_all records w) = path w.
Proof.
  revert w. induction records as [|r rs IH]; intros w.
  - unfold records_text. simpl. rewrite app_nil_r. auto.
  - rewrite write_all_cons. destruct (IH (write r w)) as [E P].
    rewrite E, P. unfold records_text. simpl.
    rewrite <- !app_assoc. auto.
Qed.

(** ** The PDF branch *)

Lemma write_page_chunks_records f anonymizer file_hash page_index :
  forall chunks chunk_index writer,
    write_page_chunks f anonymizer file_hash page_index chunk_index chunks
      writer
    = write_all (records_of f anonymizer file_hash (py "pdf")
                   (JInt (page_index + 1)) chunk_index chunks) writer.
Proof.
  induction chunks as [|chunk rest IH]; intros chunk_index writer.
  - reflexivity.
  - cbn [write_page_chunks records_of]. rewrite write_all_cons. apply IH.
Qed.

(** The loop over the pages writes the records of every page the
    extraction yields before it stops or raises, and ends as the
    extraction does. *)
Lemma process_pages_records f cfg anonymizer file_hash :
  1 <= max_chars_per_chunk cfg ->
  forall pages writer,
    process_pages f cfg anonymizer file_hash pages writer
    = Some (write_all
              (flat_map (page_records f cfg anonymizer file_hash)
                 (yielded_before pages)) writer,
            gen_outcome pages).
Proof.
  intros Hm. induction pages as [|[page_index page_text] rest IH|];
    intros writer.
  - reflexivity.
  - cbn [process_pages yielded_before flat_map gen_outcome page_records].
    destruct (truthy page_text).
    + destruct (chunk_text_total page_text _ Hm)
        as (chunks & E).
      rewrite E, write_page_chunks_records, IH, write_all_app. reflexivity.
    + apply IH.
  - reflexivity.
Qed.

(** ** The Excel branch *)

Lemma running_length_snoc (buffer : list str) (line : str) :
  running_length (buffer ++ [line]) = running_length buffer + (len line + 1).
Proof.
  unfold running_length. induction buffer as [|a buffer IH]; simpl; lia.
Qed.

(** The joined buffer is one character shorter than its running
    length. *)
Lemma join_running_length (buffer : list str) :
  len (join [LF] buffer)
  = if truthy buffer then running_length buffer - 1 else 0.
Proof.
  induction buffer as [|a buffer IH]; [reflexivity|].
  destruct buffer as [|b buffer].
  - simpl. lia.
  - rewrite join_cons2, !len_app, IH. change (len [LF]) with 1.
    cbn [truthy running_length fold_right]. unfold running_length. lia.
Qed.


Lemma write_buffer_records f anonymizer file_hash buffer chunk_counter writer :
  write_buffer f anonymizer file_hash buffer chunk_counter writer
  = write_all (records_of f anonymizer file_hash (py "excel") JNull
                 chunk_counter [join [LF] buffer]) writer.
Proof. reflexivity. Qed.

(** The loop over the lines, from any state in which [current_len] is the
    running length of [buffer]: the groups flushed inside the loop have
    reached the threshold, and at most one more group is written after
    it. *)
Lemma process_lines_groups f cfg anonymizer file_hash :
  forall text_stream buffer current_len chunk_counter,
    current_len = running_length buffer ->
    exists flushed final,
      (forall writer,
          process_lines f cfg anonymizer file_hash text_stream buffer
            current_len chunk_counter writer
          = (write_all
               (records_of f anonymizer file_hash (py "excel") JNull
                  chunk_counter (map (join [LF]) (flushed ++ final)))
               writer,
             gen_outcome text_stream))
      /\ Forall (fun group =>
                   max_chars_per_chunk cfg <= running_length group
                   /\ max_chars_per_chunk cfg - 1 <= len (join [LF] group))
                flushed
      /\ (length final <= 1)%nat.
Proof.
  induction text_stream as [|line rest IH|];
    intros buffer current_len chunk_counter Hinv.
  - destruct (truthy buffer) eqn:T.
    + exists [], [buffer]. split; [|split; [constructor | simpl; lia]].
      intros writer. cbn [process_lines]. rewrite T. reflexivity.
    + exists [], []. split; [|split; [constructor | simpl; lia]].
      intros writer. cbn [process_lines]. rewrite T. reflexivity.
  - cbn [process_lines gen_outcome].
    set (buffer' := if truthy line then buffer ++ [line] else buffer).
    set (current_len' := if truthy line then current_len + (len line + 1)
                         else current_len).
    assert (Hinv' : current_len' = running_length buffer').
    { subst buffer' current_len'. destruct (truthy line); [|exact Hinv].
      rewrite running_length_snoc, Hinv. reflexivity. }
    destruct (current_len' >=? max_chars_per_chunk cfg) eqn:G.
    + destruct (IH [] 0 (chunk_counter + 1) eq_refl)
        as (flushed & final & Hw & Hf & Hl).
      exists (buffer' :: flushed), final. split; [|split; [|exact Hl]].
      * intros writer. rewrite Hw, write_buffer_records.
        cbn [app map records_of]. rewrite write_all_cons. reflexivity.
      * constructor; [|exact Hf]. rewrite join_running_length, <- Hinv'.
        split; [lia|]. destruct (truthy buffer') eqn:T; [lia|].
        apply truthy_false in T. rewrite T in Hinv'. simpl in Hinv'. lia.
    + destruct (IH buffer' current_len' chunk_counter Hinv')
        as (flushed & final & Hw & Hf & Hl).
      exists flushed, final. split; [|split; [exact Hf | exact Hl]].
      intros writer. apply Hw.
  - exists [], []. split; [|split; [constructor | simpl; lia]].
    intros writer. reflexivity.
Qed.

(** C10: on the Excel path the groups of lines written inside the loop
    have a running length (the length of every line plus one) that
    reached [max_chars_per_chunk], so their text before redaction has at
    least [max_chars_per_chunk - 1] characters; only one more group, the
    last record, may be shorter.  No upper bound is enforced: a line that
    reaches the threshold alone is written as one record however long it
    is, without going through [chunk_text]; with a threshold of 10 the
    workbook of the example gets a record whose text has 18 characters. *)
Theorem excel_records_reach_threshold (f : InputFile) (cfg : IngestConfig)
    (anonymizer : Anonymizer) (file_hash : str) (text_stream : gen str) :
  (exists flushed final,
      (forall writer,
          process_lines f cfg anonymizer file_hash text_stream [] 0 0 writer
          = (write_all
               (records_of f anonymizer file_hash (py "excel") JNull 0
                  (map (join [LF]) (flushed ++ final)))
               writer,
             gen_outcome text_stream))
      /\ Forall (fun group =>
                   max_chars_per_chunk cfg <= running_length group
                   /\ max_chars_per_chunk cfg - 1 <= len (join [LF] group))
                flushed
      /\ (length final <= 1)%nat)
  /\ (forall line writer,
         truthy line = true -> max_chars_per_chunk cfg <= len line + 1 ->
         process_lines f cfg anonymizer file_hash (Yield line text_stream)
           [] 0 0 writer
         = process_lines f cfg anonymizer file_hash text_stream [] 0 1
             (write_all
                (records_of f anonymizer file_hash (py "excel") JNull 0
                   [line])
                writer))
  /\ (exists text,
         stream_fields "text"
           (written (ingest false [broken_workbook] example_output
                       (Some (py "k1")) None false 10))
         = [Some (JStr text)]
         /\ len text = 18).
Proof.
  split; [|split].
  - apply process_lines_groups. reflexivity.
  - intros line writer T Hlen. cbn [process_lines]. rewrite T.
    cbn [app]. destruct (0 + (len line + 1) >=? max_chars_per_chunk cfg) eqn:G;
      [|lia].
    reflexivity.
  - exists (py "S | C1:hello world"). split; vm_compute; reflexivity.
Qed.

(** ** What is written matches the schema *)

Lemma is_entity_json_of_entity (e : entity) :
  is_entity (json_of_entity e) = true.
Proof. reflexivity. Qed.

(** On a string [anonymize] returns a string. *)
Lemma anonymize_some (self : Anonymizer) (text : str) :
  exists redacted, fst (anonymize self (Some text)) = Some redacted.
Proof. destruct text; eexists; reflexivity. Qed.

Lemma compute_file_sha256_hex (f : InputFile) (file_hash : str) :
  compute_file_sha256 f = Ok file_hash ->
  is_sha256_hex (JStr file_hash) = true.
Proof.
  unfold compute_file_sha256. destruct (file_bytes f) as [content|];
    [|discriminate].
  intros E.
  apply (f_equal (fun r => match r with Ok h => h | Err => [] end)) in E.
  cbv beta iota in E. subst file_hash. unfold is_sha256_hex.
  rewrite hexdigest_length, sha256_length, hexdigest_lower_hex. reflexivity.
Qed.

Lemma make_record_schema file_id source_path file_hash file_type page_number
    chunk_index anonymized :
  is_sha256_hex (JStr file_hash) = true ->
  is_file_type (JStr file_type) = true ->
  is_int_or_null page_number = true ->
  0 <= chunk_index ->
  (exists redacted, fst anonymized = Some redacted) ->
  record_schema "doc_id"
    (make_record file_id source_path file_hash file_type page_number
       chunk_index anonymized) = true.
Proof.
  intros Hh Ht Hp Hi (redacted & Ha).
  unfold record_schema, make_record, has, field.
  cbn [dict_get py list_ascii_of_string str_eqb ascii_eqb Ascii.eqb
       Bool.eqb andb]. 
  rewrite Hh, Ht, Hp, Ha. cbn [json_of_text is_str is_index is_entity_list andb].
  replace (0 <=? chunk_index) with true by (symmetry; apply Z.leb_le; exact Hi).
  cbn [andb]. apply forallb_forall. intros x Hx. apply in_map_iff in Hx.
  destruct Hx as (e & E & _). subst x. apply is_entity_json_of_entity.
Qed.

Lemma records_of_schema f anonymizer file_hash file_type page_number :
  is_sha256_hex (JStr file_hash) = true ->
  is_file_type (JStr file_type) = true ->
  is_int_or_null page_number = true ->
  forall chunks index,
    0 <= index ->
    Forall (fun r => record_schema "doc_id" r = true)
           (records_of f anonymizer file_hash file_type page_number index
              chunks).
Proof.
  intros Hh Ht Hp. induction chunks as [|chunk rest IH]; intros index Hi.
  - constructor.
  - cbn [records_of]. constructor.
    + apply make_record_schema; auto. apply anonymize_some.
    + apply IH. lia.
Qed.



(** ** Calls that return, whatever [max_chars_per_chunk] is *)

(** [chunk_text] comes to its end unless [max_chars] is zero or
    negative. *)
Lemma chunk_text_None (text : str) (max_chars : Z) :
  chunk_text text max_chars = None -> max_chars <= 0.
Proof.
  intros E. destruct (Z_le_gt_dec max_chars 0) as [L|G]; [exact L|].
  destruct (chunk_text_total text max_chars) as (chunks & E'); [lia|].
  rewrite E in E'. discriminate.
Qed.

(** The loop over the pages, for every [max_chars_per_chunk]: when it
    comes to its end it has written the records of the pages, and it
    comes to its end unless [max_chars_per_chunk] is zero or negative. *)
Lemma process_pages_cases f cfg anonymizer file_hash :
  forall pages writer,
    match process_pages f cfg anonymizer file_hash pages writer with
    | Some r =>
        r = (write_all
               (flat_map (page_records f cfg anonymizer file_hash)
                  (yielded_before pages)) writer,
             gen_outcome pages)
    | None => max_chars_per_chunk cfg <= 0
    end.
Proof.
  induction pages as [|[page_index page_text] rest IH|]; intros writer;
    [reflexivity | | reflexivity].
  cbn [process_pages yielded_before flat_map gen_outcome page_records].
  destruct (truthy page_text); [|apply IH].
  destruct (chunk_text page_text (max_chars_per_chunk cfg)) as [chunks|]
    eqn:E; [|apply chunk_text_None in E; exact E].
  specialize (IH (write_page_chunks f anonymizer file_hash page_index 0
                    chunks writer)).
  destruct (process_pages f cfg anonymizer file_hash rest _) as [r|];
    [|exact IH].
  rewrite IH, write_page_chunks_records, write_all_app. reflexivity.
Qed.

(** A call of [process_file], for every [max_chars_per_chunk]: when it
    returns or raises, it has appended records to the stream, each one
    made for a list of chunks of this file; it does one or the other
    unless [max_chars_per_chunk] is zero or negative. *)
Lemma process_file_cases OCR_AVAILABLE f cfg anonymizer (P : json -> Prop) :
  (forall file_hash page_number chunks,
      compute_file_sha256 f = Ok file_hash ->
      is_int_or_null page_number = true ->
      Forall P
        (records_of f anonymizer file_hash
           (if str_eqb (lower (suffix (file_path f))) (py ".pdf")
            then py "pdf" else py "excel")
           page_number 0 chunks)) ->
  forall writer,
    match process_file OCR_AVAILABLE f cfg anonymizer writer with
    | Some (writer', _) =>
        exists records,
          writer' = write_all records writer /\ Forall P records
    | None => max_chars_per_chunk cfg <= 0
    end.
Proof.
  intros HP writer. unfold process_file.
  destruct (compute_file_sha256 f) as [file_hash|] eqn:Eh.
  2:{ exists []. split; [reflexivity | constructor]. }
  destruct (str_eqb (lower (suffix (file_path f))) (py ".pdf")).
  - pose proof (process_pages_cases f cfg anonymizer file_hash
                  (extract_text_pages_from_pdf (pdf_reader f) (ocr cfg)
                     OCR_AVAILABLE) writer) as C.
    destruct (process_pages f cfg anonymizer file_hash _ writer)
      as [[writer' o]|]; [|exact C].
    inversion C. eexists. split; [reflexivity|].
    apply Forall_forall. intros r Hr. apply in_flat_map in Hr.
    destruct Hr as ([page_index page_text] & _ & Hr).
    unfold page_records in Hr. destruct (truthy page_text); [|contradiction].
    destruct (chunk_text page_text _) as [chunks|]; [|contradiction].
    pose proof (HP file_hash (JInt (page_index + 1)) chunks eq_refl eq_refl)
      as S.
    rewrite Forall_forall in S. apply S. exact Hr.
  - destruct (str_eqb _ (py ".xlsx") || str_eqb _ (py ".xls")
              || str_eqb _ (py ".xlsm")).
    + destruct (process_lines_groups f cfg anonymizer file_hash
                  (extract_text_from_excel (workbook f)) [] 0 0 eq_refl)
        as (flushed & final & Hw & _ & _).
      rewrite Hw. eexists. split; [reflexivity|].
      apply HP; reflexivity.
    + exists []. split; [reflexivity | constructor].
Qed.

Lemma process_files_cases OCR_AVAILABLE cfg anonymizer (P : json -> Prop) :
  forall files,
    (forall f file_hash page_number chunks,
        In f files ->
        compute_file_sha256 f = Ok file_hash ->
        is_int_or_null page_number = true ->
        Forall P
          (records_of f anonymizer file_hash
             (if str_eqb (lower (suffix (file_path f))) (py ".pdf")
              then py "pdf" else py "excel")
             page_number 0 chunks)) ->
    forall writer,
      match process_files OCR_AVAILABLE files cfg anonymizer writer with
      | Some writer' =>
          exists records,
            writer' = write_all records writer /\ Forall P records
      | None => max_chars_per_chunk cfg <= 0
      end.
Proof.
  induction files as [|f files IH]; intros HP writer.
  - exists []. split; [reflexivity | constructor].
  - cbn [process_files].
    pose proof (process_file_cases OCR_AVAILABLE f cfg anonymizer P
                  (fun file_hash page_number chunks =>
                     HP f file_hash page_number chunks
                        (or_introl eq_refl)) writer) as C.
    destruct (process_file OCR_AVAILABLE f cfg anonymizer writer)
      as [[writer1 o]|]; [|exact C].
    destruct C as (records1 & E1 & P1).
    specialize (IH (fun f' file_hash page_number chunks Hin =>
                      HP f' file_hash page_number chunks (or_intror Hin))
                  writer1).
    destruct (process_files OCR_AVAILABLE files cfg anonymizer writer1)
      as [writer2|]; [|exact IH].
    destruct IH as (records2 & E2 & P2).
    exists (records1 ++ records2). split.
    + rewrite write_all_app, <- E1. exact E2.
    + apply Forall_app. split; assumption.
Qed.

(** ** The lines of the stream *)

Lemma digits_not_LF (d : Decimal.uint) : forallb not_LF (digits d) = true.
Proof. induction d; simpl; auto. Qed.

Lemma escape_char_not_LF (c : ascii) : forallb not_LF (escape_char c) = true.
Proof. destruct c as [[] [] [] [] [] [] [] []]; reflexivity. Qed.

Lemma encode_str_not_LF (s : str) : forallb not_LF (encode_str s) = true.
Proof.
  unfold encode_str. cbn [forallb]. rewrite forallb_app.
  replace (forallb not_LF (flat_map escape_char s)) with true; [reflexivity|].
  symmetry. induction s as [|c s IH]; [reflexivity|].
  cbn [flat_map]. rewrite forallb_app, escape_char_not_LF, IH. reflexivity.
Qed.

Lemma join_forallb (p : ascii -> bool) (sep : str) (parts : list str) :
  forallb p sep = true -> Forall (fun x => forallb p x = true) parts ->
  forallb p (join sep parts) = true.
Proof.
  intros Hs. induction 1 as [|a parts Ha _ IH]; [reflexivity|].
  destruct parts as [|b parts]; [exact Ha|].
  rewrite join_cons2, !forallb_app, Ha, Hs. exact IH.
Qed.

(** A serialised value is on one line. *)
Lemma dumps_not_LF (v : json) : forallb not_LF (dumps v) = true.
Proof.
  induction v as [ | z | s | items IH | members IH] using json_induction.
  - reflexivity.
  - cbn [dumps]. unfold str_of_int. destruct (Z.to_int z); cbn [forallb];
      rewrite digits_not_LF; reflexivity.
  - apply encode_str_not_LF.
  - cbn [dumps]. rewrite !forallb_app. rewrite join_forallb; [reflexivity ..|].
    apply Forall_forall. intros x Hx. apply in_map_iff in Hx.
    destruct Hx as (v & E & Hv). subst x. rewrite Forall_forall in IH. auto.
  - cbn [dumps]. rewrite !forallb_app. rewrite join_forallb; [reflexivity ..|].
    apply Forall_forall. intros x Hx. apply in_map_iff in Hx.
    destruct Hx as ([k v] & E & Hv). subst x. rewrite Forall_forall in IH.
    specialize (IH (k, v) Hv). cbn [fst snd] in *.
    rewrite !forallb_app, encode_str_not_LF, IH. reflexivity.
Qed.

Lemma lines_from_line (l : str) :
  forallb not_LF l = true ->
  forall cur s, lines_from cur (l ++ LF :: s)
                = (rev cur ++ l) :: lines_from [] s.
Proof.
  induction l as [|c l IH]; intros H cur s.
  - cbn [app lines_from]. change (ascii_eqb LF LF) with true.
    rewrite app_nil_r. reflexivity.
  - cbn [forallb] in H. apply andb_true_iff in H. destruct H as [Hc Hl].
    unfold not_LF in Hc. apply negb_true_iff in Hc.
    cbn [app lines_from]. rewrite Hc, (IH Hl). cbn [rev].
    rewrite <- app_assoc. reflexivity.
Qed.

(** The lines of what was written are the records, serialised. *)
Lemma lines_of_records_text (records : list json) :
  lines_of (records_text records) = map dumps records.
Proof.
  unfold lines_of, records_text. induction records as [|r rs IH];
    [reflexivity|].
  cbn [map concat]. rewrite <- app_assoc. cbn [app].
  rewrite lines_from_line by apply dumps_not_LF. rewrite IH. reflexivity.
Qed.

(** ** The run *)


(** C2, as the code has it: every line of the stream a run has written,
    read back as JSON, is a record of the schema, with the document
    identifier in the field [doc_id]; this holds for every
    [max_chars_per_chunk], zero and negative ones included.  The command
    comes to an end unless [max_chars_per_chunk] is zero or negative (a
    run that does not end never closes its stream), and it ends with the
    exit code 2 or with the stream written. *)
Theorem written_lines_match_schema (OCR_AVAILABLE : bool)
    (inputs_list : list InputFile) (output_opt : Path)
    (secret_opt ANONYMIZATION_SECRET : option str) (ocr_opt : bool)
    (max_chars_opt : Z) :
  match ingest OCR_AVAILABLE inputs_list output_opt secret_opt
          ANONYMIZATION_SECRET ocr_opt max_chars_opt with
  | Some (Wrote writer) =>
      Forall (fun line =>
                exists v, loads line = Some v
                          /\ record_schema "doc_id" v = true)
             (lines_of (_fh writer))
  | Some (Exit code) => code = 2
  | None => max_chars_opt <= 0
  end.
Proof.
  unfold ingest.
  destruct (or_else secret_opt ANONYMIZATION_SECRET) as [[|c secret_value]|];
    try reflexivity.
  destruct (truthy inputs_list); [|reflexivity].
  pose proof (process_files_cases OCR_AVAILABLE
                (mkConfig inputs_list output_opt (c :: secret_value) ocr_opt
                   max_chars_opt)
                (mkAnonymizer (c :: secret_value))
                (fun r => record_schema "doc_id" r = true) inputs_list)
    as C.
  cbn [inputs secret output max_chars_per_chunk] in *.
  specialize (C (fun f file_hash page_number chunks _ Hh Hp =>
                   records_of_schema f (mkAnonymizer (c :: secret_value))
                     file_hash _ page_number
                     (compute_file_sha256_hex f file_hash Hh)
                     (if str_eqb (lower (suffix (file_path f))) (py ".pdf")
                         as b
                         return
                           (is_file_type
                              (JStr (if b then py "pdf" else py "excel"))
                            = true)
                      then eq_refl else eq_refl)
                     Hp chunks 0 (Z.le_refl 0))
                (__enter__ output_opt)).
  destruct (process_files OCR_AVAILABLE inputs_list _ _
              (__enter__ output_opt)) as [writer|]; [|exact C].
  destruct C as (records & E & Hs). subst writer.
  destruct (write_all_fh records (__enter__ output_opt)) as [F _].
  rewrite F.
  replace (_fh (__enter__ output_opt)) with (@nil ascii)
    by (unfold __enter__; destruct (str_eqb _ _); reflexivity).
  cbn [app]. rewrite lines_of_records_text.
  apply Forall_forall. intros line Hl. apply in_map_iff in Hl.
  destruct Hl as (r & E & Hr). subst line. exists r. split.
  - apply loads_dumps.
  - rewrite Forall_forall in Hs. apply Hs. exact Hr.
Qed.



Lemma written_lines_match_schema_witness :
  exists writer,
    ingest false [broken_workbook] example_output (Some (py "k1")) None
      false 0 = Some (Wrote writer)
    /\ length (lines_of (_fh writer)) = 1%nat
    /\ Forall (fun line =>
                 exists v, loads line = Some v
                           /\ record_schema "doc_id" v = true)
              (lines_of (_fh writer)).
Proof.
  pose proof (written_lines_match_schema false [broken_workbook]
                example_output (Some (py "k1")) None false 0) as H.
  remember (ingest false [broken_workbook] example_output (Some (py "k1"))
              None false 0) as r eqn:E.
  vm_compute in E. subst r. cbv iota in H.
  eexists. split; [reflexivity|]. split; [vm_compute; reflexivity | exact H].
Defined.

(** C2 as stated fails: no line of the stream has a field
    [document_id]. *)
Lemma written_lines_have_no_document_id :
  stream_fields "document_id"
    (written (ingest false [broken_workbook; one_page_pdf] example_output
                (Some (py "k1")) None false 10))
  = [None; None; None; None]
  /\ map (fun line => option_map (record_schema "document_id") (loads line))
       (lines_of
          (written (ingest false [broken_workbook; one_page_pdf]
                      example_output (Some (py "k1")) None false 10)))
     = [Some false; Some false; Some false; Some false].
Proof. split; vm_compute; reflexivity. Qed.

(** ** Chunking comes before anonymisation *)

Lemma records_of_fields f anonymizer file_hash file_type page_number :
  forall chunks index,
    map (field "text")
        (records_of f anonymizer file_hash file_type page_number index chunks)
    = map (fun chunk =>
             Some (json_of_text (fst (anonymize anonymizer (Some chunk)))))
          chunks
    /\ map (field "entities")
           (records_of f anonymizer file_hash file_type page_number index
              chunks)
       = map (fun chunk =>
                Some (JList (map json_of_entity
                               (snd (anonymize anonymizer (Some chunk))))))
             chunks.
Proof.
  induction chunks as [|chunk rest IH]; intros index; [split; reflexivity|].
  destruct (IH (index + 1)) as [E1 E2]. cbn [records_of map].
  rewrite E1, E2. split; reflexivity.
Qed.

(** C9, as the code has it: a page whose text is not empty is split by
    [chunk_text] first, and then every chunk is run through [anonymize]:
    one record is written per chunk of the raw text, with the redacted
    chunk as its text and the entities found in the chunk. *)
Theorem pdf_page_chunked_then_anonymized (f : InputFile)
    (cfg : IngestConfig) (anonymizer : Anonymizer) (file_hash : str)
    (page_index : Z) (page_text : str) (rest : gen (Z * str))
    (writer : CompressedJsonlWriter) :
  1 <= max_chars_per_chunk cfg -> truthy page_text = true ->
  exists chunks records,
    chunk_text page_text (max_chars_per_chunk cfg) = Some chunks
    /\ process_pages f cfg anonymizer file_hash
         (Yield (page_index, page_text) rest) writer
       = process_pages f cfg anonymizer file_hash rest
           (write_all records writer)
    /\ length records = length chunks
    /\ map (field "text") records
       = map (fun chunk =>
                Some (json_of_text (fst (anonymize anonymizer (Some chunk)))))
             chunks
    /\ map (field "entities") records
       = map (fun chunk =>
                Some (JList (map json_of_entity
                               (snd (anonymize anonymizer (Some chunk))))))
             chunks.
Proof.
  intros Hm Ht. destruct (chunk_text_total page_text _ Hm) as (chunks & E).
  exists chunks,
    (records_of f anonymizer file_hash (py "pdf") (JInt (page_index + 1)) 0
       chunks).
  split; [exact E|]. split; [|split].
  - cbn [process_pages]. rewrite Ht, E, write_page_chunks_records.
    reflexivity.
  - pose proof (f_equal (@length _)
                  (proj1 (records_of_fields f anonymizer file_hash (py "pdf")
                            (JInt (page_index + 1)) chunks 0))) as L.
    rewrite !length_map in L. exact L.
  - apply records_of_fields.
Qed.

Lemma pdf_page_chunked_then_anonymized_witness :
  exists chunks records,
    chunk_text (py "My SSN is 123-45-6789") 20 = Some chunks
    /\ process_pages one_page_pdf (example_config 20)
         (mkAnonymizer (py "k1")) (py "00")
         (Yield (0, py "My SSN is 123-45-6789") Stop)
         (__enter__ example_output)
       = process_pages one_page_pdf (example_config 20)
           (mkAnonymizer (py "k1")) (py "00") Stop
           (write_all records (__enter__ example_output))
    /\ length records = length chunks
    /\ map (field "text") records
       = map (fun chunk =>
                Some (json_of_text
                        (fst (anonymize (mkAnonymizer (py "k1"))
                                (Some chunk)))))
             chunks
    /\ map (field "entities") records
       = map (fun chunk =>
                Some (JList (map json_of_entity
                               (snd (anonymize (mkAnonymizer (py "k1"))
                                       (Some chunk))))))
             chunks.
Proof.
  apply (pdf_page_chunked_then_anonymized one_page_pdf (example_config 20));
    [simpl; lia | reflexivity].
Defined.

(** C9 as stated fails: the page is split before it is anonymised, so
    the pieces of a number cut by the split are written as they are,
    while the anonymised page, split, would hold the token. *)
Lemma pdf_page_not_chunk_after_anonymize :
  stream_fields "text"
    (written (ingest false [one_page_pdf] example_output (Some (py "k1"))
                None false 20))
  = [Some (JStr (py "My SSN is 123-45-678")); Some (JStr (py "9"))]
  /\ chunk_after_anonymize (mkAnonymizer (py "k1")) 20
       (py "My SSN is 123-45-6789")
     = Some [py "My SSN is <SSN:54c61"; py "de285ee35cc>"].
Proof. split; vm_compute; reflexivity. Qed.

Lemma excel_records_reach_threshold_witness :
  process_lines broken_workbook (example_config 10) (mkAnonymizer (py "k1"))
    (py "00") (Yield (py "S | C1:hello world") Stop) [] 0 0
    (__enter__ example_output)
  = process_lines broken_workbook (example_config 10)
      (mkAnonymizer (py "k1")) (py "00") Stop [] 0 1
      (write_all
         (records_of broken_workbook (mkAnonymizer (py "k1")) (py "00")
            (py "excel") JNull 0 [py "S | C1:hello world"])
         (__enter__ example_output)).
Proof.
  apply (proj1 (proj2 (excel_records_reach_threshold broken_workbook
                         (example_config 10) (mkAnonymizer (py "k1"))
                         (py "00") Stop)));
    [reflexivity | vm_compute; discriminate].
Defined.

(** * Further properties *)

(** ** The chunker keeps the text *)

Lemma nonblanks_app (a b : list str) :
  nonblanks (a ++ b) = nonblanks a ++ nonblanks b.
Proof. unfold nonblanks. rewrite map_app, concat_app. reflexivity. Qed.

Lemma nonblanks_one (p : str) : nonblanks [p] = filter nonblank p.
Proof. unfold nonblanks. simpl. apply app_nil_r. Qed.

Lemma filter_nonblank_join (sep : str) (parts : list str) :
  forallb isspace sep = true ->
  filter nonblank (join sep parts) = nonblanks parts.
Proof.
  intros Hs. induction parts as [|a parts IH]; [reflexivity|].
  destruct parts as [|b parts].
  - simpl join. rewrite nonblanks_one. reflexivity.
  - rewrite join_cons2, !filter_app, IH, (filter_nonblank_blanks sep Hs).
    reflexivity.
Qed.

Lemma strip_empty_no_nonblank (p : str) :
  strip p = [] -> filter nonblank p = [].
Proof. intros E. rewrite <- filter_nonblank_strip, E. reflexivity. Qed.

Lemma nonblanks_stripped_parts (parts : list str) :
  nonblanks (map strip (filter (fun p => truthy (strip p)) parts))
  = nonblanks parts.
Proof.
  unfold nonblanks. induction parts as [|p parts IH]; [reflexivity|].
  cbn [filter]. destruct (truthy (strip p)) eqn:T.
  - cbn [map concat]. rewrite filter_nonblank_strip, IH. reflexivity.
  - apply truthy_false in T. cbn [map concat].
    rewrite (strip_empty_no_nonblank p T), IH. reflexivity.
Qed.

(** The paragraphs hold the characters of the text that are not blanks. *)
Lemma nonblanks_paragraphs_of (text : str) :
  nonblanks (paragraphs_of text) = filter nonblank text.
Proof.
  unfold paragraphs_of. rewrite nonblanks_stripped_parts.
  set (t := replace [CR] [LF] (replace [CR; LF] [LF] text)).
  pose proof (filter_nonblank_split [LF; LF] ltac:(discriminate) eq_refl
                (length t) [] t (le_n _)) as S.
  simpl rev in S. rewrite app_nil_l in S. unfold nonblanks, split.
  rewrite S. subst t. unfold replace.
  rewrite !filter_nonblank_replace by reflexivity. reflexivity.
Qed.

Lemma held_flush (st : chunker) :
  held (flush st) = held st /\ current (flush st) = [].
Proof.
  split; [|apply flush_current]. unfold flush, held.
  destruct (truthy (current st)) eqn:T; [|reflexivity].
  pose proof (filter_nonblank_join [LF; LF] (current st) eq_refl) as J.
  rewrite <- filter_nonblank_strip in J.
  destruct (truthy (strip (join [LF; LF] (current st)))) eqn:Y;
    cbn [yielded current yield]; change (nonblanks []) with (@nil ascii).
  - rewrite nonblanks_app, nonblanks_one, J, app_nil_r. reflexivity.
  - apply truthy_false in Y. rewrite Y in J. cbn [filter] in J.
    rewrite <- J, !app_nil_r. reflexivity.
Qed.

Lemma held_hard_split_step (para : str) (max_chars start : Z) (st : chunker) :
  let piece := slice para start (Z.min (start + max_chars) (len para)) in
  held (if truthy (strip piece) then
          yield piece (if truthy (current st) then flush st else st)
        else st)
  = held st ++ filter nonblank piece.
Proof.
  intros piece. destruct (truthy (strip piece)) eqn:T.
  - assert (E : exists st2, (if truthy (current st) then flush st else st) = st2
                            /\ held st2 = held st /\ current st2 = []).
    { destruct (truthy (current st)) eqn:C.
      - exists (flush st). split; [reflexivity | apply held_flush].
      - exists st. apply truthy_false in C. auto. }
    destruct E as (st2 & E & H2 & C2). rewrite E. rewrite <- H2.
    unfold held, yield. cbn [yielded current].
    rewrite C2, nonblanks_app, nonblanks_one.
    change (nonblanks []) with (@nil ascii). rewrite !app_nil_r. reflexivity.
  - apply truthy_false in T. rewrite (strip_empty_no_nonblank piece T).
    rewrite app_nil_r. reflexivity.
Qed.

Lemma held_hard_split (para : str) (max_chars : Z) :
  1 <= max_chars ->
  forall fuel start st st',
    0 <= start ->
    hard_split fuel para max_chars start st = Some st' ->
    held st' = held st ++ filter nonblank (skipn (Z.to_nat start) para).
Proof.
  intros Hm. induction fuel as [|fuel IH]; intros start st st' Hs H.
  - rewrite hard_split_O in H. destruct (start <? len para) eqn:E;
      [discriminate|].
    inversion H. subst st'. rewrite skipn_all2 by (unfold len in *; lia).
    rewrite app_nil_r. reflexivity.
  - rewrite hard_split_S in H. destruct (start <? len para) eqn:E.
    + cbv zeta in H. apply IH in H; [|lia]. rewrite H.
      rewrite held_hard_split_step, <- app_assoc, <- filter_app. f_equal.
      f_equal. rewrite slice_inside by lia.
      set (e := Z.min (start + max_chars) (len para)).
      replace (Z.to_nat e) with (Z.to_nat (e - start) + Z.to_nat start)%nat
        by lia.
      rewrite <- skipn_skipn. apply firstn_skipn.
    + inversion H. subst st'. rewrite skipn_all2 by (unfold len in *; lia).
      rewrite app_nil_r. reflexivity.
Qed.

Lemma held_chunk_para fuel max_chars para st st' :
  1 <= max_chars ->
  chunk_para fuel max_chars para st = Some st' ->
  held st' = held st ++ filter nonblank para.
Proof.
  intros Hm H. unfold chunk_para in H.
  destruct (len para >? max_chars).
  - apply held_hard_split in H; [|exact Hm | lia]. exact H.
  - inversion H. subst st'. clear H.
    set (st1 := if _ >? max_chars then flush st else st).
    assert (H1 : held st1 = held st).
    { subst st1. destruct (_ >? max_chars); [apply held_flush | reflexivity]. }
    rewrite <- H1. unfold held. cbn [yielded current].
    rewrite nonblanks_app, nonblanks_one, app_assoc. reflexivity.
Qed.

Lemma held_chunk_paras fuel max_chars :
  1 <= max_chars ->
  forall paragraphs st st',
    chunk_paras fuel max_chars paragraphs st = Some st' ->
    held st' = held st ++ nonblanks paragraphs.
Proof.
  intros Hm. induction paragraphs as [|p ps IH]; intros st st' H.
  - inversion H. unfold nonblanks. simpl. rewrite app_nil_r. reflexivity.
  - cbn [chunk_paras] in H.
    destruct (chunk_para fuel max_chars p st) as [st1|] eqn:E; [|discriminate].
    rewrite (IH _ _ H), (held_chunk_para _ _ _ _ _ Hm E).
    change (p :: ps) with ([p] ++ ps).
    rewrite nonblanks_app, nonblanks_one, app_assoc. reflexivity.
Qed.

Lemma chunk_text_nonblanks_kept (text : str) (max_chars : Z)
    (chunks : list str) :
  1 <= max_chars -> chunk_text text max_chars = Some chunks ->
  nonblanks chunks = filter nonblank text.
Proof.
  intros Hm H. unfold chunk_text, chunk_text_fuel in H.
  destruct (truthy text) eqn:T.
  - destruct (chunk_paras _ _ _ _) as [st|] eqn:P; [|discriminate].
    apply (held_chunk_paras _ _ Hm) in P. unfold held at 2 in P.
    cbn [yielded current] in P. change (nonblanks []) with (@nil ascii) in P.
    cbn [app] in P.
    rewrite nonblanks_paragraphs_of in P. rewrite <- P.
    inversion H. unfold held. destruct (truthy (current st)) eqn:C.
    + rewrite nonblanks_app, nonblanks_one, filter_nonblank_strip.
      rewrite filter_nonblank_join by reflexivity. reflexivity.
    + apply truthy_false in C. rewrite C.
      change (nonblanks []) with (@nil ascii). rewrite app_nil_r.
      reflexivity.
  - apply truthy_false in T. subst text. inversion H. reflexivity.
Qed.

(** X1: for [max_chars >= 1] the chunks hold the characters of the text
    that are not whitespace, all of them, once each and in the order of
    the text: the chunker only drops and rewrites whitespace. *)
Theorem chunk_text_keeps_nonblanks (text : str) (max_chars : Z) :
  1 <= max_chars ->
  exists chunks,
    chunk_text text max_chars = Some chunks
    /\ nonblanks chunks = filter nonblank text.
Proof.
  intros Hm. destruct (chunk_text_total text max_chars Hm) as (chunks & E).
  exists chunks. split; [exact E|].
  eapply chunk_text_nonblanks_kept; eassumption.
Qed.

Lemma chunk_text_keeps_nonblanks_witness :
  exists chunks,
    chunk_text
      (py "ab" ++ [LF; LF] ++ py "cd" ++ [LF; LF] ++ py "0123    4567X") 4
    = Some chunks
    /\ nonblanks chunks
       = filter nonblank
           (py "ab" ++ [LF; LF] ++ py "cd" ++ [LF; LF]
            ++ py "0123    4567X").
Proof. apply chunk_text_keeps_nonblanks. lia. Defined.

(** ** No chunk is blank *)

Lemma existsb_nonblank_head (p : str) :
  nonblank_head p -> existsb nonblank p = true.
Proof.
  intros (c & t & E & Hc). subst p. simpl. unfold nonblank at 1.
  rewrite Hc. reflexivity.
Qed.

Lemma truthy_strip_nonblank (p : str) :
  truthy (strip p) = true -> existsb nonblank p = true.
Proof.
  intros T. destruct (strip p) as [|c t] eqn:E; [discriminate|].
  pose proof (strip_head p c t E) as Hc.
  destruct (strip_decompose p) as (l & r & D & _ & _). rewrite D, E.
  rewrite existsb_app. replace (existsb nonblank ((c :: t) ++ r)) with true;
    [apply orb_true_r|].
  simpl. unfold nonblank at 1. rewrite Hc. reflexivity.
Qed.

Lemma join_nonblank_head (sep : str) (p : str) (ps : list str) :
  nonblank_head p -> nonblank_head (join sep (p :: ps)).
Proof.
  intros (c & t & E & Hc). subst p. destruct ps as [|q ps].
  - exists c, t. auto.
  - rewrite join_cons2. exists c. eexists. split; [reflexivity | exact Hc].
Qed.

Lemma strip_nonblank_head (p : str) :
  nonblank_head p -> existsb nonblank (strip p) = true.
Proof.
  intros (c & t & E & Hc). subst p.
  pose proof (strip_truthy_head c t Hc) as T.
  destruct (strip (c :: t)) as [|d u] eqn:S; [discriminate|].
  apply existsb_nonblank_head. exists d, u. split; [reflexivity|].
  eapply strip_head. exact S.
Qed.

Lemma flush_nonblank (st : chunker) :
  chunker_nonblank st -> chunker_nonblank (flush st).
Proof.
  intros [Hy Hc]. unfold flush.
  destruct (truthy (current st)) eqn:T; [|split; assumption].
  split; [|constructor]. cbn [yielded].
  destruct (truthy (strip _)) eqn:Y; cbn [yielded yield]; [|exact Hy].
  apply Forall_app. split; [exact Hy|]. constructor; [|constructor].
  destruct (current st) as [|p ps]; [discriminate|].
  inversion Hc; subst. apply strip_nonblank_head, join_nonblank_head.
  assumption.
Qed.

Lemma hard_split_nonblank (para : str) (max_chars : Z) :
  forall fuel start st st',
    hard_split fuel para max_chars start st = Some st' ->
    chunker_nonblank st -> chunker_nonblank st'.
Proof.
  induction fuel as [|fuel IH]; intros start st st' H Hok.
  - rewrite hard_split_O in H. destruct (start <? len para); [discriminate|].
    inversion H. subst. exact Hok.
  - rewrite hard_split_S in H. destruct (start <? len para).
    + cbv zeta in H. eapply IH; [exact H|].
      destruct (truthy (strip _)) eqn:T; [|exact Hok].
      assert (Hok2 : chunker_nonblank
                       (if truthy (current st) then flush st else st)).
      { destruct (truthy (current st)); [apply flush_nonblank|]; exact Hok. }
      destruct Hok2 as [Hy Hc]. split; cbn [yielded current yield]; [|exact Hc].
      apply Forall_app. split; [exact Hy|]. constructor; [|constructor].
      apply truthy_strip_nonblank. exact T.
    + inversion H. subst. exact Hok.
Qed.

Lemma chunk_paras_nonblank fuel max_chars :
  forall paragraphs st st',
    Forall nonblank_head paragraphs ->
    chunk_paras fuel max_chars paragraphs st = Some st' ->
    chunker_nonblank st -> chunker_nonblank st'.
Proof.
  induction paragraphs as [|p ps IH]; intros st st' Hall H Hok.
  - inversion H. subst. exact Hok.
  - inversion Hall as [|? ? Hp Hps]; subst. cbn [chunk_paras] in H.
    destruct (chunk_para fuel max_chars p st) as [st1|] eqn:E; [|discriminate].
    apply (IH st1 st' Hps H). unfold chunk_para in E.
    destruct (len p >? max_chars).
    + eapply hard_split_nonblank; eauto.
    + inversion E. subst st1. clear E.
      set (st0 := if _ >? max_chars then flush st else st).
      assert (H0 : chunker_nonblank st0).
      { subst st0. destruct (_ >? max_chars); [apply flush_nonblank|];
          exact Hok. }
      destruct H0 as [Hy Hc]. split; cbn [yielded current]; [exact Hy|].
      apply Forall_app. split; [exact Hc|]. constructor; [exact Hp|constructor].
Qed.

Lemma chunk_text_fuel_not_blank (fuel : nat) (text : str)
    (max_chars : Z) (chunks : list str) :
  chunk_text_fuel fuel text max_chars = Some chunks ->
  Forall (fun chunk => existsb nonblank chunk = true) chunks.
Proof.
  intros H. unfold chunk_text_fuel in H. destruct (truthy text).
  - destruct (chunk_paras _ _ _ _) as [st|] eqn:P; [|discriminate].
    apply chunk_paras_nonblank in P.
    + destruct P as [Hy Hc]. inversion H.
      destruct (truthy (current st)) eqn:C; [|exact Hy].
      apply Forall_app. split; [exact Hy|]. constructor; [|constructor].
      destruct (current st) as [|p ps]; [discriminate|].
      inversion Hc; subst. apply strip_nonblank_head, join_nonblank_head.
      assumption.
    + apply paragraphs_of_head.
    + split; constructor.
  - inversion H. constructor.
Qed.

(** X2: for [max_chars >= 1] no chunk is empty or made of whitespace
    only: every chunk that [chunk_text] yields has a character that is
    not whitespace. *)
Theorem chunk_text_chunks_not_blank (text : str) (max_chars : Z) :
  1 <= max_chars ->
  exists chunks,
    chunk_text text max_chars = Some chunks
    /\ Forall (fun chunk => existsb nonblank chunk = true) chunks.
Proof.
  intros Hm. destruct (chunk_text_total text max_chars Hm) as (chunks & E).
  exists chunks. split; [exact E|].
  eapply chunk_text_fuel_not_blank. exact E.
Qed.

Lemma chunk_text_chunks_not_blank_witness :
  exists chunks,
    chunk_text
      (py "ab" ++ [LF; LF] ++ py "cd" ++ [LF; LF] ++ py "0123    4567X") 4
    = Some chunks
    /\ Forall (fun chunk => existsb nonblank chunk = true) chunks.
Proof. apply chunk_text_chunks_not_blank. lia. Defined.

(** ** Texts without anything to chunk, and limits that cannot be met *)

Lemma paragraphs_of_blank (text : str) :
  existsb nonblank text = false -> paragraphs_of text = [].
Proof.
  intros H. pose proof (nonblanks_paragraphs_of text) as N.
  pose proof (paragraphs_of_head text) as Hh.
  destruct (paragraphs_of text) as [|p ps]; [reflexivity|].
  exfalso. inversion Hh as [|? ? (c & t & E & Hc) _]; subst.
  assert (In c (filter nonblank text)).
  { rewrite <- N. unfold nonblanks. cbn [map concat filter].
    unfold nonblank at 1. rewrite Hc. left. reflexivity. }
  apply filter_In in H0. destruct H0 as [Hin Hnb].
  assert (existsb nonblank text = true)
    by (apply existsb_exists; exists c; auto).
  congruence.
Qed.

(** X3: a text without a character other than whitespace (the empty
    text included) gives no chunk at all, for every [max_chars], also
    zero or negative ones. *)
Theorem chunk_text_blank_text (fuel : nat) (text : str) (max_chars : Z) :
  existsb nonblank text = false ->
  chunk_text_fuel fuel text max_chars = Some [].
Proof.
  intros H. unfold chunk_text_fuel. destruct (truthy text); [|reflexivity].
  rewrite (paragraphs_of_blank text H). reflexivity.
Qed.

Lemma chunk_text_blank_text_witness :
  chunk_text_fuel 0 ([LF; CR] ++ py "   " ++ [LF; LF]) (-5) = Some [].
Proof. apply chunk_text_blank_text. reflexivity. Defined.

(** X4: with [max_chars <= 0] and a text that has a character other than
    whitespace, [chunk_text] never comes to its end: the hard-split loop
    of the first paragraph does not move forward, whatever fuel it is
    given. *)
Theorem chunk_text_never_ends (fuel : nat) (text : str) (max_chars : Z) :
  max_chars <= 0 -> existsb nonblank text = true ->
  chunk_text_fuel fuel text max_chars = None.
Proof.
  intros Hm Hnb. unfold chunk_text_fuel.
  destruct (truthy text) eqn:T.
  2:{ apply truthy_false in T. subst text. discriminate. }
  pose proof (paragraphs_of_nonempty text Hnb) as Hne.
  pose proof (paragraphs_of_spec text) as Hs.
  destruct (paragraphs_of text) as [|p ps]; [congruence|].
  inversion Hs as [|? ? [_ Hp] _]; subst. apply truthy_len in Hp.
  cbn [chunk_paras]. unfold chunk_para.
  destruct (len p >? max_chars) eqn:G; [|lia].
  rewrite hard_split_never_ends by lia. reflexivity.
Qed.

Lemma chunk_text_never_ends_witness :
  chunk_text_fuel 1000 (py "some text") 0 = None.
Proof. apply chunk_text_never_ends; [lia | reflexivity]. Defined.

(** ** Line endings *)

Lemma forallb_strip (p : ascii -> bool) (s : str) :
  forallb p s = true -> forallb p (strip s) = true.
Proof.
  intros H. destruct (strip_decompose s) as (l & r & E & _ & _).
  rewrite E, !forallb_app in H.
  apply andb_true_iff in H. destruct H as [_ H].
  apply andb_true_iff in H. tauto.
Qed.

Lemma flush_all (p : ascii -> bool) (st : chunker) :
  p LF = true -> chunker_all p st -> chunker_all p (flush st).
Proof.
  intros Hp [Hy Hc]. unfold flush.
  destruct (truthy (current st)); [|split; assumption].
  split; [|constructor]. cbn [yielded].
  destruct (truthy (strip _)); cbn [yielded yield]; [|exact Hy].
  apply Forall_app. split; [exact Hy|]. constructor; [|constructor].
  apply forallb_strip, join_forallb; [|exact Hc]. simpl. rewrite Hp.
  reflexivity.
Qed.

Lemma hard_split_all (p : ascii -> bool) (para : str) (max_chars : Z) :
  p LF = true -> forallb p para = true ->
  forall fuel start st st',
    hard_split fuel para max_chars start st = Some st' ->
    chunker_all p st -> chunker_all p st'.
Proof.
  intros Hp Hpara. induction fuel as [|fuel IH]; intros start st st' H Hok.
  - rewrite hard_split_O in H. destruct (start <? len para); [discriminate|].
    inversion H. subst. exact Hok.
  - rewrite hard_split_S in H. destruct (start <? len para).
    + cbv zeta in H. eapply IH; [exact H|].
      destruct (truthy (strip _)); [|exact Hok].
      assert (Hok2 : chunker_all p
                       (if truthy (current st) then flush st else st)).
      { destruct (truthy (current st)); [apply flush_all|]; assumption. }
      destruct Hok2 as [Hy Hc]. split; cbn [yielded current yield]; [|exact Hc].
      apply Forall_app. split; [exact Hy|]. constructor; [|constructor].
      apply forallb_slice. exact Hpara.
    + inversion H. subst. exact Hok.
Qed.

Lemma chunk_paras_all (p : ascii -> bool) fuel max_chars :
  p LF = true ->
  forall paragraphs st st',
    Forall (fun para => forallb p para = true) paragraphs ->
    chunk_paras fuel max_chars paragraphs st = Some st' ->
    chunker_all p st -> chunker_all p st'.
Proof.
  intros Hp. induction paragraphs as [|q ps IH]; intros st st' Hall H Hok.
  - inversion H. subst. exact Hok.
  - inversion Hall as [|? ? Hq Hps]; subst. cbn [chunk_paras] in H.
    destruct (chunk_para fuel max_chars q st) as [st1|] eqn:E; [|discriminate].
    apply (IH st1 st' Hps H). unfold chunk_para in E.
    destruct (len q >? max_chars).
    + eapply hard_split_all; eauto.
    + inversion E. subst st1. clear E.
      set (st0 := if _ >? max_chars then flush st else st).
      assert (H0 : chunker_all p st0).
      { subst st0. destruct (_ >? max_chars); [apply flush_all|]; assumption. }
      destruct H0 as [Hy Hc]. split; cbn [yielded current]; [exact Hy|].
      apply Forall_app. split; [exact Hc|]. constructor; [exact Hq|constructor].
Qed.

(** The chunks are made of characters of the paragraphs and of line
    feeds. *)
Lemma chunk_text_all (p : ascii -> bool) (fuel : nat) (text : str)
    (max_chars : Z) (chunks : list str) :
  p LF = true ->
  Forall (fun para => forallb p para = true) (paragraphs_of text) ->
  chunk_text_fuel fuel text max_chars = Some chunks ->
  Forall (fun chunk => forallb p chunk = true) chunks.
Proof.
  intros Hp Hall H. unfold chunk_text_fuel in H. destruct (truthy text).
  - destruct (chunk_paras _ _ _ _) as [st|] eqn:P; [|discriminate].
    apply (chunk_paras_all p _ _ Hp _ _ _ Hall) in P; [|split; constructor].
    destruct P as [Hy Hc]. inversion H.
    destruct (truthy (current st)); [|exact Hy].
    apply Forall_app. split; [exact Hy|]. constructor; [|constructor].
    apply forallb_strip, join_forallb; [|exact Hc]. simpl. rewrite Hp.
    reflexivity.
  - inversion H. constructor.
Qed.

Lemma replace_CR_all (fuel : nat) (s : str) :
  (length s <= fuel)%nat ->
  forallb not_CR (replace_from fuel [CR] [LF] s) = true.
Proof.
  revert s. induction fuel as [|fuel IH]; intros s Hf.
  - destruct s; [reflexivity | simpl in Hf; lia].
  - destruct s as [|c s]; [reflexivity|]. cbn [replace_from startswith].
    simpl in Hf. destruct (ascii_eqb CR c) eqn:E; cbn [andb].
    + cbn [length skipn app forallb]. rewrite IH by lia. reflexivity.
    + cbn [forallb]. rewrite IH by lia. unfold not_CR.
      unfold ascii_eqb in *. rewrite Ascii.eqb_sym, E. reflexivity.
Qed.

Lemma split_from_all (p : ascii -> bool) (sep : str) :
  forall fuel cur s,
    forallb p cur = true -> forallb p s = true ->
    Forall (fun part => forallb p part = true) (split_from fuel sep cur s).
Proof.
  assert (R : forall cur, forallb p cur = true -> forallb p (rev cur) = true)
    by (intros; now apply forallb_rev).
  induction fuel as [|fuel IH]; intros cur s Hc Hs; cbn [split_from].
  - constructor; auto.
  - destruct s as [|c s]; [constructor; auto|].
    destruct (startswith sep (c :: s)).
    + constructor; [auto|]. apply IH; [reflexivity|].
      rewrite <- (firstn_skipn (length sep) (c :: s)), forallb_app in Hs.
      apply andb_true_iff in Hs. tauto.
    + cbn [forallb] in Hs. apply andb_true_iff in Hs. destruct Hs as [H1 H2].
      apply IH; [|exact H2]. cbn [forallb]. rewrite H1, Hc. reflexivity.
Qed.

Lemma chunk_text_fuel_no_CR (fuel : nat) (text : str)
    (max_chars : Z) (chunks : list str) :
  chunk_text_fuel fuel text max_chars = Some chunks ->
  Forall (fun chunk => forallb not_CR chunk = true) chunks.
Proof.
  apply chunk_text_all; [reflexivity|].
  unfold paragraphs_of. apply Forall_forall. intros q Hq.
  apply in_map_iff in Hq. destruct Hq as (part & E & Hin). subst q.
  apply filter_In in Hin. destruct Hin as [Hin _].
  apply forallb_strip.
  pose proof (split_from_all not_CR [LF; LF]
                (length (replace [CR] [LF] (replace [CR; LF] [LF] text))) []
                (replace [CR] [LF] (replace [CR; LF] [LF] text)) eq_refl) as S.
  rewrite Forall_forall in S. apply S; [|exact Hin].
  apply replace_CR_all. apply le_n.
Qed.

(** X5: for [max_chars >= 1] no chunk holds a carriage return: [\r\n]
    and [\r] are turned into line feeds before the text is split, and
    nothing brings one back. *)
Theorem chunk_text_no_carriage_return (text : str) (max_chars : Z) :
  1 <= max_chars ->
  exists chunks,
    chunk_text text max_chars = Some chunks
    /\ Forall (fun chunk => forallb not_CR chunk = true) chunks.
Proof.
  intros Hm. destruct (chunk_text_total text max_chars Hm) as (chunks & E).
  exists chunks. split; [exact E|].
  eapply chunk_text_fuel_no_CR. exact E.
Qed.

Lemma chunk_text_no_carriage_return_witness :
  exists chunks,
    chunk_text (py "a" ++ [CR; LF] ++ py "b" ++ [CR; CR] ++ py "c") 3
    = Some chunks
    /\ Forall (fun chunk => forallb not_CR chunk = true) chunks.
Proof. apply chunk_text_no_carriage_return. lia. Defined.

(** ** A text that fits in one chunk *)

Lemma strip_last (s : str) : strip s <> [] -> nonblank_last (strip s).
Proof.
  unfold strip, rstrip. intros H.
  destruct (lstrip (rev (lstrip s))) as [|c t] eqn:E; [contradiction|].
  exists (rev t), c. split; [reflexivity|]. eapply lstrip_head. exact E.
Qed.

(** [strip] leaves alone a string with no blank at either end. *)
Lemma strip_fixed (s : str) :
  nonblank_head s -> nonblank_last s -> strip s = s.
Proof.
  intros (c & t & E & Hc) (u & d & F & Hd). unfold strip, rstrip.
  assert (L : lstrip s = s) by (subst s; simpl; rewrite Hc; reflexivity).
  rewrite L. rewrite F at 1. rewrite rev_app_distr. simpl.
  rewrite Hd. simpl. rewrite rev_involutive. symmetry. exact F.
Qed.

Lemma join_app (sep : str) (a b : list str) :
  a <> [] -> b <> [] ->
  join sep (a ++ b) = join sep a ++ sep ++ join sep b.
Proof.
  intros Ha Hb. induction a as [|x a IH]; [congruence|].
  destruct a as [|y a].
  - destruct b as [|z b]; [congruence|]. reflexivity.
  - change ((x :: y :: a) ++ b) with (x :: (y :: a) ++ b).
    change ((y :: a) ++ b) with (y :: a ++ b).
    rewrite join_cons2. change (y :: a ++ b) with ((y :: a) ++ b).
    rewrite IH by discriminate. rewrite join_cons2, <- !app_assoc.
    reflexivity.
Qed.

Lemma join_nonblank_last (sep : str) (ps : list str) :
  ps <> [] -> Forall nonblank_last ps -> nonblank_last (join sep ps).
Proof.
  intros Hne Hall. destruct (exists_last Hne) as (l & p & E). subst ps.
  apply Forall_app in Hall. destruct Hall as [_ Hp].
  inversion Hp as [|? ? (t & c & F & Hc) _]; subst.
  rewrite join_snoc. destruct l as [|x l].
  - exists t, c. auto.
  - exists (join sep (x :: l) ++ sep ++ t), c.
    rewrite <- !app_assoc. auto.
Qed.

Lemma paragraphs_of_last (text : str) :
  Forall nonblank_last (paragraphs_of text).
Proof.
  apply Forall_forall. intros p Hp. unfold paragraphs_of in Hp.
  apply in_map_iff in Hp. destruct Hp as (q & E & Hq).
  apply filter_In in Hq. destruct Hq as [_ Ht]. subst p.
  apply strip_last. apply truthy_true. exact Ht.
Qed.

Lemma join_len_prefix (sep : str) (a b : list str) :
  len (join sep a) <= len (join sep (a ++ b)).
Proof.
  destruct a as [|x a]; [simpl; apply len_nonneg|].
  destruct b as [|y b]; [rewrite app_nil_r; lia|].
  rewrite join_app by discriminate. rewrite !len_app.
  pose proof (len_nonneg sep). pose proof (len_nonneg (join sep (y :: b))).
  lia.
Qed.

(** A paragraph that still fits is put in the buffer, and nothing is
    yielded. *)
Lemma chunk_para_buffered fuel max_chars para st :
  chunker_ok max_chars st -> truthy para = true ->
  len (join [LF; LF] (current st ++ [para])) <= max_chars ->
  chunk_para fuel max_chars para st
  = Some (mkChunker (current st ++ [para])
            (len (join [LF; LF] (current st ++ [para]))) (yielded st)).
Proof.
  intros Hok Hp Hfit. pose proof (chunker_ok_len_pos _ _ Hok) as Hpos.
  destruct Hok as (Hy & Hne & Hlen & Hle).
  assert (E : len (join [LF; LF] (current st ++ [para]))
              = current_len st + len para
                + (if truthy (current st) then 2 else 0)).
  { rewrite join_snoc, Hlen. destruct (current st) as [|a l].
    - cbn [truthy join]. unfold len at 2. simpl. lia.
    - cbn [truthy]. rewrite !len_app. change (len [LF; LF]) with 2. lia. }
  unfold chunk_para.
  assert (Hl : len para <= max_chars).
  { pose proof (len_nonneg (join [LF; LF] (current st))).
    destruct (truthy (current st)); lia. }
  destruct (len para >? max_chars) eqn:G; [lia|].
  destruct (current_len st + len para
            + (if truthy (current st) then 2 else 0) >? max_chars) eqn:F;
    [lia|].
  rewrite Hpos, E. reflexivity.
Qed.

Lemma chunk_paras_buffered fuel max_chars :
  forall paragraphs st,
    chunker_ok max_chars st ->
    Forall (fun p => truthy p = true) paragraphs ->
    len (join [LF; LF] (current st ++ paragraphs)) <= max_chars ->
    exists n,
      chunk_paras fuel max_chars paragraphs st
      = Some (mkChunker (current st ++ paragraphs) n (yielded st)).
Proof.
  induction paragraphs as [|p ps IH]; intros st Hok Hall Hfit.
  - exists (current_len st). rewrite app_nil_r. destruct st; reflexivity.
  - inversion Hall as [|? ? Hp Hps]; subst.
    assert (Hfit1 : len (join [LF; LF] (current st ++ [p])) <= max_chars).
    { pose proof (join_len_prefix [LF; LF] (current st ++ [p]) ps) as L.
      replace ((current st ++ [p]) ++ ps) with (current st ++ p :: ps) in L
        by (rewrite <- app_assoc; reflexivity).
      lia. }
    cbn [chunk_paras]. rewrite chunk_para_buffered by assumption.
    destruct Hok as (Hy & Hne & Hlen & Hle).
    destruct (IH (mkChunker (current st ++ [p])
                    (len (join [LF; LF] (current st ++ [p]))) (yielded st)))
      as (n & E).
    + repeat split; cbn [yielded current current_len]; auto.
      apply Forall_app. split; auto.
    + exact Hps.
    + cbn [current]. rewrite <- app_assoc. exact Hfit.
    + cbn [current yielded] in E. rewrite <- app_assoc in E. eauto.
Qed.

(** X6: a text whose paragraphs, trimmed and joined by blank lines, fit
    in [max_chars] comes back as one chunk, which is that join. *)
Theorem chunk_text_fits_in_one_chunk (text : str) (max_chars : Z) :
  paragraphs_of text <> [] ->
  len (join [LF; LF] (paragraphs_of text)) <= max_chars ->
  chunk_text text max_chars = Some [join [LF; LF] (paragraphs_of text)].
Proof.
  intros Hne Hfit. unfold chunk_text, chunk_text_fuel.
  destruct (truthy text) eqn:T.
  2:{ apply truthy_false in T. subst text. exfalso. apply Hne. reflexivity. }
  destruct (chunk_paras_buffered (S (length text)) max_chars
              (paragraphs_of text) (mkChunker [] 0 []))
    as (n & E).
  - repeat split; cbn; auto.
    pose proof (len_nonneg (join [LF; LF] (paragraphs_of text))). lia.
  - eapply Forall_impl; [|apply paragraphs_of_spec]. cbv beta. tauto.
  - exact Hfit.
  - rewrite E. cbn [current yielded app].
    replace (truthy (paragraphs_of text)) with true
      by (symmetry; apply truthy_true; exact Hne).
    rewrite strip_fixed; [reflexivity | |].
    + destruct (paragraphs_of text) as [|p ps] eqn:P; [congruence|].
      apply join_nonblank_head.
      pose proof (paragraphs_of_head text) as Hh. rewrite P in Hh.
      inversion Hh. assumption.
    + apply join_nonblank_last; [exact Hne | apply paragraphs_of_last].
Qed.

Lemma chunk_text_fits_in_one_chunk_witness :
  chunk_text ([CR; LF] ++ py " first  " ++ [CR; LF; CR; LF; LF]
              ++ py "second" ++ [LF]) 20
  = Some [join [LF; LF]
            (paragraphs_of ([CR; LF] ++ py " first  " ++ [CR; LF; CR; LF; LF]
                            ++ py "second" ++ [LF]))].
Proof.
  apply chunk_text_fits_in_one_chunk; [discriminate | vm_compute; discriminate].
Defined.

(** ** A long text without whitespace *)

Lemma hard_split_pieces (para : str) (max_chars : Z) :
  forallb nonblank para = true -> 1 <= max_chars ->
  forall fuel start ys,
    0 <= start -> (Z.to_nat (len para - start) < fuel)%nat ->
    exists pieces,
      hard_split fuel para max_chars start (mkChunker [] 0 ys)
      = Some (mkChunker [] 0 (ys ++ pieces))
      /\ concat pieces = skipn (Z.to_nat start) para
      /\ Forall (fun c => len c = max_chars) (removelast pieces)
      /\ Forall (fun c => 1 <= len c <= max_chars) pieces
      /\ (len para <= start -> pieces = []).
Proof.
  intros Hnb Hm. induction fuel as [|fuel IH]; intros start ys Hs Hf; [lia|].
  destruct (start <? len para) eqn:E.
  - apply Z.ltb_lt in E.
    rewrite hard_split_step_no_blank by (try assumption; lia).
    set (e := Z.min (start + max_chars) (len para)).
    destruct (IH e (ys ++ [slice para start e]) ltac:(lia) ltac:(lia))
      as (pieces & H & Hc & Hl & Hb & He).
    exists (slice para start e :: pieces).
    assert (L : len (slice para start e) = e - start)
      by (apply slice_inside_len; lia).
    split; [|split; [|split; [|split]]].
    + rewrite H, <- app_assoc. reflexivity.
    + cbn [concat]. rewrite Hc, slice_inside by lia.
      replace (Z.to_nat e) with (Z.to_nat (e - start) + Z.to_nat start)%nat
        by lia.
      rewrite <- skipn_skipn. apply firstn_skipn.
    + destruct pieces as [|q pieces]; [constructor|].
      change (removelast (slice para start e :: q :: pieces))
        with (slice para start e :: removelast (q :: pieces)).
      constructor; [|exact Hl].
      assert (e < len para).
      { destruct (Z_lt_le_dec e (len para)); [assumption|].
        specialize (He l). discriminate. }
      lia.
    + constructor; [lia | exact Hb].
    + lia.
  - rewrite hard_split_S, E. exists []. rewrite app_nil_r.
    apply Z.ltb_ge in E.
    split; [reflexivity|]. split.
    + rewrite skipn_all2 by (unfold len in *; lia). reflexivity.
    + repeat split; constructor.
Qed.

(** X7: a text longer than [max_chars] without any whitespace is cut into
    consecutive pieces that put together give the text back; every piece
    but the last has exactly [max_chars] characters, and the last has
    between 1 and [max_chars]. *)
Theorem chunk_text_hard_split_pieces (text : str) (max_chars : Z) :
  1 <= max_chars -> max_chars < len text -> forallb nonblank text = true ->
  exists chunks,
    chunk_text text max_chars = Some chunks
    /\ concat chunks = text
    /\ Forall (fun c => len c = max_chars) (removelast chunks)
    /\ Forall (fun c => 1 <= len c <= max_chars) chunks.
Proof.
  intros Hm Hlen Hnb.
  assert (Hne : text <> []).
  { intros E. subst text. unfold len in Hlen. simpl in Hlen. lia. }
  destruct (hard_split_pieces text max_chars Hnb Hm (S (length text)) 0 []
              ltac:(lia) ltac:(unfold len; lia))
    as (pieces & H & Hc & Hl & Hb & _).
  exists pieces. split; [|auto].
  unfold chunk_text, chunk_text_fuel.
  replace (truthy text) with true by (symmetry; apply truthy_true; exact Hne).
  rewrite (paragraphs_of_no_blank text Hne Hnb).
  cbn [chunk_paras]. unfold chunk_para.
  destruct (len text >? max_chars) eqn:G; [|lia].
  rewrite H. reflexivity.
Qed.

Lemma chunk_text_hard_split_pieces_witness :
  exists chunks,
    chunk_text (py "abcdefghij") 4 = Some chunks
    /\ concat chunks = py "abcdefghij"
    /\ Forall (fun c => len c = 4) (removelast chunks)
    /\ Forall (fun c => 1 <= len c <= 4) chunks.
Proof.
  apply chunk_text_hard_split_pieces; [lia | vm_compute; reflexivity
                                      | reflexivity].
Defined.

(** ** Matches *)

(** A match goes on with what is left of the input, after at least
    [min_width r] characters. *)
Lemma run_consumes (r : regex) :
  forall prev s k res,
    run r prev s k = Some res ->
    exists p' consumed s',
      s = consumed ++ s' /\ (min_width r <= length consumed)%nat
      /\ k p' s' = Some res.
Proof.
  induction r as [items | r1 IH1 r2 IH2 | r1 IH1 r2 IH2 | r' IH lo hi greedy
                  | | ]; intros prev s k res H.
  - cbn [run] in H. destruct s as [|c s]; [discriminate|].
    destruct (in_set items c); [|discriminate].
    exists (Some c), [c], s. repeat split; auto.
  - cbn [run] in H. apply IH1 in H. destruct H as (p1 & c1 & s1 & E1 & L1 & H).
    apply IH2 in H. destruct H as (p2 & c2 & s2 & E2 & L2 & H).
    exists p2, (c1 ++ c2), s2. subst. rewrite <- app_assoc, length_app.
    cbn [min_width]. repeat split; auto. lia.
  - cbn [run] in H. destruct (run r1 prev s k) as [rest|] eqn:E.
    + inversion H. subst rest. apply IH1 in E.
      destruct E as (p1 & c1 & s1 & E1 & L1 & E).
      exists p1, c1, s1. cbn [min_width]. repeat split; auto. lia.
    + apply IH2 in H. destruct H as (p1 & c1 & s1 & E1 & L1 & H).
      exists p1, c1, s1. cbn [min_width]. repeat split; auto. lia.
  - cbn [run min_width] in *.
    remember (match hi with Some h => h | None => length s end) as budget
      eqn:Hb. clear Hb.
    assert (G : forall budget done prev s,
               (fix loop (budget done : nat) (prev : option ascii) (s : str)
                    {struct budget} : option str :=
                  match budget with
                  | O => if (lo <=? done)%nat then k prev s else None
                  | S budget' =>
                      if greedy then
                        match run r' prev s
                                (fun p s' => loop budget' (S done) p s') with
                        | Some rest => Some rest
                        | None =>
                            if (lo <=? done)%nat then k prev s else None
                        end
                      else
                        match (if (lo <=? done)%nat then k prev s else None)
                        with
                        | Some rest => Some rest
                        | None => run r' prev s
                                    (fun p s' => loop budget' (S done) p s')
                        end
                  end) budget done prev s = Some res ->
               exists p' consumed s',
                 s = consumed ++ s'
                 /\ ((lo - done) * min_width r' <= length consumed)%nat
                 /\ k p' s' = Some res).
    { clear H prev s budget.
      assert (Stop : forall done prev s,
                 (if (lo <=? done)%nat then k prev s else None) = Some res ->
                 exists p' consumed s',
                   s = consumed ++ s'
                   /\ ((lo - done) * min_width r' <= length consumed)%nat
                   /\ k p' s' = Some res).
      { intros done prev s H. destruct (lo <=? done)%nat eqn:E; [|discriminate].
        apply Nat.leb_le in E. exists prev, [], s.
        replace (lo - done)%nat with O by lia. repeat split; auto. }
      induction budget as [|budget IHb]; intros done prev s H.
      - exact (Stop _ _ _ H).
      - assert (More : forall k',
                   (forall p s1, k' p s1 = Some res ->
                      exists p' consumed s',
                        s1 = consumed ++ s'
                        /\ ((lo - S done) * min_width r'
                            <= length consumed)%nat
                        /\ k p' s' = Some res) ->
                   run r' prev s k' = Some res ->
                   exists p' consumed s',
                     s = consumed ++ s'
                     /\ ((lo - done) * min_width r' <= length consumed)%nat
                     /\ k p' s' = Some res).
        { intros k' K R. apply IH in R.
          destruct R as (p1 & c1 & s1 & E1 & L1 & R).
          apply K in R. destruct R as (p2 & c2 & s2 & E2 & L2 & R).
          exists p2, (c1 ++ c2), s2. subst. rewrite <- app_assoc, length_app.
          repeat split; auto. nia. }
        destruct greedy.
        + match type of H with
          | match ?X with _ => _ end = _ => destruct X as [rest|] eqn:R
          end.
          * inversion H. subst rest. revert R. apply More.
            intros p s1 R. exact (IHb _ _ _ R).
          * exact (Stop _ _ _ H).
        + match type of H with
          | match ?X with _ => _ end = _ => destruct X as [rest|] eqn:R
          end.
          * inversion H. subst rest. exact (Stop _ _ _ R).
          * revert H. apply More.
            intros p s1 R'. exact (IHb _ _ _ R'). }
    apply G in H. destruct H as (p1 & c1 & s1 & E1 & L1 & H).
    exists p1, c1, s1. repeat split; auto. rewrite Nat.sub_0_r in L1. exact L1.
  - cbn [run] in H. destruct (xorb _ _); [|discriminate].
    exists prev, [], s. repeat split; auto.
  - cbn [run] in H. exists prev, [], s. cbn [min_width]. repeat split; auto.
    destruct s as [|c [|d s]]; try discriminate; [exact H|].
    destruct (ascii_eqb c LF); [exact H | discriminate].
Qed.

Lemma match_at_consumes (r : regex) (prev : option ascii) (s rest : str) :
  match_at r prev s = Some rest ->
  exists consumed,
    s = consumed ++ rest /\ (min_width r <= length consumed)%nat.
Proof.
  unfold match_at. intros H. apply run_consumes in H.
  destruct H as (p & consumed & s' & E & L & H). inversion H. subst s'.
  exists consumed. split; assumption.
Qed.

Lemma finditer_from_spans (r : regex) :
  (1 <= min_width r)%nat ->
  forall fuel prev pos s,
    spans_from pos (pos + len s) (finditer_from fuel r prev pos s).
Proof.
  intros W. induction fuel as [|fuel IH]; intros prev pos s; [exact I|].
  cbn [finditer_from]. destruct (match_at r prev s) as [rest|] eqn:M.
  - apply match_at_consumes in M. destruct M as (consumed & E & L).
    subst s. rewrite length_app.
    replace (length consumed + length rest - length rest)%nat
      with (length consumed) by lia.
    destruct (length consumed) as [|n] eqn:N; [lia|].
    cbn [spans_from]. unfold len. rewrite length_app, N.
    split; [lia|]. split; [lia|]. split; [lia|].
    specialize (IH (nth_error (consumed ++ rest) (S n - 1))
                  (pos + Z.of_nat (S n)) rest).
    unfold len in IH.
    replace (pos + Z.of_nat (S n + length rest))
      with (pos + Z.of_nat (S n) + Z.of_nat (length rest)) by lia.
    exact IH.
  - destruct s as [|c s]; [exact I|].
    specialize (IH (Some c) (pos + 1) s). unfold len in *.
    cbn [length]. replace (pos + Z.of_nat (S (length s)))
      with (pos + 1 + Z.of_nat (length s)) by lia.
    revert IH. generalize (finditer_from fuel r (Some c) (pos + 1) s).
    intros spans. destruct spans as [|[a b] spans]; [intros; exact I|].
    cbn [spans_from]. intros (H1 & H2 & H3 & H4). repeat split; auto. lia.
Qed.

Lemma spans_from_bounds (pos limit : Z) (spans : list (Z * Z)) :
  spans_from pos limit spans ->
  Forall (fun '(a, b) => pos <= a /\ a < b /\ b <= limit) spans.
Proof.
  revert pos. induction spans as [|[a b] spans IH]; intros pos H;
    [constructor|].
  cbn [spans_from] in H. destruct H as (H1 & H2 & H3 & H4).
  constructor; [auto|]. apply IH in H4.
  eapply Forall_impl; [|exact H4]. intros [a' b']. lia.
Qed.

Lemma PII_PATTERNS_min_width :
  Forall (fun entry => (1 <= min_width (snd entry))%nat) PII_PATTERNS.
Proof.
  unfold PII_PATTERNS. repeat constructor; vm_compute; lia.
Qed.

Lemma pattern_entities_bounds (text : str) (names : list str)
    (patterns : list (str * regex)) :
  Forall (fun entry => (1 <= min_width (snd entry))%nat) patterns ->
  incl (map fst patterns) names ->
  Forall (fun e => 0 <= e_start e /\ e_start e < e_end e
                   /\ e_end e <= len text /\ In (e_type e) names)
         (flat_map (fun '(entity_type, pattern) =>
                      map (fun '(start, end_) =>
                             mkEntity entity_type start end_)
                          (finditer pattern text))
                   patterns).
Proof.
  induction patterns as [|[entity_type pattern] l IH]; intros W T;
    [constructor|].
  cbn [flat_map]. apply Forall_app. inversion W as [|? ? W1 W2]. subst.
  split.
  - pose proof (finditer_from_spans pattern W1 (S (length text)) None 0 text)
      as S.
    apply spans_from_bounds in S. fold (finditer pattern text) in S.
    rewrite Forall_forall in S. apply Forall_forall. intros e He.
    apply in_map_iff in He.
    destruct He as ([a b] & E & He). subst e. specialize (S _ He).
    cbn in S. destruct S as (S1 & S2 & S3).
    cbn [e_start e_end e_type].
    split; [lia|]. split; [lia|]. split; [lia|].
    apply T. left. reflexivity.
  - apply IH; [exact W2|]. intros x Hx. apply T. right. exact Hx.
Qed.

Lemma find_entities_bounds (text : str) :
  Forall (fun e => 0 <= e_start e /\ e_start e < e_end e
                   /\ e_end e <= len text
                   /\ In (e_type e) (map fst PII_PATTERNS))
         (find_entities text).
Proof.
  apply pattern_entities_bounds;
    [apply PII_PATTERNS_min_width | apply incl_refl].
Qed.

(** *** Sorting *)

Lemma sort_insert_perm {A : Type} (key : A -> Z) (reverse : bool) (x : A)
    (l : list A) :
  Permutation (x :: l) (sort_insert key reverse x l).
Proof.
  induction l as [|y l IH]; cbn [sort_insert]; [reflexivity|].
  destruct (if reverse then key x <? key y else key y <? key x);
    [|reflexivity].
  rewrite perm_swap. constructor. exact IH.
Qed.

Lemma sort_by_perm {A : Type} (key : A -> Z) (reverse : bool) (l : list A) :
  Permutation l (sort_by key reverse l).
Proof.
  unfold sort_by. induction l as [|x l IH]; cbn [fold_right]; [reflexivity|].
  rewrite <- sort_insert_perm. constructor. exact IH.
Qed.

Lemma sort_insert_ascending {A : Type} (key : A -> Z) (x : A) (l : list A) :
  StronglySorted (fun a b => key a <= key b) l ->
  StronglySorted (fun a b => key a <= key b) (sort_insert key false x l).
Proof.
  induction 1 as [|y l S IH F]; cbn [sort_insert].
  - repeat constructor.
  - destruct (key y <? key x) eqn:E.
    + apply Z.ltb_lt in E. constructor; [exact IH|].
      rewrite <- sort_insert_perm. constructor; [lia | exact F].
    + apply Z.ltb_ge in E. constructor; [constructor; assumption|].
      constructor; [exact E|]. eapply Forall_impl; [|exact F].
      cbn. intros. lia.
Qed.

Lemma sort_insert_descending {A : Type} (key : A -> Z) (x : A) (l : list A) :
  StronglySorted (fun a b => key b <= key a) l ->
  StronglySorted (fun a b => key b <= key a) (sort_insert key true x l).
Proof.
  induction 1 as [|y l S IH F]; cbn [sort_insert].
  - repeat constructor.
  - destruct (key x <? key y) eqn:E.
    + apply Z.ltb_lt in E. constructor; [exact IH|].
      rewrite <- sort_insert_perm. constructor; [lia | exact F].
    + apply Z.ltb_ge in E. constructor; [constructor; assumption|].
      constructor; [exact E|]. eapply Forall_impl; [|exact F].
      cbn. intros. lia.
Qed.

Lemma sort_by_ascending {A : Type} (key : A -> Z) (l : list A) :
  StronglySorted (fun a b => key a <= key b) (sort_by key false l).
Proof.
  unfold sort_by. induction l as [|x l IH]; cbn [fold_right];
    [constructor|]. apply sort_insert_ascending. exact IH.
Qed.

Lemma sort_by_descending {A : Type} (key : A -> Z) (l : list A) :
  StronglySorted (fun a b => key b <= key a) (sort_by key true l).
Proof.
  unfold sort_by. induction l as [|x l IH]; cbn [fold_right];
    [constructor|]. apply sort_insert_descending. exact IH.
Qed.

(** X8: every entity that [anonymize] reports is a span of the text that
    is not empty, [0 <= start < end <= len text], and carries the name of
    a pattern of the catalogue. *)
Theorem anonymize_entities_in_text (self : Anonymizer) (text : option str) :
  Forall (fun e => 0 <= e_start e /\ e_start e < e_end e
                   /\ e_end e <= len (match text with
                                      | Some t => t
                                      | None => []
                                      end)
                   /\ In (e_type e) (map fst PII_PATTERNS))
         (snd (anonymize self text)).
Proof.
  destruct text as [[|c text]|]; cbn [anonymize snd]; try constructor.
  rewrite Forall_forall. intros e He.
  pose proof (find_entities_bounds (c :: text)) as B.
  rewrite Forall_forall in B. apply B.
  eapply Permutation_in; [|exact He]. symmetry. apply sort_by_perm.
Qed.

(** X9: the entities that [anonymize] reports are the matches of all the
    patterns, each one once, in ascending order of their start. *)
Theorem anonymize_entities_sorted (self : Anonymizer) (text : str) :
  Permutation (find_entities text) (snd (anonymize self (Some text)))
  /\ StronglySorted (fun a b => e_start a <= e_start b)
       (snd (anonymize self (Some text))).
Proof.
  destruct text as [|c text].
  - cbn. split; constructor.
  - cbn [anonymize snd]. split; [apply sort_by_perm|apply sort_by_ascending].
Qed.

(** *** Replacing the segments *)

Lemma slice_app_left {A : Type} (l1 l2 : list A) (i j : Z) :
  0 <= i <= j -> j <= len l1 -> slice (l1 ++ l2) i j = slice l1 i j.
Proof.
  intros Hi Hj. rewrite !slice_inside; try assumption.
  - unfold len in Hj. rewrite skipn_app, firstn_app, length_skipn.
    replace (Z.to_nat i - length l1)%nat with O by lia.
    replace (Z.to_nat (j - i) - (length l1 - Z.to_nat i))%nat with O by lia.
    cbn [skipn firstn]. apply app_nil_r.
  - rewrite len_app. pose proof (len_nonneg l2). lia.
Qed.

Lemma slice_app_right {A : Type} (l1 l2 : list A) :
  slice (l1 ++ l2) (len l1) (len (l1 ++ l2)) = l2.
Proof.
  pose proof (len_nonneg l1). pose proof (len_nonneg l2).
  rewrite slice_inside; rewrite ?len_app; try lia.
  unfold len. rewrite Nat2Z.id, skipn_app, skipn_all, Nat.sub_diag.
  cbn [skipn app]. apply firstn_all2. lia.
Qed.

Lemma slice_app_left_all {A : Type} (l1 l2 : list A) :
  slice (l1 ++ l2) 0 (len l1) = l1.
Proof.
  pose proof (len_nonneg l1). pose proof (len_nonneg l2).
  rewrite slice_inside; rewrite ?len_app; try lia.
  unfold len. rewrite Z.sub_0_r, Nat2Z.id. cbn [Z.to_nat skipn].
  rewrite firstn_app, Nat.sub_diag, firstn_all. cbn [firstn]. apply app_nil_r.
Qed.

Lemma firstn_plus {A : Type} (a b : nat) :
  forall l : list A, firstn (a + b) l = firstn a l ++ firstn b (skipn a l).
Proof.
  induction a as [|a IH]; intros l; [reflexivity|].
  destruct l as [|x l]; cbn [Nat.add firstn skipn app].
  - rewrite firstn_nil. reflexivity.
  - rewrite IH. reflexivity.
Qed.

Lemma slice_slice {A : Type} (l : list A) (i j k : Z) :
  0 <= i <= j -> j <= k -> k <= len l ->
  slice l i j ++ slice l j k = slice l i k.
Proof.
  intros Hi Hj Hk. rewrite !slice_inside by lia.
  replace (Z.to_nat (k - i))
    with (Z.to_nat (j - i) + Z.to_nat (k - j))%nat by lia.
  rewrite firstn_plus, skipn_skipn. f_equal. f_equal. f_equal. lia.
Qed.

Lemma slice_past_end {A : Type} (l : list A) (pos : Z) :
  0 <= pos -> slice l 0 pos ++ slice l pos (len l) = l.
Proof.
  intros P. pose proof (len_nonneg l).
  destruct (Z.le_gt_cases pos (len l)) as [L|L].
  - rewrite slice_slice by lia. rewrite slice_inside by lia.
    cbn [Z.to_nat skipn]. apply firstn_all2. unfold len. lia.
  - unfold slice, slice_index.
    destruct (pos <? 0) eqn:E; [apply Z.ltb_lt in E; lia|].
    destruct (len l <? 0) eqn:E1; [apply Z.ltb_lt in E1; lia|].
    cbn [Z.ltb Z.compare]. rewrite !Z.min_r by lia. rewrite !Z.min_l by lia.
    rewrite Z.sub_diag, Z.sub_0_r. cbn [Z.to_nat firstn skipn].
    rewrite app_nil_r. apply firstn_all2. unfold len. lia.
Qed.

Lemma fold_replace_segment (text : str) :
  forall segments pos,
    0 <= pos ->
    disjoint_from pos (len text) segments = true ->
    fold_left replace_segment (rev segments) text
    = slice text 0 pos ++ splice text pos segments.
Proof.
  induction segments as [|[[start end_] token] rest IH]; intros pos P D.
  - cbn [rev fold_left splice disjoint_from] in *. symmetry.
    apply slice_past_end. exact P.
  - cbn [rev splice disjoint_from] in *.
    apply andb_prop in D. destruct D as [D D4].
    apply andb_prop in D. destruct D as [D D3].
    apply andb_prop in D. destruct D as [D1 D2].
    apply Z.leb_le in D1, D2, D3.
    rewrite fold_left_app. cbn [fold_left].
    rewrite (IH end_) by (assumption || lia).
    unfold replace_segment.
    set (tail := splice text end_ rest).
    assert (A1 : slice (slice text 0 end_ ++ tail) 0 start
                 = slice text 0 start).
    { rewrite <- (slice_slice text 0 start end_) by lia.
      rewrite <- app_assoc.
      pose proof (slice_app_left_all (slice text 0 start)
                    (slice text start end_ ++ tail)) as Q.
      rewrite slice_inside_len, Z.sub_0_r in Q by lia. exact Q. }
    assert (A2 : slice (slice text 0 end_ ++ tail) end_
                   (len (slice text 0 end_ ++ tail)) = tail).
    { pose proof (slice_app_right (slice text 0 end_) tail) as Q.
      rewrite slice_inside_len, Z.sub_0_r in Q at 1 by lia. exact Q. }
    rewrite A1, A2. rewrite <- (slice_slice text 0 pos start) by lia.
    rewrite <- app_assoc. reflexivity.
Qed.

(** X10: when the matches, taken in ascending order of their start, do
    not overlap, the anonymized text is the text with every match replaced
    by its token and everything between the matches kept. *)
Theorem anonymize_replaces_matches (self : Anonymizer) (text : str) :
  disjoint_from 0 (len text) (rev (replaced_segments self text)) = true ->
  fst (anonymize self (Some text))
  = Some (splice text 0 (rev (replaced_segments self text))).
Proof.
  intros D. destruct text as [|c text]; [reflexivity|].
  cbn [anonymize fst]. f_equal.
  change (fold_left replace_segment
            (replaced_segments self (c :: text)) (c :: text)
          = splice (c :: text) 0 (rev (replaced_segments self (c :: text)))).
  rewrite <- (rev_involutive (replaced_segments self (c :: text))) at 1.
  rewrite fold_replace_segment with (pos := 0) by (lia || exact D).
  reflexivity.
Qed.

Lemma anonymize_replaces_matches_witness :
  disjoint_from 0 (len (py "to a@b.cd now"))
    (rev (replaced_segments (mkAnonymizer (py "k")) (py "to a@b.cd now")))
  = true
  /\ fst (anonymize (mkAnonymizer (py "k")) (Some (py "to a@b.cd now")))
     = Some (splice (py "to a@b.cd now") 0
               (rev (replaced_segments (mkAnonymizer (py "k"))
                       (py "to a@b.cd now")))).
Proof.
  split; [vm_compute; reflexivity|].
  apply anonymize_replaces_matches. vm_compute. reflexivity.
Defined.

(** ** The extractors *)

Lemma indices_from_length (n : nat) :
  forall start, length (indices_from start n) = n.
Proof. induction n as [|n IH]; intros start; cbn; [|rewrite IH]; reflexivity. Qed.

Lemma indices_from_bounds (n : nat) :
  forall start,
    Forall (fun i => start <= i < start + Z.of_nat n) (indices_from start n).
Proof.
  induction n as [|n IH]; intros start; cbn [indices_from]; constructor;
    [lia|].
  eapply Forall_impl; [|apply IH]. cbn. intros. lia.
Qed.

Lemma existsb_filter {A : Type} (p : A -> bool) (l : list A) :
  existsb p l = truthy (filter p l).
Proof.
  induction l as [|x l IH]; [reflexivity|]. cbn [existsb filter].
  destruct (p x); [reflexivity | exact IH].
Qed.

Lemma truthy_strip (s : str) : truthy (strip s) = existsb nonblank s.
Proof.
  destruct (truthy (strip s)) eqn:T.
  - symmetry. apply truthy_strip_nonblank. exact T.
  - apply truthy_false in T. apply strip_empty_no_nonblank in T.
    rewrite existsb_filter, T. reflexivity.
Qed.

Lemma pdf_pages_from_without_ocr (ocr OCR_AVAILABLE : bool) :
  ocr && OCR_AVAILABLE = false ->
  forall pages page_index,
    yielded_before (pdf_pages_from ocr OCR_AVAILABLE page_index pages)
    = combine (indices_from page_index (length (yielded_before pages)))
        (map (fun page => if existsb nonblank (page_text_of page)
                          then page_text_of page else [])
             (yielded_before pages))
    /\ gen_outcome (pdf_pages_from ocr OCR_AVAILABLE page_index pages)
       = gen_outcome pages.
Proof.
  intros O. induction pages as [|page rest IH|]; intros page_index;
    [split; reflexivity | | split; reflexivity].
  destruct (IH (page_index + 1)) as [IH1 IH2].
  cbn [pdf_pages_from yielded_before gen_outcome length indices_from map
       combine].
  fold (page_text_of page). rewrite truthy_strip, O.
  destruct (existsb nonblank (page_text_of page));
    cbn [yielded_before gen_outcome]; rewrite IH1, IH2; split; reflexivity.
Qed.

Lemma pdf_pages_from_indices (ocr OCR_AVAILABLE : bool) :
  forall pages page_index,
    Forall (fun p => page_index <= fst p
                     /\ fst p < page_index + len (yielded_before pages)
                     /\ (negb (ocr && OCR_AVAILABLE) && negb (truthy (snd p))
                         || existsb nonblank (snd p)) = true)
           (yielded_before (pdf_pages_from ocr OCR_AVAILABLE page_index pages))
    /\ StronglySorted Z.lt
         (map fst
            (yielded_before
               (pdf_pages_from ocr OCR_AVAILABLE page_index pages))).
Proof.
  induction pages as [|page rest IH|]; intros page_index;
    [split; constructor | | split; constructor].
  destruct (IH (page_index + 1)) as [IH1 IH2].
  assert (B : Forall (fun p => page_index <= fst p
                     /\ fst p < page_index + len (yielded_before (Yield page rest))
                     /\ (negb (ocr && OCR_AVAILABLE) && negb (truthy (snd p))
                         || existsb nonblank (snd p)) = true)
            (yielded_before
               (pdf_pages_from ocr OCR_AVAILABLE (page_index + 1) rest))).
  { eapply Forall_impl; [|exact IH1]. intros p (H1 & H2 & H3).
    cbn [yielded_before]. rewrite len_cons.
    split; [lia|]. split; [lia | exact H3]. }
  assert (L : Forall (Z.lt page_index)
                (map fst (yielded_before
                   (pdf_pages_from ocr OCR_AVAILABLE (page_index + 1) rest)))).
  { apply Forall_map. eapply Forall_impl; [|exact IH1].
    intros p (H1 & _). cbv beta.
    apply Z.lt_le_trans with (page_index + 1); [lia | exact H1]. }
  assert (Y : forall text,
             (negb (ocr && OCR_AVAILABLE) && negb (truthy text)
              || existsb nonblank text) = true ->
             Forall (fun p => page_index <= fst p
                     /\ fst p < page_index + len (yielded_before (Yield page rest))
                     /\ (negb (ocr && OCR_AVAILABLE) && negb (truthy (snd p))
                         || existsb nonblank (snd p)) = true)
               (yielded_before
                  (Yield (page_index, text)
                     (pdf_pages_from ocr OCR_AVAILABLE (page_index + 1) rest)))
             /\ StronglySorted Z.lt
                  (map fst
                     (yielded_before
                        (Yield (page_index, text)
                           (pdf_pages_from ocr OCR_AVAILABLE (page_index + 1)
                              rest))))).
  { intros text T. cbn [yielded_before map fst]. split.
    - constructor; [|exact B]. cbn [fst snd yielded_before].
      rewrite len_cons. pose proof (len_nonneg (yielded_before rest)).
      split; [lia|]. split; [lia | exact T].
    - constructor; assumption. }
  cbn [pdf_pages_from]. fold (page_text_of page). rewrite truthy_strip.
  destruct (existsb nonblank (page_text_of page)) eqn:E.
  - apply Y. rewrite E. apply orb_true_r.
  - destruct (ocr && OCR_AVAILABLE) eqn:O.
    + destruct (ocr_text_of page) as [[ocr_text|]|];
        try (split; assumption).
      rewrite truthy_strip.
      destruct (existsb nonblank ocr_text) eqn:E'; [|split; assumption].
      apply Y. rewrite E'. apply orb_true_r.
    + apply Y. reflexivity.
Qed.

(** X11: when OCR is not asked for or not available,
    [extract_text_pages_from_pdf] yields exactly one pair for every page it
    reads, numbered from 0 in the order of the pages: the text the page
    gives when it has a character that is not whitespace, and the empty
    string otherwise (also when the extraction of the page fails).  It
    ends as the enumeration of the pages ends. *)
Theorem pdf_pages_without_ocr (ocr OCR_AVAILABLE : bool)
    (pages : gen PdfPage) :
  ocr && OCR_AVAILABLE = false ->
  yielded_before (extract_text_pages_from_pdf (Ok pages) ocr OCR_AVAILABLE)
  = combine (indices_from 0 (length (yielded_before pages)))
      (map (fun page => if existsb nonblank (page_text_of page)
                        then page_text_of page else [])
           (yielded_before pages))
  /\ gen_outcome (extract_text_pages_from_pdf (Ok pages) ocr OCR_AVAILABLE)
     = gen_outcome pages.
Proof.
  intros O. cbn [extract_text_pages_from_pdf].
  apply pdf_pages_from_without_ocr. exact O.
Qed.

Lemma pdf_pages_without_ocr_witness :
  true && false = false
  /\ yielded_before
       (extract_text_pages_from_pdf
          (Ok (Yield (mkPage (Ok (Some (py "one"))) Err)
                 (Yield (mkPage Err (Ok (Some (py "scan"))))
                    (Yield (mkPage (Ok (Some (py "  "))) Err) Raise))))
          true false)
     = [(0, py "one"); (1, []); (2, [])].
Proof.
  split; [reflexivity|].
  apply (pdf_pages_without_ocr true false
           (Yield (mkPage (Ok (Some (py "one"))) Err)
              (Yield (mkPage Err (Ok (Some (py "scan"))))
                 (Yield (mkPage (Ok (Some (py "  "))) Err) Raise)))).
  reflexivity.
Defined.

(** X12: the page indices [extract_text_pages_from_pdf] yields are
    strictly increasing and are indices of pages of the document,
    [0 <= page_index < number of pages read]; the text of a pair has a
    character that is not whitespace, or it is the empty string, and the
    empty string is yielded only when OCR is not asked for or not
    available. *)
Theorem pdf_pages_indices (reader : result (gen PdfPage))
    (ocr OCR_AVAILABLE : bool) :
  StronglySorted Z.lt
    (map fst
       (yielded_before
          (extract_text_pages_from_pdf reader ocr OCR_AVAILABLE)))
  /\ Forall (fun p =>
               0 <= fst p
               /\ fst p < len (match reader with
                               | Ok pages => yielded_before pages
                               | Err => []
                               end)
               /\ (negb (ocr && OCR_AVAILABLE) && negb (truthy (snd p))
                   || existsb nonblank (snd p)) = true)
            (yielded_before
               (extract_text_pages_from_pdf reader ocr OCR_AVAILABLE)).
Proof.
  destruct reader as [pages|]; [|split; constructor].
  cbn [extract_text_pages_from_pdf].
  destruct (pdf_pages_from_indices ocr OCR_AVAILABLE pages 0) as [B S].
  split; [exact S|]. eapply Forall_impl; [|exact B].
  intros p (H1 & H2 & H3). split; [lia|]. split; [lia | exact H3].
Qed.

Lemma row_pieces_truthy (row : Row) :
  forall idx, truthy (row_pieces idx row) = has_value row.
Proof.
  induction row as [|[value|] row IH]; intros idx; [reflexivity | |].
  - cbn [row_pieces has_value existsb]. rewrite truthy_strip.
    destruct (existsb nonblank value); [reflexivity|]. apply IH.
  - cbn [row_pieces has_value existsb orb]. apply IH.
Qed.

Lemma sheet_lines_yielded (sheet_name : str) (later : gen str) :
  forall rows,
    yielded_before (sheet_lines sheet_name rows later)
    = map row_line
        (filter (fun named_row => has_value (snd named_row))
           (map (pair sheet_name) (yielded_before rows)))
      ++ match gen_outcome rows with
         | Returned => yielded_before later
         | Raised => []
         end.
Proof.
  induction rows as [|row rest IH|]; [reflexivity | | reflexivity].
  cbn [sheet_lines yielded_before gen_outcome map filter snd].
  rewrite row_pieces_truthy. destruct (has_value row); [|exact IH].
  cbn [yielded_before map app]. rewrite IH. reflexivity.
Qed.

(** X13: [extract_text_from_excel] yields one line for every row it reads
    that has a cell whose value is not blank, in the order of the sheets
    and of their rows, and no line for the other rows; the line begins
    with the name of the sheet, so no line is empty. *)
Theorem excel_lines_of_rows (sheets : Workbook) :
  yielded_before (extract_text_from_excel (Ok sheets))
  = map row_line
      (filter (fun named_row => has_value (snd named_row))
         (rows_read sheets))
  /\ Forall (fun line => truthy line = true)
       (yielded_before (extract_text_from_excel (Ok sheets))).
Proof.
  assert (E : yielded_before (extract_text_from_excel (Ok sheets))
              = map row_line
                  (filter (fun named_row => has_value (snd named_row))
                     (rows_read sheets))).
  { cbn [extract_text_from_excel].
    induction sheets as [|[sheet_name rows] rest IH]; [reflexivity|].
    cbn [workbook_lines rows_read]. rewrite sheet_lines_yielded.
    rewrite filter_app, map_app. f_equal.
    destruct (gen_outcome rows); [exact IH | reflexivity]. }
  split; [exact E|]. rewrite E. apply Forall_forall. intros line H.
  apply in_map_iff in H. destruct H as ([sheet_name row] & H & _).
  subst line. unfold row_line. cbn [fst snd].
  destruct sheet_name; reflexivity.
Qed.

(** ** The records of a file *)

Lemma str_eqb_eq (a b : str) : str_eqb a b = true <-> a = b.
Proof.
  revert b. induction a as [|x a IH]; intros [|y b]; cbn [str_eqb];
    try (split; [discriminate | discriminate]); [split; reflexivity|].
  rewrite andb_true_iff. unfold ascii_eqb. rewrite Ascii.eqb_eq, IH.
  split; [intros [-> ->]; reflexivity | intros E; inversion E; auto].
Qed.

Lemma is_excel_ext_not_pdf (ext : str) :
  is_excel_ext ext = true -> str_eqb ext (py ".pdf") = false.
Proof.
  unfold is_excel_ext. intros H.
  destruct (str_eqb ext (py ".pdf")) eqn:E; [|reflexivity].
  apply str_eqb_eq in E. subst ext. discriminate.
Qed.

Lemma make_record_fields file_id source_path file_hash file_type page_number
    chunk_index anonymized :
  let r := make_record file_id source_path file_hash file_type page_number
             chunk_index anonymized in
  provenance r = [Some (JStr file_id); Some (JStr source_path);
                  Some (JStr file_hash); Some (JStr file_type)]
  /\ field "page_number" r = Some page_number
  /\ field "chunk_index" r = Some (JInt chunk_index).
Proof. repeat split. Qed.

Lemma records_of_provenance f anonymizer file_hash file_type page_number :
  forall chunks index,
    Forall (fun r => provenance r
                     = [Some (JStr (uuid4 f));
                        Some (JStr (path_str (file_path f)));
                        Some (JStr file_hash); Some (JStr file_type)])
           (records_of f anonymizer file_hash file_type page_number index
              chunks).
Proof.
  induction chunks as [|chunk rest IH]; intros index; constructor;
    [reflexivity | apply IH].
Qed.

Lemma records_of_numbering f anonymizer file_hash file_type page_number :
  forall chunks index,
    length (records_of f anonymizer file_hash file_type page_number index
              chunks) = length chunks
    /\ Forall (fun r => field "page_number" r = Some page_number)
         (records_of f anonymizer file_hash file_type page_number index
            chunks)
    /\ map (field "chunk_index")
         (records_of f anonymizer file_hash file_type page_number index
            chunks)
       = map (fun i => Some (JInt i)) (indices_from index (length chunks)).
Proof.
  induction chunks as [|chunk rest IH]; intros index.
  - repeat split. constructor.
  - destruct (IH (index + 1)) as (L & P & C).
    cbn [records_of length indices_from map]. rewrite L, C.
    repeat split. constructor; [reflexivity | exact P].
Qed.

(** A text with a character that is not whitespace gives a chunk. *)
Lemma chunk_text_some_chunk (text : str) (max_chars : Z) (chunks : list str) :
  1 <= max_chars -> existsb nonblank text = true ->
  chunk_text text max_chars = Some chunks -> chunks <> [].
Proof.
  intros Hm Hnb E Hnil. subst chunks.
  unfold chunk_text, chunk_text_fuel in E.
  destruct (truthy text) eqn:T.
  - destruct (chunk_paras _ _ _ _) as [st|] eqn:P; [|discriminate].
    apply chunk_paras_progress in P.
    + unfold progress in P. destruct (truthy (current st)).
      * inversion E as [E']. apply app_eq_nil in E'.
        destruct E'; discriminate.
      * inversion E as [E']. rewrite E' in P. discriminate.
    + exact Hm.
    + apply paragraphs_of_nonempty. exact Hnb.
    + apply paragraphs_of_head.
  - apply truthy_false in T. subst text. discriminate.
Qed.

Lemma process_file_hashed OCR_AVAILABLE f cfg anonymizer file_hash :
  compute_file_sha256 f = Ok file_hash ->
  forall writer,
    process_file OCR_AVAILABLE f cfg anonymizer writer
    = if str_eqb (lower (suffix (file_path f))) (py ".pdf") then
        process_pages f cfg anonymizer file_hash
          (extract_text_pages_from_pdf (pdf_reader f) (ocr cfg) OCR_AVAILABLE)
          writer
      else if is_excel_ext (lower (suffix (file_path f))) then
        Some (process_lines f cfg anonymizer file_hash
                (extract_text_from_excel (workbook f)) [] 0 0 writer)
      else Some (writer, Returned).
Proof. intros E writer. unfold process_file. rewrite E. reflexivity. Qed.

(** X14: every record [process_file] has written when it returns or
    raises carries the identifier drawn for this file, the path of the
    file, the SHA-256 of its content in hexadecimal and the type of the
    branch that read it: [pdf] for the suffix [.pdf], [excel] otherwise.
    This holds for every [max_chars_per_chunk]; the call returns or
    raises unless [max_chars_per_chunk] is zero or negative. *)
Theorem process_file_provenance (OCR_AVAILABLE : bool) (f : InputFile)
    (cfg : IngestConfig) (anonymizer : Anonymizer) (content : bytes)
    (writer : CompressedJsonlWriter) :
  file_bytes f = Ok content ->
  match process_file OCR_AVAILABLE f cfg anonymizer writer with
  | Some (writer', _) =>
      exists records,
        writer' = write_all records writer
        /\ Forall (fun r =>
                     provenance r
                     = [Some (JStr (uuid4 f));
                        Some (JStr (path_str (file_path f)));
                        Some (JStr (hexdigest (sha256 content)));
                        Some (JStr (if str_eqb (lower (suffix (file_path f)))
                                         (py ".pdf")
                                    then py "pdf" else py "excel"))])
                  records
  | None => max_chars_per_chunk cfg <= 0
  end.
Proof.
  intros Hc. apply process_file_cases.
  intros file_hash page_number chunks Hh _.
  unfold compute_file_sha256 in Hh. rewrite Hc in Hh.
  apply (f_equal (fun r => match r with Ok x => x | Err => [] end)) in Hh.
  cbv beta iota in Hh. subst file_hash. apply records_of_provenance.
Qed.

Lemma process_file_provenance_witness :
  process_file false broken_workbook (example_config 0)
    (mkAnonymizer (py "k1")) (__enter__ example_output) <> None
  /\ match process_file false broken_workbook (example_config 0)
             (mkAnonymizer (py "k1")) (__enter__ example_output) with
     | Some (writer', _) =>
         exists records,
           writer' = write_all records (__enter__ example_output)
           /\ Forall (fun r =>
                        provenance r
                        = [Some (JStr (py "id-2"));
                           Some (JStr (py "book.xlsx"));
                           Some (JStr (hexdigest (sha256 (py "PK"))));
                           Some (JStr (py "excel"))])
                     records
     | None => max_chars_per_chunk (example_config 0) <= 0
     end.
Proof.
  split; [vm_compute; discriminate|].
  apply (process_file_provenance false broken_workbook (example_config 0)
           (mkAnonymizer (py "k1")) (py "PK") (__enter__ example_output)).
  reflexivity.
Defined.

Lemma sorted_filter_fst {A : Type} (R : Z -> Z -> Prop) (p : Z * A -> bool)
    (l : list (Z * A)) :
  StronglySorted R (map fst l) -> StronglySorted R (map fst (filter p l)).
Proof.
  induction l as [|x l IH]; intros S; [constructor|].
  cbn [map] in S. inversion S as [|? ? S' F]. subst.
  cbn [filter]. destruct (p x); [|apply IH; exact S'].
  cbn [map]. constructor; [apply IH; exact S'|].
  rewrite Forall_forall in *. intros i Hi. apply F.
  apply in_map_iff in Hi. destruct Hi as (y & E & Hy).
  apply filter_In in Hy. apply in_map_iff. exists y. tauto.
Qed.

Lemma flat_map_page_records f cfg anonymizer file_hash
    (pairs : list (Z * str)) :
  flat_map (page_records f cfg anonymizer file_hash) pairs
  = concat (map (page_records f cfg anonymizer file_hash)
              (filter (fun p => truthy (snd p)) pairs)).
Proof.
  induction pairs as [|[page_index page_text] pairs IH]; [reflexivity|].
  cbn [flat_map filter snd]. rewrite IH.
  destruct (truthy page_text) eqn:T; [reflexivity|].
  unfold page_records. rewrite T. reflexivity.
Qed.

(** X15: with [max_chars_per_chunk >= 1] the records of a PDF come page
    by page, in ascending order of the pages; a page gives records
    exactly when the text yielded for it is not empty, and then it gives
    at least one, with [page_number] the index of the page plus one and
    [chunk_index] counting from 0 within the page. *)
Theorem pdf_records_by_page (OCR_AVAILABLE : bool) (f : InputFile)
    (cfg : IngestConfig) (anonymizer : Anonymizer) (file_hash : str) :
  1 <= max_chars_per_chunk cfg ->
  str_eqb (lower (suffix (file_path f))) (py ".pdf") = true ->
  compute_file_sha256 f = Ok file_hash ->
  exists per_page : list (Z * list json),
    (forall writer,
        process_file OCR_AVAILABLE f cfg anonymizer writer
        = Some (write_all (concat (map snd per_page)) writer,
                gen_outcome
                  (extract_text_pages_from_pdf (pdf_reader f) (ocr cfg)
                     OCR_AVAILABLE)))
    /\ map fst per_page
       = map fst
           (filter (fun p => truthy (snd p))
              (yielded_before
                 (extract_text_pages_from_pdf (pdf_reader f) (ocr cfg)
                    OCR_AVAILABLE)))
    /\ StronglySorted Z.lt (map fst per_page)
    /\ Forall (fun page =>
                 0 <= fst page
                 /\ snd page <> []
                 /\ Forall (fun r => field "page_number" r
                                     = Some (JInt (fst page + 1)))
                      (snd page)
                 /\ map (field "chunk_index") (snd page)
                    = map (fun i => Some (JInt i))
                        (indices_from 0 (length (snd page))))
              per_page.
Proof.
  intros Hm Hext Hh.
  set (pages := extract_text_pages_from_pdf (pdf_reader f) (ocr cfg)
                  OCR_AVAILABLE).
  assert (B : Forall (fun p => 0 <= fst p
                        /\ (negb (truthy (snd p))
                            || existsb nonblank (snd p)) = true)
                (yielded_before pages)
              /\ StronglySorted Z.lt (map fst (yielded_before pages))).
  { subst pages. destruct (pdf_reader f) as [reader|];
      [|split; constructor].
    cbn [extract_text_pages_from_pdf].
    destruct (pdf_pages_from_indices (ocr cfg) OCR_AVAILABLE reader 0)
      as [B S].
    split; [|exact S]. eapply Forall_impl; [|exact B].
    intros p (H1 & _ & H3). split; [exact H1|].
    destruct (existsb nonblank (snd p)); [apply orb_true_r|].
    rewrite orb_false_r in *. apply andb_prop in H3. tauto. }
  destruct B as [B S].
  exists (map (fun p => (fst p, page_records f cfg anonymizer file_hash p))
            (filter (fun p => truthy (snd p)) (yielded_before pages))).
  split; [|split; [|split]].
  - intros writer.
    rewrite (process_file_hashed OCR_AVAILABLE f cfg anonymizer _ Hh), Hext.
    fold pages. rewrite (process_pages_records _ _ _ _ Hm).
    rewrite flat_map_page_records, !map_map. reflexivity.
  - rewrite map_map. reflexivity.
  - rewrite map_map. cbn [fst].
    apply (sorted_filter_fst Z.lt (fun p => truthy (snd p))). exact S.
  - apply Forall_map. apply Forall_forall. intros [page_index page_text] Hp.
    apply filter_In in Hp. destruct Hp as [Hp T]. cbn [snd] in T.
    rewrite Forall_forall in B. destruct (B _ Hp) as [H0 Hnb].
    cbn [fst snd] in *. rewrite T in Hnb. cbn [negb orb] in Hnb.
    unfold page_records. rewrite T.
    destruct (chunk_text_total page_text _ Hm) as (chunks & E). rewrite E.
    destruct (records_of_numbering f anonymizer file_hash (py "pdf")
                (JInt (page_index + 1)) chunks 0) as (L & P & C).
    split; [exact H0|]. split; [|split; [exact P|]].
    + pose proof (chunk_text_some_chunk _ _ _ Hm Hnb E) as N.
      intros R. apply N. apply length_zero_iff_nil.
      rewrite <- L, R. reflexivity.
    + rewrite L. exact C.
Qed.

Lemma pdf_records_by_page_witness :
  exists per_page : list (Z * list json),
    (forall writer,
        process_file false one_page_pdf (example_config 10)
          (mkAnonymizer (py "k1")) writer
        = Some (write_all (concat (map snd per_page)) writer,
                gen_outcome
                  (extract_text_pages_from_pdf (pdf_reader one_page_pdf)
                     (ocr (example_config 10)) false)))
    /\ map fst per_page
       = map fst
           (filter (fun p => truthy (snd p))
              (yielded_before
                 (extract_text_pages_from_pdf (pdf_reader one_page_pdf)
                    (ocr (example_config 10)) false)))
    /\ StronglySorted Z.lt (map fst per_page)
    /\ Forall (fun page =>
                 0 <= fst page
                 /\ snd page <> []
                 /\ Forall (fun r => field "page_number" r
                                     = Some (JInt (fst page + 1)))
                      (snd page)
                 /\ map (field "chunk_index") (snd page)
                    = map (fun i => Some (JInt i))
                        (indices_from 0 (length (snd page))))
              per_page.
Proof.
  apply (pdf_records_by_page false one_page_pdf (example_config 10)
           (mkAnonymizer (py "k1"))
           (hexdigest (sha256 (py "%PDF-1.7"))));
    [cbn; lia | reflexivity | reflexivity].
Defined.

Lemma workbook_lines_truthy (sheets : Workbook) :
  Forall (fun line => truthy line = true)
    (yielded_before (workbook_lines sheets)).
Proof.
  induction sheets as [|[sheet_name rows] rest IH]; [constructor|].
  cbn [workbook_lines].
  induction rows as [|row rows IHr|]; [exact IH | | constructor].
  cbn [sheet_lines]. destruct (truthy (row_pieces 1 row)); [|exact IHr].
  cbn [yielded_before]. constructor; [|exact IHr].
  destruct sheet_name; reflexivity.
Qed.

Lemma filter_truthy_all {A : Type} (l : list (list A)) :
  Forall (fun x => truthy x = true) l -> filter (fun x => truthy x) l = l.
Proof.
  induction 1 as [|x l T F IH]; [reflexivity|].
  cbn [filter]. rewrite T, IH. reflexivity.
Qed.

(** The loop over the lines, from any state in which [current_len] is the
    running length of [buffer]: the groups written are, put together, the
    buffer and the lines of the stream that are not empty, but for the
    lines still in the buffer when the stream raises. *)
Lemma process_lines_content f cfg anonymizer file_hash :
  1 <= max_chars_per_chunk cfg ->
  forall text_stream buffer current_len chunk_counter,
    current_len = running_length buffer ->
    exists groups lost,
      (forall writer,
          process_lines f cfg anonymizer file_hash text_stream buffer
            current_len chunk_counter writer
          = (write_all
               (records_of f anonymizer file_hash (py "excel") JNull
                  chunk_counter (map (join [LF]) groups))
               writer,
             gen_outcome text_stream))
      /\ buffer ++ filter (fun line => truthy line)
                     (yielded_before text_stream)
         = concat groups ++ lost
      /\ (lost = [] \/ gen_outcome text_stream = Raised)
      /\ Forall (fun group => group <> []) groups.
Proof.
  intros Hm.
  induction text_stream as [|line rest IH|];
    intros buffer current_len chunk_counter Hinv.
  - destruct (truthy buffer) eqn:T.
    + exists [buffer], []. split; [|split; [|split]].
      * intros writer. cbn [process_lines]. rewrite T. reflexivity.
      * cbn [yielded_before filter concat]. rewrite !app_nil_r. reflexivity.
      * left. reflexivity.
      * constructor; [|constructor]. intros E. rewrite E in T. discriminate.
    + exists [], []. split; [|split; [|split]].
      * intros writer. cbn [process_lines]. rewrite T. reflexivity.
      * apply truthy_false in T. subst buffer. reflexivity.
      * left. reflexivity.
      * constructor.
  - cbn [process_lines gen_outcome yielded_before filter].
    set (buffer' := if truthy line then buffer ++ [line] else buffer).
    set (current_len' := if truthy line then current_len + (len line + 1)
                         else current_len).
    assert (Hinv' : current_len' = running_length buffer').
    { subst buffer' current_len'. destruct (truthy line); [|exact Hinv].
      rewrite running_length_snoc, Hinv. reflexivity. }
    assert (Hb : buffer ++ (if truthy line
                            then line :: filter (fun l => truthy l)
                                           (yielded_before rest)
                            else filter (fun l => truthy l)
                                   (yielded_before rest))
                 = buffer' ++ filter (fun l => truthy l)
                                (yielded_before rest)).
    { subst buffer'. destruct (truthy line); [|reflexivity].
      rewrite <- app_assoc. reflexivity. }
    destruct (current_len' >=? max_chars_per_chunk cfg) eqn:G.
    + destruct (IH [] 0 (chunk_counter + 1) eq_refl)
        as (groups & lost & Hw & Hc & Hl & Hg).
      exists (buffer' :: groups), lost. split; [|split; [|split]].
      * intros writer. rewrite Hw, write_buffer_records.
        cbn [map records_of]. rewrite write_all_cons. reflexivity.
      * etransitivity; [exact Hb|]. cbn [concat app] in *.
        rewrite <- app_assoc. f_equal. exact Hc.
      * exact Hl.
      * constructor; [|exact Hg]. intros E. rewrite E in Hinv'.
        cbn in Hinv'. lia.
    + destruct (IH buffer' current_len' chunk_counter Hinv')
        as (groups & lost & Hw & Hc & Hl & Hg).
      exists groups, lost. split; [|split; [|split]]; try assumption.
      etransitivity; [exact Hb | exact Hc].
  - exists [], buffer. split; [|split; [|split]].
    + intros writer. reflexivity.
    + cbn [yielded_before filter concat app]. apply app_nil_r.
    + right. reflexivity.
    + constructor.
Qed.

(** X16: the Excel branch puts every line of the workbook into a record,
    in order and once: the records are made of groups of lines, none of
    them empty, joined by line feeds, and the groups put together are the
    lines [extract_text_from_excel] yields.  Lines are lost only when
    reading the workbook raises: those buffered since the last record are
    not written. *)
Theorem excel_records_keep_lines (OCR_AVAILABLE : bool) (f : InputFile)
    (cfg : IngestConfig) (anonymizer : Anonymizer) (file_hash : str) :
  1 <= max_chars_per_chunk cfg ->
  is_excel_ext (lower (suffix (file_path f))) = true ->
  compute_file_sha256 f = Ok file_hash ->
  exists groups lost,
    (forall writer,
        process_file OCR_AVAILABLE f cfg anonymizer writer
        = Some (write_all
                  (records_of f anonymizer file_hash (py "excel") JNull 0
                     (map (join [LF]) groups))
                  writer,
                gen_outcome (extract_text_from_excel (workbook f))))
    /\ yielded_before (extract_text_from_excel (workbook f))
       = concat groups ++ lost
    /\ (lost = []
        \/ gen_outcome (extract_text_from_excel (workbook f)) = Raised)
    /\ Forall (fun group => group <> []) groups.
Proof.
  intros Hm Hext Hh.
  destruct (process_lines_content f cfg anonymizer file_hash Hm
              (extract_text_from_excel (workbook f)) [] 0 0 eq_refl)
    as (groups & lost & Hw & Hc & Hl & Hg).
  exists groups, lost. split; [|split; [|split]]; try assumption.
  - intros writer.
    rewrite (process_file_hashed OCR_AVAILABLE f cfg anonymizer _ Hh).
    rewrite (is_excel_ext_not_pdf _ Hext), Hext, Hw. reflexivity.
  - rewrite <- Hc. cbn [app]. symmetry. apply filter_truthy_all.
    destruct (workbook f) as [sheets|]; [|constructor].
    apply workbook_lines_truthy.
Qed.

Lemma excel_records_keep_lines_witness :
  exists groups lost,
    (forall writer,
        process_file false broken_workbook (example_config 10)
          (mkAnonymizer (py "k1")) writer
        = Some (write_all
                  (records_of broken_workbook (mkAnonymizer (py "k1"))
                     (hexdigest (sha256 (py "PK"))) (py "excel") JNull 0
                     (map (join [LF]) groups))
                  writer,
                gen_outcome
                  (extract_text_from_excel (workbook broken_workbook))))
    /\ yielded_before (extract_text_from_excel (workbook broken_workbook))
       = concat groups ++ lost
    /\ (lost = []
        \/ gen_outcome (extract_text_from_excel (workbook broken_workbook))
           = Raised)
    /\ Forall (fun group => group <> []) groups.
Proof.
  apply (excel_records_keep_lines false broken_workbook (example_config 10)
           (mkAnonymizer (py "k1")) (hexdigest (sha256 (py "PK"))));
    [cbn; lia | reflexivity | reflexivity].
Defined.

(** X17: the records of an Excel file have no page number, and their
    [chunk_index] counts the records of the file from 0. *)
Theorem excel_records_numbering (OCR_AVAILABLE : bool) (f : InputFile)
    (cfg : IngestConfig) (anonymizer : Anonymizer) (file_hash : str) :
  is_excel_ext (lower (suffix (file_path f))) = true ->
  compute_file_sha256 f = Ok file_hash ->
  exists records o,
    (forall writer,
        process_file OCR_AVAILABLE f cfg anonymizer writer
        = Some (write_all records writer, o))
    /\ Forall (fun r => field "page_number" r = Some JNull) records
    /\ map (field "chunk_index") records
       = map (fun i => Some (JInt i)) (indices_from 0 (length records)).
Proof.
  intros Hext Hh.
  destruct (process_lines_groups f cfg anonymizer file_hash
              (extract_text_from_excel (workbook f)) [] 0 0 eq_refl)
    as (flushed & final & Hw & _ & _).
  destruct (records_of_numbering f anonymizer file_hash (py "excel") JNull
              (map (join [LF]) (flushed ++ final)) 0) as (L & P & C).
  eexists. eexists. split; [|split; [exact P|]].
  - intros writer.
    rewrite (process_file_hashed OCR_AVAILABLE f cfg anonymizer _ Hh).
    rewrite (is_excel_ext_not_pdf _ Hext), Hext, Hw. reflexivity.
  - rewrite L. exact C.
Qed.

Lemma excel_records_numbering_witness :
  exists records o,
    (forall writer,
        process_file false broken_workbook (example_config 10)
          (mkAnonymizer (py "k1")) writer
        = Some (write_all records writer, o))
    /\ Forall (fun r => field "page_number" r = Some JNull) records
    /\ map (field "chunk_index") records
       = map (fun i => Some (JInt i)) (indices_from 0 (length records)).
Proof.
  apply (excel_records_numbering false broken_workbook (example_config 10)
           (mkAnonymizer (py "k1")) (hexdigest (sha256 (py "PK"))));
    reflexivity.
Defined.

(** ** The stream and the command *)

(** X18: what the writer has written is read back line by line: the
    stream has one line for every record, in the order of the calls of
    [write], and [json.loads] of the line gives the record. *)
Theorem written_records_read_back (records : list json) (p : Path) :
  map loads (lines_of (_fh (write_all records (__enter__ p))))
  = map Some records.
Proof.
  destruct (write_all_fh records (__enter__ p)) as [E _]. rewrite E.
  replace (_fh (__enter__ p)) with (@nil ascii)
    by (unfold __enter__; destruct (str_eqb _ _); reflexivity).
  cbn [app]. rewrite lines_of_records_text, map_map.
  apply map_ext. apply loads_dumps.
Qed.


(** On an output path whose directory can be made and whose stream can
    be opened and closed, the command is [ingest]. *)
Lemma ingest_command_ingest (disk : OutputDisk) (OCR_AVAILABLE : bool)
    (inputs_list : list InputFile) (output_opt : Path)
    (secret_opt ANONYMIZATION_SECRET : option str) (ocr_opt : bool)
    (max_chars_opt : Z) :
  mkdir_parent disk = Ok tt ->
  enter_writer disk output_opt = Ok (__enter__ output_opt) ->
  close_stream disk = Ok tt ->
  ingest_command disk OCR_AVAILABLE inputs_list output_opt secret_opt
    ANONYMIZATION_SECRET ocr_opt max_chars_opt
  = option_map Ended
      (ingest OCR_AVAILABLE inputs_list output_opt secret_opt
         ANONYMIZATION_SECRET ocr_opt max_chars_opt).
Proof.
  intros Hm He Hc. unfold ingest_command, ingest. rewrite Hm.
  destruct (or_else secret_opt ANONYMIZATION_SECRET) as [[|c s]|];
    try reflexivity.
  destruct (truthy inputs_list); [|reflexivity].
  cbn [output inputs secret]. rewrite He.
  destruct (process_files _ _ _ _ _); [|reflexivity].
  rewrite Hc. reflexivity.
Qed.



Lemma sorted_insert_perm (path_ltb : Path -> Path -> bool) (x : InputFile)
    (l : list InputFile) :
  Permutation (x :: l) (sorted_insert path_ltb x l).
Proof.
  induction l as [|y l IH]; cbn [sorted_insert]; [reflexivity|].
  destruct (path_ltb (file_path y) (file_path x)); [|reflexivity].
  rewrite perm_swap. constructor. exact IH.
Qed.

Lemma sorted_perm (path_ltb : Path -> Path -> bool) (l : list InputFile) :
  Permutation l (sorted path_ltb l).
Proof.
  unfold sorted. induction l as [|x l IH]; cbn [fold_right]; [reflexivity|].
  rewrite <- sorted_insert_perm. constructor. exact IH.
Qed.

Lemma supported_branch (f : InputFile) :
  supported f
  = str_eqb (lower (suffix (file_path f))) (py ".pdf")
    || is_excel_ext (lower (suffix (file_path f))).
Proof.
  unfold supported, str_in, SUPPORTED_EXTS, is_excel_ext.
  cbn [existsb]. rewrite orb_false_r, !orb_assoc. reflexivity.
Qed.

(** X20: the files [ingest] finds for its [--input] paths are the files
    at or below these paths whose suffix, in lower case, is [.pdf],
    [.xlsx], [.xls] or [.xlsm], each one once for every path that leads
    to it; they are the files for which [process_file] has a branch, so
    that no file found is reported as unsupported. *)
Theorem discovered_files_supported (path_ltb : Path -> Path -> bool)
    (input : list InputPath) :
  Permutation (discovered path_ltb input)
    (filter supported (files_below input))
  /\ Forall (fun f =>
               str_eqb (lower (suffix (file_path f))) (py ".pdf")
               || is_excel_ext (lower (suffix (file_path f))) = true)
       (discovered path_ltb input).
Proof.
  assert (P : Permutation (discovered path_ltb input)
                (filter supported (files_below input))).
  { unfold discovered, files_below.
    induction input as [|path input IH]; [reflexivity|].
    cbn [flat_map]. rewrite filter_app. apply Permutation_app; [|exact IH].
    destruct path as [f|rglob]; cbn [discover_input_files].
    - cbn [filter]. destruct (supported f); reflexivity.
    - rewrite <- sorted_perm.
      induction rglob as [|[f|p] rglob IHr]; [reflexivity | | exact IHr].
      cbn [flat_map]. rewrite filter_app. apply Permutation_app;
        [|exact IHr].
      cbn [filter]. destruct (supported f); reflexivity. }
  split; [exact P|]. apply Forall_forall. intros f Hf.
  apply (Permutation_in _ P) in Hf. apply filter_In in Hf.
  rewrite <- supported_branch. tauto.
Qed.

(** ** Merging the boxes of a page *)

Lemma insert_box_perm (x : Box) (l : list Box) :
  Permutation (x :: l) (insert_box x l).
Proof.
  induction l as [|y l IH]; cbn [insert_box]; [reflexivity|].
  destruct (box_key_ltb y x); [|reflexivity].
  rewrite perm_swap. constructor. exact IH.
Qed.

Lemma sort_boxes_perm (l : list Box) : Permutation l (sort_boxes l).
Proof.
  unfold sort_boxes. induction l as [|x l IH]; cbn [fold_right];
    [reflexivity|].
  rewrite <- insert_box_perm. constructor. exact IH.
Qed.

Lemma box_key_ltb_top (a b : Box) :
  (box_key_ltb a b = true -> box_top a <= box_top b)
  /\ (box_key_ltb a b = false -> box_top b <= box_top a).
Proof.
  destruct a as [[[ax1 ay1] ax2] ay2], b as [[[bx1 by1] bx2] by2].
  unfold box_key_ltb, box_top. cbn [fst snd].
  destruct (ay1 <? by1) eqn:L; [apply Z.ltb_lt in L|apply Z.ltb_ge in L];
    cbn [orb].
  - split; [lia | discriminate].
  - destruct (ay1 =? by1) eqn:E; [apply Z.eqb_eq in E|]; cbn [andb].
    + split; lia.
    + split; [discriminate | lia].
Qed.

Lemma sort_boxes_tops (l : list Box) :
  StronglySorted (fun a b => box_top a <= box_top b) (sort_boxes l).
Proof.
  unfold sort_boxes. induction l as [|x l IH]; cbn [fold_right];
    [constructor|].
  revert IH. generalize (fold_right insert_box [] l). clear l.
  induction 1 as [|y l S IH F]; cbn [insert_box]; [repeat constructor|].
  destruct (box_key_ltb y x) eqn:K; apply box_key_ltb_top in K.
  - constructor; [exact IH|]. rewrite <- insert_box_perm.
    constructor; [exact K | exact F].
  - constructor; [constructor; assumption|].
    constructor; [exact K|]. eapply Forall_impl; [|exact F].
    cbv beta. intros. lia.
Qed.

Lemma corners_within_refl (box : Box) : corners_within box box.
Proof. destruct box as [[[x1 y1] x2] y2]. cbn. lia. Qed.

Lemma corners_within_trans (a b c : Box) :
  corners_within a b -> corners_within b c -> corners_within a c.
Proof.
  destruct a as [[[ax1 ay1] ax2] ay2], b as [[[bx1 by1] bx2] by2],
    c as [[[cx1 cy1] cx2] cy2]. cbn. lia.
Qed.

(** What a turn of the loop does to [merged]: the items but the last are
    kept, and the last one is kept or grown, with [box] put into it or
    after it. *)
Lemma merge_box_spec (merged : list Box) (box : Box) :
  merged = [] /\ merge_box merged box = [box]
  \/ exists front last_box,
       merged = front ++ [last_box]
       /\ (merge_box merged box = front ++ [last_box; box]
           \/ exists grown,
                merge_box merged box = front ++ [grown]
                /\ corners_within grown last_box
                /\ corners_within grown box
                /\ fst (fst (fst grown))
                   = Z.min (fst (fst (fst last_box))) (fst (fst (fst box)))
                /\ box_top grown = Z.min (box_top last_box) (box_top box)).
Proof.
  induction merged as [|first rest IH]; [left; split; reflexivity|].
  right. destruct rest as [|second rest].
  - exists [], first. split; [reflexivity|].
    destruct first as [[[mx1 my1] mx2] my2], box as [[[x1 y1] x2] y2].
    cbn [merge_box].
    destruct (negb _); [right | left; reflexivity].
    eexists. split; [reflexivity|]. unfold box_top. cbn. lia.
  - destruct IH as [[E _] | (front & last_box & E & H)]; [discriminate|].
    exists (first :: front), last_box.
    split; [rewrite E; reflexivity|].
    change (merge_box (first :: second :: rest) box)
      with (first :: merge_box (second :: rest) box).
    destruct H as [H | (grown & H & G)].
    + left. rewrite H. reflexivity.
    + right. exists grown. rewrite H. split; [reflexivity | exact G].
Qed.

Lemma merge_box_covered (merged : list Box) (box c : Box) :
  covered merged c \/ c = box -> covered (merge_box merged box) c.
Proof.
  intros H.
  destruct (merge_box_spec merged box)
    as [[E M] | (front & last_box & E & [M | (grown & M & G1 & G2 & _)])];
    rewrite M; subst merged.
  - destruct H as [(m & [] & _) | ->].
    exists box. split; [left; reflexivity | apply corners_within_refl].
  - destruct H as [(m & Hm & W) | ->].
    + exists m. split; [|exact W]. apply in_app_or in Hm.
      apply in_or_app. destruct Hm as [Hm | [<- | []]]; [left; exact Hm|].
      right. left. reflexivity.
    + exists box. split; [|apply corners_within_refl].
      apply in_or_app. right. right. left. reflexivity.
  - destruct H as [(m & Hm & W) | ->].
    + apply in_app_or in Hm. destruct Hm as [Hm | [<- | []]].
      * exists m. split; [apply in_or_app; left; exact Hm | exact W].
      * exists grown. split; [apply in_or_app; right; left; reflexivity|].
        exact (corners_within_trans _ _ _ G1 W).
    + exists grown. split; [apply in_or_app; right; left; reflexivity|].
      exact G2.
Qed.

Lemma fold_merge_box_covered (expanded : list Box) :
  forall merged c,
    covered merged c \/ In c expanded ->
    covered (fold_left merge_box expanded merged) c.
Proof.
  induction expanded as [|box expanded IH]; intros merged c H.
  - destruct H as [H | []]. exact H.
  - cbn [fold_left]. apply IH. destruct H as [H | [<- | H]].
    + left. apply merge_box_covered. left. exact H.
    + left. apply merge_box_covered. right. reflexivity.
    + right. exact H.
Qed.

(** X21: every box given to [merge_overlapping_boxes] lies within one of
    the boxes it returns, when the box starts at coordinates that are not
    negative and [expand_px] is not negative: no low-confidence word is
    left out of the regions. *)
Theorem merge_overlapping_boxes_covers (boxes : list Box) (expand_px : Z)
    (box : Box) :
  0 <= expand_px ->
  In box boxes ->
  0 <= fst (fst (fst box)) -> 0 <= box_top box ->
  exists region,
    In region (merge_overlapping_boxes boxes expand_px)
    /\ box_within region box.
Proof.
  intros He Hin Hx Hy. unfold merge_overlapping_boxes.
  destruct boxes as [|b0 boxes]; [destruct Hin|]. cbn [truthy].
  destruct (fold_merge_box_covered
              (sort_boxes (map (expand_box expand_px) (b0 :: boxes))) []
              (expand_box expand_px box)) as (m & Hm & W).
  { right. eapply Permutation_in; [apply sort_boxes_perm|].
    apply in_map. exact Hin. }
  exists (box_of_corners m). split; [apply in_map; exact Hm|].
  destruct m as [[[mx1 my1] mx2] my2], box as [[[x y] w] h].
  unfold box_top in Hy. cbn in *. lia.
Qed.

Lemma merge_overlapping_boxes_covers_witness :
  exists region,
    In region (merge_overlapping_boxes [(10, 10, 5, 5); (18, 12, 4, 4)] 6)
    /\ box_within region (18, 12, 4, 4).
Proof.
  apply merge_overlapping_boxes_covers;
    [lia | right; left; reflexivity | cbn; lia | cbn; lia].
Defined.

Lemma fold_merge_box_regions (expanded : list Box) :
  forall merged,
    Forall (fun b => 0 <= fst (fst (fst b)) /\ 0 <= box_top b) merged ->
    Forall (fun b => 0 <= fst (fst (fst b)) /\ 0 <= box_top b) expanded ->
    StronglySorted (fun a b => box_top a <= box_top b) (merged ++ expanded) ->
    let result := fold_left merge_box expanded merged in
    Forall (fun b => 0 <= fst (fst (fst b)) /\ 0 <= box_top b) result
    /\ StronglySorted (fun a b => box_top a <= box_top b) result
    /\ (length result <= length merged + length expanded)%nat
    /\ (merged ++ expanded <> [] -> result <> []).
Proof.
  induction expanded as [|box expanded IH]; intros merged Pm Pe S.
  - cbn [fold_left]. rewrite app_nil_r in *. repeat split; auto.
    apply Nat.le_add_r.
  - cbn [fold_left]. inversion Pe as [|? ? Pb Pe']. subst.
    destruct (merge_box_spec merged box)
      as [[E M] | (front & last_box & E & [M | (grown & M & G1 & G2 & Gx & Gy)])];
      rewrite M; subst merged.
    + destruct (IH [box]) as (R1 & R2 & R3 & R4); auto.
    + destruct (IH (front ++ [last_box; box])) as (R1 & R2 & R3 & R4).
      * apply Forall_app. apply Forall_app in Pm. destruct Pm as [Pf Pl].
        split; [exact Pf|]. inversion Pl as [|? ? Pl1 _]. subst.
        constructor; [exact Pl1|]. constructor; [exact Pb | constructor].
      * exact Pe'.
      * rewrite <- app_assoc in *. exact S.
      * split; [exact R1|]. split; [exact R2|].
        split; [|intros _; apply R4; destruct front; discriminate].
        rewrite !length_app in *. cbn [length] in *. lia.
    + destruct (IH (front ++ [grown])) as (R1 & R2 & R3 & R4).
      * apply Forall_app. apply Forall_app in Pm. destruct Pm as [Pf Pl].
        split; [exact Pf|]. inversion Pl as [|? ? [Pl1 Pl2] _]. subst.
        constructor; [|constructor]. rewrite Gx, Gy. lia.
      * exact Pe'.
      * rewrite <- app_assoc in *. cbn [app] in *.
        assert (T : box_top grown = box_top last_box).
        { rewrite Gy. apply Z.min_l.
          clear - S. induction front as [|a front IHf].
          - cbn [app] in S. inversion S as [|? ? _ F]. subst.
            inversion F. assumption.
          - apply IHf. cbn [app] in S. inversion S. assumption. }
        clear - S T. induction front as [|a front IHf].
        -- cbn [app] in *. inversion S as [|? ? S' F]. subst.
           inversion S' as [|? ? S'' F']. subst.
           inversion F as [|? ? _ F'']. subst.
           constructor; [exact S''|]. rewrite T. exact F''.
        -- cbn [app] in *. inversion S as [|? ? S' F]. subst.
           constructor; [apply IHf; exact S'|].
           apply Forall_app in F. destruct F as [F1 F2].
           apply Forall_app. split; [exact F1|].
           inversion F2 as [|? ? L F3]. subst.
           inversion F3 as [|? ? _ F4]. subst.
           constructor; [rewrite T; exact L | exact F4].
      * split; [exact R1|]. split; [exact R2|].
        split; [|intros _; apply R4; destruct front; discriminate].
        rewrite !length_app in *. cbn [length] in *. lia.
Qed.

Lemma box_of_corners_tops (merged : list Box) :
  StronglySorted (fun a b => box_top a <= box_top b) merged ->
  StronglySorted (fun a b => box_top a <= box_top b)
    (map box_of_corners merged).
Proof.
  induction 1 as [|a l S IH F]; [constructor|].
  cbn [map]. constructor; [exact IH|]. apply Forall_map.
  eapply Forall_impl; [|exact F].
  destruct a as [[[ax1 ay1] ax2] ay2]. intros [[[bx1 by1] bx2] by2].
  unfold box_top. cbn. lia.
Qed.

(** X22: the regions [merge_overlapping_boxes] returns start at
    coordinates that are not negative and are at least one pixel wide and
    high; they come from top to bottom, there are no more of them than
    boxes given, and there is one at least when a box is given. *)
Theorem merge_overlapping_boxes_regions (boxes : list Box) (expand_px : Z) :
  let regions := merge_overlapping_boxes boxes expand_px in
  Forall (fun region =>
            let '(x, y, w, h) := region in
            0 <= x /\ 0 <= y /\ 1 <= w /\ 1 <= h) regions
  /\ StronglySorted (fun a b => box_top a <= box_top b) regions
  /\ (length regions <= length boxes)%nat
  /\ (regions = [] <-> boxes = []).
Proof.
  unfold merge_overlapping_boxes.
  destruct boxes as [|b0 boxes];
    [cbn; repeat split; auto; constructor|].
  cbn [truthy].
  set (expanded := sort_boxes (map (expand_box expand_px) (b0 :: boxes))).
  assert (P : Permutation (map (expand_box expand_px) (b0 :: boxes))
                expanded) by apply sort_boxes_perm.
  assert (Pe : Forall (fun b => 0 <= fst (fst (fst b)) /\ 0 <= box_top b)
                 expanded).
  { apply Forall_forall. intros b Hb.
    apply (Permutation_in _ (Permutation_sym P)) in Hb.
    apply in_map_iff in Hb. destruct Hb as ([[[x y] w] h] & <- & _).
    unfold box_top. cbn. lia. }
  pose proof (fold_merge_box_regions expanded [] (Forall_nil _) Pe
                (sort_boxes_tops _)) as R.
  cbv zeta in R. destruct R as (R1 & R2 & R3 & R4).
  cbv zeta. split; [|split; [|split]].
  - apply Forall_map. eapply Forall_impl; [|exact R1].
    intros [[[x1 y1] x2] y2]. unfold box_top. cbn. lia.
  - apply box_of_corners_tops. exact R2.
  - rewrite length_map. apply Permutation_length in P.
    rewrite length_map in P. cbn [app length] in *. unfold Box in *. lia.
  - split; [|discriminate]. intros E. exfalso.
    apply map_eq_nil in E. revert E. apply R4.
    apply Permutation_length in P. cbn [app].
    destruct expanded; [discriminate P | discriminate].
Qed.

(** ** The words of a page *)

Lemma float_conf_minus_one (data : TesseractData) (i : nat) :
  match float_conf data i with
  | Ok c => c
  | Err => QArith_base.inject_Z (-1)
  end = QArith_base.inject_Z (-1).
Proof.
  unfold float_conf. destruct i; [|reflexivity].
  destruct (data_conf data); reflexivity.
Qed.

Lemma words_from_confidence (data : TesseractData) :
  forall texts i words,
    words_from data i texts = Ok words ->
    Forall (fun wb => confidence wb = QArith_base.inject_Z (-1)
                      /\ truthy (wb_text wb) = true) words.
Proof.
  induction texts as [|t rest IH]; intros i words H.
  - inversion H. constructor.
  - cbn [words_from] in H. rewrite float_conf_minus_one in H.
    change (QArith_base.Qle_bool (QArith_base.inject_Z 0)
              (QArith_base.inject_Z (-1))) with false in H.
    cbn [negb] in H. rewrite andb_true_r in H.
    destruct (truthy (strip match t with Some s => s | None => [] end))
      eqn:T; cbn [negb] in H.
    + destruct (get_item (data_left data) i) as [x|]; [|discriminate].
      destruct (get_item (data_top data) i) as [y|]; [|discriminate].
      destruct (get_item (data_width data) i) as [w|]; [|discriminate].
      destruct (get_item (data_height data) i) as [h|]; [|discriminate].
      destruct (words_from data (S i) rest) as [ws|] eqn:E; [|discriminate].
      apply (f_equal (fun r => match r with Ok l => l | Err => [] end)) in H.
      subst words. constructor; [|eapply IH; exact E].
      cbn [confidence wb_text]. split; [reflexivity | exact T].
    + eapply IH. exact H.
Qed.

(** X23: every word [extract_words] returns has the confidence [-1.0]
    and a text that is not empty, whatever confidences the OCR reported:
    the default [["-1"][i]] raises for every index but 0, [float] of the
    list of confidences raises at index 0, and both are caught and
    replaced by [-1.0], so that the words without text are all
    dropped. *)
Theorem extract_words_confidence (data : TesseractData)
    (words : list WordBox) :
  extract_words data = Ok words ->
  Forall (fun wb => confidence wb = QArith_base.inject_Z (-1)
                    /\ truthy (wb_text wb) = true) words.
Proof. unfold extract_words. apply words_from_confidence. Qed.

Lemma extract_words_confidence_witness :
  extract_words
    (mkData (Some [Some (py "Hello"); Some (py " "); None; Some (py "wrld")])
       (Some [QArith_base.inject_Z 96; QArith_base.inject_Z 95;
              QArith_base.inject_Z 95; QArith_base.inject_Z 30])
       (Some [10; 70; 75; 80]) (Some [12; 12; 12; 12])
       (Some [50; 4; 4; 40]) (Some [14; 14; 14; 14]))
  = Ok [mkWordBox (py "Hello") (QArith_base.inject_Z (-1)) (10, 12, 50, 14);
        mkWordBox (py "wrld") (QArith_base.inject_Z (-1)) (80, 12, 40, 14)]
  /\ Forall (fun wb => confidence wb = QArith_base.inject_Z (-1)
                       /\ truthy (wb_text wb) = true)
       [mkWordBox (py "Hello") (QArith_base.inject_Z (-1)) (10, 12, 50, 14);
        mkWordBox (py "wrld") (QArith_base.inject_Z (-1)) (80, 12, 40, 14)].
Proof.
  split; [reflexivity|].
  apply (extract_words_confidence
           (mkData
              (Some [Some (py "Hello"); Some (py " "); None;
                     Some (py "wrld")])
              (Some [QArith_base.inject_Z 96; QArith_base.inject_Z 95;
                     QArith_base.inject_Z 95; QArith_base.inject_Z 30])
              (Some [10; 70; 75; 80]) (Some [12; 12; 12; 12])
              (Some [50; 4; 4; 40]) (Some [14; 14; 14; 14]))).
  reflexivity.
Defined.

(** X24: [ocr_pdf_to_compact] never finds a low-confidence region: the
    boxes it keeps are those of the words with a confidence between 0
    and the threshold, the words of [extract_words] all have the
    confidence [-1.0], and so [merge_overlapping_boxes] is given no box
    and returns none, for every threshold. *)
Theorem no_low_confidence_region (data : TesseractData)
    (words : list WordBox) (conf_threshold : Z) :
  extract_words data = Ok words ->
  merge_overlapping_boxes (low_conf_boxes words conf_threshold) 6 = [].
Proof.
  intros H. apply words_from_confidence in H.
  replace (low_conf_boxes words conf_threshold) with (@nil Box);
    [reflexivity|].
  unfold low_conf_boxes. symmetry.
  induction H as [|wb words [C _] _ IH]; [reflexivity|].
  cbn [filter]. rewrite C.
  change (QArith_base.Qle_bool (QArith_base.inject_Z 0)
            (QArith_base.inject_Z (-1))) with false.
  cbn [andb]. exact IH.
Qed.

Lemma no_low_confidence_region_witness :
  merge_overlapping_boxes
    (low_conf_boxes
       [mkWordBox (py "Hello") (QArith_base.inject_Z (-1)) (10, 12, 50, 14);
        mkWordBox (py "wrld") (QArith_base.inject_Z (-1)) (80, 12, 40, 14)]
       70) 6
  = [].
Proof.
  apply (no_low_confidence_region
           (mkData
              (Some [Some (py "Hello"); Some (py " "); None;
                     Some (py "wrld")])
              (Some [QArith_base.inject_Z 96; QArith_base.inject_Z 95;
                     QArith_base.inject_Z 95; QArith_base.inject_Z 30])
              (Some [10; 70; 75; 80]) (Some [12; 12; 12; 12])
              (Some [50; 4; 4; 40]) (Some [14; 14; 14; 14]))).
  reflexivity.
Defined.
